(** * FineDeal product matching engine: a shallow embedding and its properties

    The development follows the TypeScript sources
    - [src/utils/brand-normalization.ts]  (brand canonicalisation),
    - [src/utils/product.ts]              (attribute extraction, final
                                           de-duplication of colour variants),
    - [src/utils/deduplication.ts]        (de-duplication before matching),
    - [src/services/smart-matcher.ts]     (the weighted scorer),
    - [src/services/matcher.ts]           (the legacy level matcher and the
                                           similar products),
    and, for the further properties at the end, the comparison routine and
    the price parser of [src/utils/product.ts], the price validation that
    follows the de-duplication in [src/utils/deduplication.ts], and the
    in-memory cache of [unnamed/part_000].

    Conventions of the embedding.
    - A JavaScript string is a Rocq [string]: a sequence of 8-bit code units,
      read as the code points U+0000..U+00FF.  Case conversion, white space
      and the regular-expression classes are those of ECMAScript on that
      range.
    - A JavaScript [number] that holds a score, a price or a ratio is a
      rational [Q] (exact arithmetic; the rounding of these as IEEE doubles
      is not modelled).  [parseInt] returns [option Z], the exact integer,
      [None] standing for NaN; where the program subtracts two such
      integers, [toDouble] rounds each of them to the nearest double, and
      then their difference.
    - Arrays are lists; a [Map] iterated in insertion order is an association
      list; a [Set] is a duplicate-free list in insertion order.
    - Logging has no effect on results and is left out. *)

From Stdlib Require Import List Bool Arith ZArith QArith Qround Qminmax Lia.
From Stdlib Require Import Ascii String DecimalString.
From Stdlib Require Import Sorting.Sorted Permutation.
Import ListNotations.

Set Implicit Arguments.
Close Scope Q_scope.
Close Scope Z_scope.

(* ================================================================== *)
(** ** The JavaScript primitives the sources rely on *)
(* ================================================================== *)

Module JS.

Definition code (c : ascii) : nat := nat_of_ascii c.

Definition between (lo hi n : nat) : bool := (lo <=? n) && (n <=? hi).

(** [\d], [\w] and [\s] of ECMAScript regular expressions; [isSpace] is
    also the white space removed by [String.prototype.trim] and skipped
    by [parseInt]. *)
Definition isDigit (c : ascii) : bool := between 48 57 (code c).
Definition isUpperAZ (c : ascii) : bool := between 65 90 (code c).
Definition isLowerAZ (c : ascii) : bool := between 97 122 (code c).
Definition isWord (c : ascii) : bool :=
  isDigit c || isUpperAZ c || isLowerAZ c || (code c =? 95).
Definition isSpace (c : ascii) : bool :=
  between 9 13 (code c) || (code c =? 32) || (code c =? 160).

(** A 7-bit character. *)
Definition isAscii (c : ascii) : bool := code c <? 128.

(** [toLowerCase] on one code unit: A-Z, and U+00C0..U+00DE but U+00D7. *)
Definition lowerChar (c : ascii) : ascii :=
  let n := code c in
  if between 65 90 n then ascii_of_nat (n + 32)
  else if between 192 222 n && negb (n =? 215) then ascii_of_nat (n + 32)
  else c.

(** [toUpperCase] on one code unit gives a string: U+00DF (sharp s) becomes
    the two letters SS.  U+00B5 and U+00FF have upper-case forms above
    U+00FF (U+039C and U+0178), which an 8-bit string cannot hold: they are
    left as they are.  The results below that give the value of an
    upper-case form are stated on ASCII strings.  The idempotence of
    [normalizeBrand] asks of the upper-case form of a first character only
    what the two forms above U+00FF share with their stand-ins: it is one
    character, its own upper-case form, and its lower-case form begins no
    name of the alias table. *)
Definition upperChar (c : ascii) : string :=
  let n := code c in
  if between 97 122 n then String (ascii_of_nat (n - 32)) EmptyString
  else if n =? 223 then "SS"%string
  else if between 224 254 n && negb (n =? 247)
       then String (ascii_of_nat (n - 32)) EmptyString
  else String c EmptyString.

Fixpoint toLowerCase (s : string) : string :=
  match s with
  | EmptyString => EmptyString
  | String c r => String (lowerChar c) (toLowerCase r)
  end.

Fixpoint toUpperCase (s : string) : string :=
  match s with
  | EmptyString => EmptyString
  | String c r => (upperChar c ++ toUpperCase r)%string
  end.

(** [s.charAt(0)] and [s.slice(1)]. *)
Definition charAt0 (s : string) : string :=
  match s with
  | EmptyString => EmptyString
  | String c _ => String c EmptyString
  end.

Definition slice1 (s : string) : string :=
  match s with
  | EmptyString => EmptyString
  | String _ r => r
  end.

(** [s.trim()]. *)
Fixpoint trimStart (s : string) : string :=
  match s with
  | EmptyString => EmptyString
  | String c r => if isSpace c then trimStart r else s
  end.

Fixpoint trimEnd (s : string) : string :=
  match s with
  | EmptyString => EmptyString
  | String c r =>
      match trimEnd r with
      | EmptyString => if isSpace c then EmptyString else String c EmptyString
      | r' => String c r'
      end
  end.

Definition trim (s : string) : string := trimEnd (trimStart s).

(** A string is truthy when it is not empty. *)
Definition truthy (s : string) : bool :=
  match s with EmptyString => false | _ => true end.

(** [a || b] on strings. *)
Definition orElse (a b : string) : string := if truthy a then a else b.

(** [s.includes(t)]. *)
Fixpoint includes (s t : string) : bool :=
  String.prefix t s ||
  match s with
  | EmptyString => false
  | String _ r => includes r t
  end.

(** [a < b] on strings: lexicographic on code units. *)
Fixpoint strLt (a b : string) : bool :=
  match a, b with
  | _, EmptyString => false
  | EmptyString, String _ _ => true
  | String x a', String y b' =>
      if code x <? code y then true
      else if code y <? code x then false
      else strLt a' b'
  end.

(** [arr.includes(x)] on an array of strings. *)
Definition arrIncludes (l : list string) (x : string) : bool :=
  existsb (String.eqb x) l.

(** [arr.join(sep)]. *)
Fixpoint join (sep : string) (l : list string) : string :=
  match l with
  | [] => EmptyString
  | [x] => x
  | x :: r => (x ++ sep ++ join sep r)%string
  end.

(** [new Set(arr)], listed in insertion order. *)
Fixpoint newSet (l : list string) : list string :=
  match l with
  | [] => []
  | x :: r => x :: filter (fun y => negb (String.eqb x y)) (newSet r)
  end.

(** [parseInt(s)] without radix: white space, a sign, an optional [0x]
    prefix, then the longest run of digits; [None] is NaN. *)
Definition digitVal (c : ascii) : Z := Z.of_nat (code c - 48).

Definition hexVal (c : ascii) : option Z :=
  let n := code c in
  if between 48 57 n then Some (Z.of_nat (n - 48))
  else if between 97 102 n then Some (Z.of_nat (n - 87))
  else if between 65 70 n then Some (Z.of_nat (n - 55))
  else None.

Fixpoint decRun (acc : option Z) (s : string) : option Z :=
  match s with
  | EmptyString => acc
  | String c r =>
      if isDigit c
      then decRun (Some (10 * match acc with Some a => a | None => 0 end
                         + digitVal c)%Z) r
      else acc
  end.

Fixpoint hexRun (acc : option Z) (s : string) : option Z :=
  match s with
  | EmptyString => acc
  | String c r =>
      match hexVal c with
      | Some d => hexRun (Some (16 * match acc with Some a => a | None => 0 end
                                + d)%Z) r
      | None => acc
      end
  end.

Definition parseMagnitude (s : string) : option Z :=
  match s with
  | String "0" (String "x" r) => hexRun None r
  | String "0" (String "X" r) => hexRun None r
  | _ => decRun None s
  end.

Definition parseInt (s : string) : option Z :=
  match trimStart s with
  | String "-" r => option_map Z.opp (parseMagnitude r)
  | String "+" r => parseMagnitude r
  | r => parseMagnitude r
  end.

(** The integer [z] as a [number]: the nearest IEEE double, the nearer of
    the two neighbours with a significand of 53 bits, the one with the even
    significand when [z] is half-way.  Up to 2^53 in absolute value every
    integer is a double.  [None] stands for an infinity: the result when
    the rounded value reaches 2^1024.  ([parseInt] may approximate a run of
    more than 20 digits; V8 rounds the exact integer, as is done here.) *)
Definition toDouble (z : Z) : option Z :=
  let n := Z.abs z in
  if (n <? 2 ^ 53)%Z then Some z
  else
    let e := (Z.log2 n - 52)%Z in
    let q := Z.shiftr n e in
    let r := (n - Z.shiftl q e)%Z in
    let half := Z.shiftl 1 (e - 1) in
    let q' := if (r <? half)%Z then q
              else if (half <? r)%Z then (q + 1)%Z
              else if Z.even q then q else (q + 1)%Z in
    let m := Z.shiftl q' e in
    if (2 ^ 1024 <=? m)%Z then None else Some (Z.sgn z * m)%Z.

(** Comparisons and [Math] functions on numbers. *)
Definition Qleb (a b : Q) : bool := Qle_bool a b.
Definition Qltb (a b : Q) : bool := negb (Qle_bool b a).
Definition Qeqb (a b : Q) : bool := Qeq_bool a b.

Definition Math_min (a b : Q) : Q := if Qleb a b then a else b.
Definition Math_max (a b : Q) : Q := if Qleb a b then b else a.

(** [Math.round(x)] is the floor of [x + 1/2]. *)
Definition Math_round (x : Q) : Z := Qfloor (x + (1 # 2))%Q.

(** [arr.sort(cmp)]: a stable sort; [cmp a b <= 0] keeps [a] before [b]. *)
Section Sort.
Variable A : Type.
Variable cmp : A -> A -> Z.

Fixpoint insert (x : A) (l : list A) : list A :=
  match l with
  | [] => [x]
  | y :: r => if (cmp x y <=? 0)%Z then x :: y :: r else y :: insert x r
  end.

Fixpoint sort (l : list A) : list A :=
  match l with
  | [] => []
  | x :: r => insert x (sort r)
  end.
End Sort.

(** [arr.slice(0, n)]. *)
Definition slice0 (A : Type) (n : nat) (l : list A) : list A := firstn n l.

(** [arr.reduce(f)] without initial value, on a non-empty array. *)
Definition reduce1 (A : Type) (f : A -> A -> A) (x : A) (l : list A) : A :=
  fold_left f l x.

End JS.

(* ================================================================== *)
(** ** Regular expressions with the backtracking semantics of ECMAScript *)
(* ================================================================== *)

Module Regex.
Import JS.

(** The fragment the sources use: character classes, sequence, ordered
    alternation, greedy star, the word boundary [\b] and capture groups.
    [x?] is [Alt x Eps], [x+] is [Seq x (Star x)]. *)
Inductive re : Type :=
| Chr (p : ascii -> bool)
| Eps
| Seq (a b : re)
| Alt (a b : re)
| Star (a : re)
| Bnd
| Grp (n : nat) (a : re).

Definition opt (a : re) : re := Alt a Eps.
Definition plus (a : re) : re := Seq a (Star a).

(** [a{lo,hi}], greedy. *)
Fixpoint upto (n : nat) (a : re) : re :=
  match n with
  | O => Eps
  | S k => opt (Seq a (upto k a))
  end.

Fixpoint times (n : nat) (a : re) : re :=
  match n with
  | O => Eps
  | S k => Seq a (times k a)
  end.

Definition rep (lo hi : nat) (a : re) : re := Seq (times lo a) (upto (hi - lo) a).

Fixpoint seqs (l : list re) : re :=
  match l with
  | [] => Eps
  | [a] => a
  | a :: r => Seq a (seqs r)
  end.

(** Ordered alternation [a|b|c]; the empty list matches nothing. *)
Fixpoint alts (l : list re) : re :=
  match l with
  | [] => Chr (fun _ => false)
  | [a] => a
  | a :: r => Alt a (alts r)
  end.

(** A literal, matched as it is, or under the [i] flag.  The literals of
    the sources are ASCII: under [i] a letter A-Z or a-z matches itself in
    either case, and every other character matches itself only. *)
Definition chr (c : ascii) : re := Chr (Ascii.eqb c).

Definition eqCI (c d : ascii) : bool :=
  Ascii.eqb c d ||
  ((isUpperAZ c || isLowerAZ c) && (isUpperAZ d || isLowerAZ d)
   && Ascii.eqb (lowerChar c) (lowerChar d)).

Definition ichr (c : ascii) : re := Chr (eqCI c).

Fixpoint lit (s : string) : re :=
  match s with
  | EmptyString => Eps
  | String c EmptyString => chr c
  | String c r => Seq (chr c) (lit r)
  end.

Fixpoint ilit (s : string) : re :=
  match s with
  | EmptyString => Eps
  | String c EmptyString => ichr c
  | String c r => Seq (ichr c) (ilit r)
  end.

(** The classes [\d], [\s], [\w], and [[a-z]] under the [i] flag. *)
Definition d : re := Chr isDigit.
Definition s : re := Chr isSpace.
Definition w : re := Chr isWord.
Definition az_i : re := Chr (fun c => isLowerAZ c || isUpperAZ c).

(** Captures: group number, start and end position. *)
Definition caps : Type := list (nat * (nat * nat)).

Definition wordAt (inp : list ascii) (i : nat) : bool :=
  match nth_error inp i with
  | Some c => isWord c
  | None => false
  end.

Definition boundary (inp : list ascii) (i : nat) : bool :=
  xorb (match i with O => false | S j => wordAt inp j end) (wordAt inp i).

Section Match.
Variable inp : list ascii.

(** [m r i c k]: match [r] at position [i] and hand the end position and
    the captures to the continuation [k]; [None] makes the matcher
    backtrack.  An iteration of [Star] that consumes nothing is refused,
    so the loop runs at most [length inp] times. *)
Fixpoint m (r : re) (i : nat) (c : caps)
           (k : nat -> caps -> option (nat * caps)) {struct r}
  : option (nat * caps) :=
  match r with
  | Chr p =>
      match nth_error inp i with
      | Some ch => if p ch then k (S i) c else None
      | None => None
      end
  | Eps => k i c
  | Seq a b => m a i c (fun j c' => m b j c' k)
  | Alt a b =>
      match m a i c k with
      | Some res => Some res
      | None => m b i c k
      end
  | Star a =>
      (fix loop (fuel : nat) (i : nat) (c : caps) {struct fuel}
         : option (nat * caps) :=
         match fuel with
         | O => k i c
         | S f =>
             match m a i c (fun j c' => if i <? j then loop f j c' else None) with
             | Some res => Some res
             | None => k i c
             end
         end) (List.length inp) i c
  | Bnd => if boundary inp i then k i c else None
  | Grp n a => m a i c (fun j c' => k j ((n, (i, j)) :: c'))
  end.

(** A match starting exactly at [i]. *)
Definition matchAt (r : re) (i : nat) : option (nat * caps) :=
  m r i [] (fun j c => Some (j, c)).

(** The first match at or after [i]: start, end, captures. *)
Fixpoint scan (r : re) (fuel i : nat) : option (nat * nat * caps) :=
  match matchAt r i with
  | Some (j, c) => Some (i, j, c)
  | None =>
      match fuel with
      | O => None
      | S f => scan r f (S i)
      end
  end.

Definition exec (r : re) (from : nat) : option (nat * nat * caps) :=
  if from <=? List.length inp then scan r (List.length inp - from) from else None.

Definition sub (i j : nat) : string :=
  string_of_list_ascii (firstn (j - i) (skipn i inp)).

Definition group (c : caps) (n : nat) : string :=
  match find (fun e => fst e =? n) c with
  | Some (_, (i, j)) => sub i j
  | None => EmptyString
  end.

(** All matches of a [g] regular expression, left to right; after an
    empty match the search resumes one position further. *)
Fixpoint allFrom (r : re) (fuel from : nat) : list (nat * nat) :=
  match fuel with
  | O => []
  | S f =>
      match exec r from with
      | Some (i, j, _) => (i, j) :: allFrom r f (if j =? i then S j else j)
      | None => []
      end
  end.

Definition all (r : re) : list (nat * nat) :=
  allFrom r (S (List.length inp)) 0.

(** The pieces between the matches, each followed by the replacement. *)
Fixpoint stitch (rep : string) (ms : list (nat * nat)) (last : nat) : string :=
  match ms with
  | [] => sub last (List.length inp)
  | (i, j) :: r => (sub last i ++ rep ++ stitch rep r j)%string
  end.

(** [String.prototype.split] with a regular expression: [p] is the end
    of the last separator, [q] the position tried next.  A turn either
    advances [q] or, after a separator, is followed by one that does, so
    twice the length of the input bounds the number of turns. *)
Fixpoint splitFrom (r : re) (fuel p q : nat) : list string :=
  match fuel with
  | O => [sub p (List.length inp)]
  | S f =>
      if List.length inp <=? q then [sub p (List.length inp)]
      else
        match matchAt r q with
        | Some (e, _) =>
            if e =? p then splitFrom r f p (S q)
            else sub p q :: splitFrom r f e e
        | None => splitFrom r f p (S q)
        end
  end.
End Match.

(** [re.test(s)]. *)
Definition test (r : re) (str : string) : bool :=
  match exec (list_ascii_of_string str) r 0 with
  | Some _ => true
  | None => false
  end.

(** [s.match(re)] without the [g] flag: the groups of the first match,
    group 0 being the whole match.  A group that took no part in the match
    reads as the empty string here ([undefined] in JavaScript); the sources
    read only groups that always take part. *)
Definition match1 (r : re) (str : string) : option (nat -> string) :=
  let inp := list_ascii_of_string str in
  match exec inp r 0 with
  | Some (i, j, c) =>
      Some (fun n => match n with O => sub inp i j | _ => group inp c n end)
  | None => None
  end.

(** [s.match(re)] with the [g] flag: every matched substring, or [None]
    (JavaScript [null]) when there is none. *)
Definition matchAll (r : re) (str : string) : option (list string) :=
  let inp := list_ascii_of_string str in
  match all inp r with
  | [] => None
  | ms => Some (map (fun ij => sub inp (fst ij) (snd ij)) ms)
  end.

(** [s.replace(re, rep)] with the [g] flag and a plain replacement. *)
Definition replaceAll (r : re) (rep : string) (str : string) : string :=
  let inp := list_ascii_of_string str in
  stitch inp rep (all inp r) 0.

(** [s.split(re)]. *)
Definition split (r : re) (str : string) : list string :=
  let inp := list_ascii_of_string str in
  match inp with
  | [] => match matchAt inp r 0 with Some _ => [] | None => [EmptyString] end
  | _ => splitFrom inp r (2 * List.length inp + 1) 0 0
  end.

End Regex.

Open Scope string_scope.

(* ================================================================== *)
(** ** Data model ([src/types/index.ts]) *)
(* ================================================================== *)

Record Product : Type := mkProduct {
  site : string;
  title : string;
  price : string;          (* the display string *)
  numericPrice : Q;
  url : string;
  image : string;
  productId : string;
  brand : string;
  category : string
}.

Inductive MatchLevel : Type :=
| EXACT_ID | EXACT | HIGH | MEDIUM | LOW | SIMILAR.

Record ProductAttributes : Type := mkAttrs {
  a_model : string;
  a_storage : string;
  a_ram : string;
  a_color : string;
  a_size : string;
  a_variant : string;
  a_brand : string
}.

Record ScoringBreakdown : Type := mkScoring {
  brandScore : Q;
  modelScore : Q;
  specsScore : Q;
  titleScore : Q;
  categoryScore : Q;
  priceScore : Q;
  total : Q
}.

(** A [MatchResult] spreads the candidate ([...candidate]) and adds the
    match fields; [similarity] and [scoring] are optional. *)
Record MatchResult : Type := mkMatch {
  product : Product;
  confidence : Z;
  matchLevel : MatchLevel;
  matchBadge : string;
  matchReason : string;
  similarity : option Q;
  scoring : option ScoringBreakdown
}.

(* ================================================================== *)
(** ** Brand canonicalisation ([src/utils/brand-normalization.ts]) *)
(* ================================================================== *)

Module Brand.
Import JS.

(** [Object.entries] lists the keys in the order they are written. *)
Definition BRAND_ALIASES : list (string * list string) :=
  [ ("Apple", ["iphone"; "ipad"; "macbook"; "airpods"; "apple"]);
    ("Samsung", ["samsung"; "galaxy"]);
    ("Xiaomi", ["xiaomi"; "mi"; "redmi"; "poco"]);
    ("OnePlus", ["oneplus"; "one plus"]);
    ("Realme", ["realme"; "real me"]);
    ("Oppo", ["oppo"]);
    ("Vivo", ["vivo"]);
    ("Google", ["google"; "pixel"]);
    ("HP", ["hp"; "hewlett-packard"; "hewlett packard"]);
    ("Dell", ["dell"]);
    ("Lenovo", ["lenovo"]);
    ("Asus", ["asus"]);
    ("Acer", ["acer"]);
    ("MSI", ["msi"]);
    ("Sony", ["sony"]);
    ("LG", ["lg"]);
    ("Philips", ["philips"]);
    ("Panasonic", ["panasonic"]);
    ("Whirlpool", ["whirlpool"]);
    ("Bosch", ["bosch"]);
    ("IFB", ["ifb"]);
    ("Canon", ["canon"]);
    ("Nikon", ["nikon"]);
    ("Nike", ["nike"]);
    ("Adidas", ["adidas"]);
    ("Puma", ["puma"]);
    ("Reebok", ["reebok"]);
    ("Levis", ["levi"; "levis"; "levi's"]);
    ("Zara", ["zara"]);
    ("H&M", ["h&m"; "hm"; "h and m"]);
    ("Mango", ["mango"]);
    ("UCB", ["ucb"; "united colors of benetton"; "benetton"]);
    ("Allen Solly", ["allen solly"; "allensolly"]);
    ("Van Heusen", ["van heusen"; "vanheusen"]);
    ("Lakme", ["lakme"; "lakm" ++ String "233" ""]);   (* e acute, U+00E9 *)
    ("Maybelline", ["maybelline"]);
    ("L'Oreal", ["loreal"; "l'oreal"; "l oreal"]);
    ("MAC", ["mac"]);
    ("Revlon", ["revlon"]);
    ("Nykaa", ["nykaa"]);
    ("Mamaearth", ["mamaearth"; "mama earth"]);
    ("Boat", ["boat"; "boAt"]);
    ("JBL", ["jbl"]);
    ("Bose", ["bose"]);
    ("Sennheiser", ["sennheiser"]);
    ("Fastrack", ["fastrack"; "fast track"]);
    ("Titan", ["titan"]);
    ("Casio", ["casio"]);
    ("Fossil", ["fossil"]);
    ("Timex", ["timex"]) ].

(** The canonical name whose lower-case form is [normalized] (first loop). *)
Definition canonicalFor (normalized : string) : option string :=
  option_map fst
    (find (fun e => toLowerCase (fst e) =? normalized) BRAND_ALIASES).

(** The canonical name one of whose aliases is [normalized] (second loop). *)
Definition aliasFor (normalized : string) : option string :=
  option_map fst
    (find (fun e => existsb (fun alias => toLowerCase alias =? normalized) (snd e))
          BRAND_ALIASES).

Definition normalizeBrand (brand : string) : string :=
  if negb (truthy brand) then ""
  else
    let normalized := trim (toLowerCase brand) in
    match canonicalFor normalized with
    | Some canonical => canonical
    | None =>
        match aliasFor normalized with
        | Some canonical => canonical
        | None => toUpperCase (charAt0 brand) ++ toLowerCase (slice1 brand)
        end
    end.

Definition brandsMatch (brand1 brand2 : string) : bool :=
  if negb (truthy brand1) || negb (truthy brand2) then false
  else
    let norm1 := normalizeBrand brand1 in
    let norm2 := normalizeBrand brand2 in
    toLowerCase norm1 =? toLowerCase norm2.

End Brand.

(* ================================================================== *)
(** ** Attribute extraction ([src/utils/product.ts]) *)
(* ================================================================== *)

Module ProductUtils.
Import JS Regex.

Definition sp : re := plus s.        (* \s+ *)
Definition ss : re := Star s.        (* \s* *)
Definition dp : re := plus d.        (* \d+ *)

(** The ordered patterns of [extractModel]; all carry the [i] flag. *)
Definition modelPatterns : list re :=
  [ (* (iphone\s*\d+[a-z]*(?:\s+pro)?(?:\s+max)?(?:\s+plus)?(?:\s+mini)?) *)
    Grp 1 (seqs [ilit "iphone"; ss; dp; Star az_i;
                 opt (Seq sp (ilit "pro")); opt (Seq sp (ilit "max"));
                 opt (Seq sp (ilit "plus")); opt (Seq sp (ilit "mini"))]);
    (* (galaxy\s+[a-z]\d+\s*(?:pro|plus|ultra)?) *)
    Grp 1 (seqs [ilit "galaxy"; sp; az_i; dp; ss;
                 opt (alts [ilit "pro"; ilit "plus"; ilit "ultra"])]);
    (* (oneplus\s+\d+[a-z]*(?:\s+pro)?(?:\s+r)?(?:\s+t)?) *)
    Grp 1 (seqs [ilit "oneplus"; sp; dp; Star az_i;
                 opt (Seq sp (ilit "pro")); opt (Seq sp (ilit "r"));
                 opt (Seq sp (ilit "t"))]);
    (* (pixel\s+\d+[a-z]*(?:\s+pro)?(?:\s+xl)?) *)
    Grp 1 (seqs [ilit "pixel"; sp; dp; Star az_i;
                 opt (Seq sp (ilit "pro")); opt (Seq sp (ilit "xl"))]);
    (* ((?:redmi|mi)\s+\d+[a-z]*(?:\s+pro)?) *)
    Grp 1 (seqs [alts [ilit "redmi"; ilit "mi"]; sp; dp; Star az_i;
                 opt (Seq sp (ilit "pro"))]);
    (* (nitro\s+(?:v\s+)?\d+|aspire\s+\d+|predator\s+\w+\s+\d+|swift\s+\d+) *)
    Grp 1 (alts [seqs [ilit "nitro"; sp; opt (Seq (ilit "v") sp); dp];
                 seqs [ilit "aspire"; sp; dp];
                 seqs [ilit "predator"; sp; plus w; sp; dp];
                 seqs [ilit "swift"; sp; dp]]);
    (* (tuf\s+[a-z]\d+|rog\s+\w+\s+[a-z]?\d+|vivobook\s+\d+|zenbook\s+\d+) *)
    Grp 1 (alts [seqs [ilit "tuf"; sp; az_i; dp];
                 seqs [ilit "rog"; sp; plus w; sp; opt az_i; dp];
                 seqs [ilit "vivobook"; sp; dp];
                 seqs [ilit "zenbook"; sp; dp]]);
    (* (pavilion\s+\d+|omen\s+\d+|victus\s+\d+|envy\s+\d+) *)
    Grp 1 (alts [seqs [ilit "pavilion"; sp; dp];
                 seqs [ilit "omen"; sp; dp];
                 seqs [ilit "victus"; sp; dp];
                 seqs [ilit "envy"; sp; dp]]);
    (* (xps\s+\d+|g\d+|inspiron\s+\d+|vostro\s+\d+|latitude\s+\d+) *)
    Grp 1 (alts [seqs [ilit "xps"; sp; dp];
                 seqs [ilit "g"; dp];
                 seqs [ilit "inspiron"; sp; dp];
                 seqs [ilit "vostro"; sp; dp];
                 seqs [ilit "latitude"; sp; dp]]);
    (* (loq\s+\d+|ideapad\s+(?:gaming\s+)?\d+|thinkpad\s+[a-z]\d+|legion\s+\d+) *)
    Grp 1 (alts [seqs [ilit "loq"; sp; dp];
                 seqs [ilit "ideapad"; sp; opt (Seq (ilit "gaming") sp); dp];
                 seqs [ilit "thinkpad"; sp; az_i; dp];
                 seqs [ilit "legion"; sp; dp]]);
    (* (gf\d+|katana\s+\d+|bravo\s+\d+|pulse\s+\d+) *)
    Grp 1 (alts [seqs [ilit "gf"; dp];
                 seqs [ilit "katana"; sp; dp];
                 seqs [ilit "bravo"; sp; dp];
                 seqs [ilit "pulse"; sp; dp]]);
    (* \b([a-z]{1,3}\d{2,4}[a-z]?)\b *)
    seqs [Bnd; Grp 1 (seqs [rep 1 3 az_i; rep 2 4 d; opt az_i]); Bnd] ].

(** The first pattern that matches wins. *)
Fixpoint firstModel (patterns : list re) (title : string) : string :=
  match patterns with
  | [] => ""
  | pattern :: rest =>
      match match1 pattern title with
      | Some g => trim (g 1)
      | None => firstModel rest title
      end
  end.

Definition extractModel (title : string) : string :=
  firstModel modelPatterns title.

(** [/\b(\d+)\s*(gb|tb)\b/i] *)
Definition storagePattern : re :=
  seqs [Bnd; Grp 1 dp; ss; Grp 2 (alts [ilit "gb"; ilit "tb"]); Bnd].

Definition extractStorage (title : string) : string :=
  match match1 storagePattern title with
  | Some g => g 1 ++ toUpperCase (g 2)
  | None => ""
  end.

(** [/\b(\d+)\s*gb\s+ram\b/i] *)
Definition ramPattern : re :=
  seqs [Bnd; Grp 1 dp; ss; ilit "gb"; sp; ilit "ram"; Bnd].

Definition extractRAM (title : string) : string :=
  match match1 ramPattern title with
  | Some g => g 1 ++ "GB"
  | None => ""
  end.

Definition colors : list string :=
  [ "black"; "white"; "blue"; "red"; "green"; "yellow"; "pink"; "purple";
    "gray"; "grey"; "silver"; "gold"; "rose"; "titanium"; "midnight";
    "starlight"; "navy"; "maroon"; "beige"; "brown"; "orange" ].

Definition extractColor (title : string) : string :=
  let titleLower := toLowerCase title in
  match find (fun color => includes titleLower color) colors with
  | Some color => toUpperCase (charAt0 color) ++ slice1 color
  | None => ""
  end.

End ProductUtils.

(* ================================================================== *)
(** ** The weighted scorer ([src/services/smart-matcher.ts]) *)
(* ================================================================== *)

Module SmartMatcher.
Import JS Regex ProductUtils.

Definition MIN_CONFIDENCE : Q := 70.
Definition MAX_RESULTS : nat := 8.

Definition W_BRAND : Q := 25.
Definition W_MODEL : Q := 30.
Definition W_SPECS : Q := 20.
Definition W_TITLE : Q := 15.
Definition W_CATEGORY : Q := 10.

Definition CATEGORY_KEYWORDS : list (string * list string) :=
  [ ("laptop", ["laptop"; "notebook"; "ultrabook"; "chromebook"; "macbook"]);
    ("phone", ["phone"; "smartphone"; "mobile"; "iphone"; "galaxy phone"]);
    ("tablet", ["tablet"; "ipad"; "tab s"; "surface go"]);
    ("gpu", ["graphics card"; "gpu"; "geforce"; "radeon"; "rtx"; "gtx"]);
    ("accessory", ["case"; "cover"; "charger"; "cable"; "adapter"; "protector";
                   "tempered glass"]) ].

(** The features of a product, as [extractFeatures] returns them. *)
Record Features : Type := mkFeatures {
  f_brand : string;
  f_model : string;
  f_storage : string;
  f_ram : string;
  f_color : string;
  f_tokens : list string;
  f_bigrams : list string;
  f_trigrams : list string;
  f_numbers : list (option Z);
  f_keywords : list string;
  f_titleLower : string
}.

Definition preprocessCandidates (candidates : list Product) : list Product :=
  filter (fun p =>
            if negb (truthy (title p)) || (String.length (title p) <? 5)%nat then false
            else if Qltb (numericPrice p) 10 then false
            else true)
         candidates.

Definition detectCategory (product : Product) : string :=
  let titleLower := toLowerCase (title product) in
  let explicit :=
    if truthy (category product) then
      if includes (category product) "laptop" then Some "laptop"
      else if includes (category product) "phone" then Some "phone"
      else if includes (category product) "tablet" then Some "tablet"
      else if includes (category product) "gpu" then Some "gpu"
      else None
    else None in
  match explicit with
  | Some c => c
  | None =>
      match find (fun e => existsb (fun keyword => includes titleLower keyword) (snd e))
                 CATEGORY_KEYWORDS with
      | Some (c, _) => c
      | None => "unknown"
      end
  end.

Definition filterByCategory (source : Product) (sourceCategory : string)
                            (candidates : list Product) : list Product :=
  if sourceCategory =? "accessory" then
    filter (fun c => detectCategory c =? "accessory") candidates
  else
    filter (fun c =>
              let candidateCategory := detectCategory c in
              if candidateCategory =? "accessory" then false
              else if sourceCategory =? "unknown" then true
              else if candidateCategory =? "unknown" then true
              else sourceCategory =? candidateCategory)
           candidates.

Definition stopWords : list string :=
  ["the"; "a"; "an"; "and"; "or"; "but"; "in"; "on"; "at"; "to"; "for"; "of";
   "with"; "by"].

(** [/[^\w\s]/g] *)
Definition specialChar : re := Chr (fun c => negb (isWord c || isSpace c)).

Definition tokenize (text : string) : list string :=
  filter (fun t => (1 <? String.length t)%nat && negb (arrIncludes stopWords t))
         (split sp (replaceAll specialChar " " (toLowerCase text))).

(** [for (i = 0; i <= tokens.length - n; i++) push(tokens.slice(i, i+n).join(' '))] *)
Definition generateNGrams (tokens : list string) (n : nat) : list string :=
  map (fun i => join " " (firstn n (skipn i tokens)))
      (seq 0 (S (List.length tokens) - n)).

(** The three patterns of [extractKeywords], flags [gi]. *)
Definition brandPatterns : re :=
  seqs [Bnd;
        Grp 1 (alts (map ilit
          ["apple"; "samsung"; "oneplus"; "xiaomi"; "redmi"; "oppo"; "vivo";
           "realme"; "pixel"; "poco"; "iphone"; "galaxy"; "macbook"; "dell";
           "hp"; "lenovo"; "asus"; "acer"; "msi"]));
        Bnd].

Definition alnum_i : re := Chr (fun c => isLowerAZ c || isUpperAZ c || isDigit c).

Definition kwModelPatterns : re :=
  seqs [Bnd;
        Grp 1 (seqs [plus alnum_i; chr " ";
                     alts (map ilit ["pro"; "plus"; "ultra"; "max"; "mini";
                                     "lite"; "ti"; "super"])]);
        Bnd].

Definition specPatterns : re :=
  seqs [Bnd;
        Grp 1 (seqs [dp; alts (map ilit ["gb"; "tb"; "ghz"; "mp"; "inch"; "hz"])]);
        Bnd].

Definition orEmpty (o : option (list string)) : list string :=
  match o with Some l => l | None => [] end.

Definition extractKeywords (text : string) : list string :=
  let keywords := [] in
  let brands := orEmpty (matchAll brandPatterns text) in
  let keywords := (keywords ++ brands)%list in
  let models := orEmpty (matchAll kwModelPatterns text) in
  let keywords := (keywords ++ models)%list in
  let specs := orEmpty (matchAll specPatterns text) in
  let keywords := (keywords ++ specs)%list in
  map toLowerCase keywords.

Definition extractFeatures (product : Product) : Features :=
  let titleLower := toLowerCase (title product) in
  let brand := Brand.normalizeBrand (orElse (brand product) "") in
  let model := extractModel (title product) in
  let storage := extractStorage (title product) in
  let ram := extractRAM (title product) in
  let color := extractColor (title product) in
  let tokens := tokenize (title product) in
  let bigrams := generateNGrams tokens 2 in
  let trigrams := generateNGrams tokens 3 in
  let numbers := map parseInt (orEmpty (matchAll dp titleLower)) in
  let keywords := extractKeywords titleLower in
  mkFeatures brand model storage ram color tokens bigrams trigrams numbers
             keywords titleLower.

(** Jaccard similarity of two token arrays. *)
Definition ofNat (n : nat) : Q := inject_Z (Z.of_nat n).

Definition calculateTokenOverlap (tokens1 tokens2 : list string) : Q :=
  if (List.length tokens1 =? 0)%nat || (List.length tokens2 =? 0)%nat then 0%Q
  else
    let set1 := newSet tokens1 in
    let set2 := newSet tokens2 in
    let intersection := newSet (filter (fun x => arrIncludes set2 x) set1) in
    let union := newSet (set1 ++ set2)%list in
    (ofNat (List.length intersection) / ofNat (List.length union))%Q.

Definition scoreBrand (brand1 brand2 : string) : Q :=
  if negb (truthy brand1) || negb (truthy brand2) then 0%Q
  else if Brand.brandsMatch brand1 brand2 then W_BRAND
  else if includes brand1 brand2 || includes brand2 brand1
       then (W_BRAND * (7 # 10))%Q
  else
    let words1 := split sp brand1 in
    let words2 := split sp brand2 in
    let commonWords :=
      filter (fun w => arrIncludes words2 w && (2 <? String.length w)%nat) words1 in
    if (0 <? List.length commonWords)%nat then (W_BRAND * (5 # 10))%Q
    else 0%Q.

(** The table of [levenshteinDistance] is an array of rows.  [assign l i v]
    is the assignment [l[i] = v] for [i <= l.length] (the only case that
    occurs): it overwrites a cell or appends one. *)
Definition assign (A : Type) (l : list A) (i : nat) (v : A) : list A :=
  (firstn i l ++ v :: skipn (S i) l)%list.

Definition Matrix : Type := list (list nat).

Definition cell (matrix : Matrix) (i j : nat) : nat :=
  nth j (nth i matrix []) 0%nat.

Definition setCell (matrix : Matrix) (i j v : nat) : Matrix :=
  assign matrix i (assign (nth i matrix []) j v).

(** [str.charAt(i)] as an optional code unit. *)
Definition charAt (str : string) (i : nat) : option ascii := String.get i str.

Definition sameChar (a b : option ascii) : bool :=
  match a, b with
  | Some x, Some y => Ascii.eqb x y
  | None, None => true
  | _, _ => false
  end.

Definition min3 (a b c : nat) : nat := Nat.min (Nat.min a b) c.

Definition levStep (str1 str2 : string) (i : nat) (matrix : Matrix) (j : nat)
  : Matrix :=
  if sameChar (charAt str2 (i - 1)) (charAt str1 (j - 1))
  then setCell matrix i j (cell matrix (i - 1) (j - 1))
  else setCell matrix i j
         (min3 (cell matrix (i - 1) (j - 1) + 1)
               (cell matrix i (j - 1) + 1)
               (cell matrix (i - 1) j + 1)).

Definition levenshteinTable (str1 str2 : string) : Matrix :=
  let matrix : Matrix := [] in
  (* for (i = 0; i <= str2.length; i++) matrix[i] = [i] *)
  let matrix :=
    fold_left (fun mx i => assign mx i [i]) (seq 0 (S (String.length str2))) matrix in
  (* for (j = 0; j <= str1.length; j++) matrix[0][j] = j *)
  let matrix :=
    fold_left (fun mx j => setCell mx 0 j j) (seq 0 (S (String.length str1))) matrix in
  (* for (i = 1; i <= str2.length; i++) for (j = 1; j <= str1.length; j++) *)
  fold_left
    (fun mx i => fold_left (levStep str1 str2 i) (seq 1 (String.length str1)) mx)
    (seq 1 (String.length str2)) matrix.

Definition levenshteinDistance (str1 str2 : string) : nat :=
  cell (levenshteinTable str1 str2) (String.length str2) (String.length str1).

Definition stringSimilarity (str1 str2 : string) : Q :=
  if str1 =? str2 then 1%Q
  else if (String.length str1 =? 0)%nat || (String.length str2 =? 0)%nat then 0%Q
  else
    let longer := if (String.length str2 <? String.length str1)%nat then str1 else str2 in
    let shorter := if (String.length str2 <? String.length str1)%nat then str2 else str1 in
    if (String.length longer =? 0)%nat then 1%Q
    else
      let editDistance := levenshteinDistance str1 str2 in
      ((ofNat (String.length longer) - ofNat editDistance)
         / ofNat (String.length longer))%Q.

(** [/[^a-z0-9]/g] *)
Definition nonAlnum : re := Chr (fun c => negb (isLowerAZ c || isDigit c)).

Definition scoreModel (model1 model2 : string) (tokens1 tokens2 : list string) : Q :=
  if negb (truthy model1) || negb (truthy model2) then
    let overlap := calculateTokenOverlap tokens1 tokens2 in
    (overlap * W_MODEL)%Q
  else
    let clean1 := replaceAll nonAlnum "" (toLowerCase model1) in
    let clean2 := replaceAll nonAlnum "" (toLowerCase model2) in
    if clean1 =? clean2 then W_MODEL
    else if includes clean1 clean2 || includes clean2 clean1
         then (W_MODEL * (8 # 10))%Q
    else
      let similarity := stringSimilarity clean1 clean2 in
      if Qltb (6 # 10) similarity then (W_MODEL * similarity)%Q
      else 0%Q.

(** [Math.abs(parseInt(a) - parseInt(b)) <= bound] on doubles.  A NaN
    operand makes the difference NaN and the comparison false; so does the
    difference of two infinities, and an infinite difference exceeds every
    bound. *)
Definition closeInt (a b : string) (bound : Z) : bool :=
  match parseInt a, parseInt b with
  | Some x, Some y =>
      match toDouble x, toDouble y with
      | Some dx, Some dy =>
          match toDouble (dx - dy) with
          | Some d => (Z.abs d <=? bound)%Z
          | None => false
          end
      | _, _ => false
      end
  | _, _ => false
  end.

Definition scoreSpecs (source candidate : Features) : Q :=
  let score := 0%Q in
  (* storage *)
  let score :=
    if truthy (f_storage source) && truthy (f_storage candidate) then
      if f_storage source =? f_storage candidate then (score + 8)%Q
      else if closeInt (f_storage source) (f_storage candidate) 128
           then (score + 4)%Q
      else score
    else score in
  (* RAM *)
  let score :=
    if truthy (f_ram source) && truthy (f_ram candidate) then
      if f_ram source =? f_ram candidate then (score + 8)%Q
      else if closeInt (f_ram source) (f_ram candidate) 4 then (score + 4)%Q
      else score
    else score in
  (* colour *)
  let score :=
    if truthy (f_color source) && truthy (f_color candidate) then
      if toLowerCase (f_color source) =? toLowerCase (f_color candidate)
      then (score + 4)%Q
      else score
    else score in
  score.

Definition scoreTitleSimilarity (tokens1 tokens2 bigrams1 bigrams2 : list string)
  : Q :=
  let tokenOverlap := calculateTokenOverlap tokens1 tokens2 in
  let bigramOverlap := calculateTokenOverlap bigrams1 bigrams2 in
  ((tokenOverlap * (4 # 10) + bigramOverlap * (6 # 10)) * W_TITLE)%Q.

Definition scoreCategory (cat1 cat2 : string) : Q :=
  if negb (truthy cat1) || negb (truthy cat2) then 5%Q
  else if cat1 =? cat2 then W_CATEGORY
  else if includes cat1 cat2 || includes cat2 cat1 then (W_CATEGORY * (7 # 10))%Q
  else 0%Q.

Definition scorePriceProximity (price1 price2 : Q) : Q :=
  if Qeqb price1 0 || Qeqb price2 0 then 0%Q
  else
    let ratio := (Math_max price1 price2 / Math_min price1 price2)%Q in
    if Qleb ratio (12 # 10) then 5%Q
    else if Qleb ratio (15 # 10) then 3%Q
    else if Qltb 2 ratio then (-2)%Q
    else 0%Q.

Definition calculateScore (source candidate : Features)
                          (sourceProduct candidateProduct : Product)
  : ScoringBreakdown :=
  let brandScore := scoreBrand (f_brand source) (f_brand candidate) in
  let modelScore := scoreModel (f_model source) (f_model candidate)
                               (f_tokens source) (f_tokens candidate) in
  let specsScore := scoreSpecs source candidate in
  let titleScore := scoreTitleSimilarity (f_tokens source) (f_tokens candidate)
                                         (f_bigrams source) (f_bigrams candidate) in
  let categoryScore := scoreCategory (category sourceProduct)
                                     (category candidateProduct) in
  let priceScore := scorePriceProximity (numericPrice sourceProduct)
                                        (numericPrice candidateProduct) in
  let total := Math_min 100
                 (brandScore + modelScore + specsScore + titleScore
                  + categoryScore + priceScore)%Q in
  mkScoring brandScore modelScore specsScore titleScore categoryScore priceScore
            total.

Definition getMatchLevel (score : Q) : MatchLevel :=
  if Qleb 90 score then EXACT
  else if Qleb 80 score then HIGH
  else if Qleb 70 score then MEDIUM
  else LOW.

(** The badges and the separator of reasons are text for display; the
    program never inspects them. *)
Definition getMatchBadge (score : Q) : string :=
  if Qleb 90 score then "🎯 EXACT"
  else if Qleb 80 score then "⭐ HIGH"
  else if Qleb 70 score then "✓ MEDIUM"
  else "~ LOW".

Definition buildMatchReason (scoring : ScoringBreakdown) (features : Features)
  : string :=
  let reasons := [] in
  let reasons :=
    if Qleb 20 (brandScore scoring)
    then (reasons ++ [("Brand: " ++ f_brand features)%string])%list else reasons in
  let reasons :=
    if Qleb 20 (modelScore scoring)
    then (reasons ++ [("Model: " ++ orElse (f_model features) "matched")%string])%list
    else reasons in
  let reasons :=
    if Qleb 10 (specsScore scoring) then
      let specs := [] in
      let specs := if truthy (f_storage features)
                   then (specs ++ [f_storage features])%list else specs in
      let specs := if truthy (f_ram features)
                   then (specs ++ [f_ram features])%list else specs in
      if (0 <? List.length specs)%nat
      then (reasons ++ [("Specs: " ++ join ", " specs)%string])%list else reasons
    else reasons in
  let reasons :=
    if Qleb 10 (titleScore scoring) then (reasons ++ ["Similar title"])%list
    else reasons in
  orElse (join " • " reasons) "Matched".

(** The body of [if (scoring.total >= this.MIN_CONFIDENCE)]: the match pushed
    for [candidate], if its total reaches the threshold. *)
Definition pushIfConfident (candidate : Product) (candidateFeatures : Features)
                           (scoring : ScoringBreakdown) : list MatchResult :=
  if Qleb MIN_CONFIDENCE (total scoring) then
    [ mkMatch candidate
              (Math_round (total scoring))
              (getMatchLevel (total scoring))
              (getMatchBadge (total scoring))
              (buildMatchReason scoring candidateFeatures)
              None
              (Some scoring) ]
  else [].

(** One turn of the scoring loop. *)
Definition scoreCandidate (sourceFeatures : Features) (sourceProduct : Product)
                          (candidate : Product) : list MatchResult :=
  let candidateFeatures := extractFeatures candidate in
  let scoring := calculateScore sourceFeatures candidateFeatures
                                sourceProduct candidate in
  pushIfConfident candidate candidateFeatures scoring.

(** No operation of the body throws on the data model above, so the
    [catch] branch, which returns the empty list, is never taken. *)
Definition findMatches (sourceProduct : Product) (candidates : list Product)
  : list MatchResult :=
  let validCandidates := preprocessCandidates candidates in
  let sourceCategory := detectCategory sourceProduct in
  let categoryFiltered :=
    filterByCategory sourceProduct sourceCategory validCandidates in
  if (List.length categoryFiltered =? 0)%nat then []
  else
    let sourceFeatures := extractFeatures sourceProduct in
    let scoredMatches :=
      flat_map (scoreCandidate sourceFeatures sourceProduct) categoryFiltered in
    let sortedMatches :=
      slice0 MAX_RESULTS
             (sort (fun a b => (confidence b - confidence a)%Z) scoredMatches) in
    sortedMatches.

End SmartMatcher.

(* ================================================================== *)
(** ** The legacy level matcher ([src/services/matcher.ts]) *)
(* ================================================================== *)

Module ProductMatcher.
Import JS Regex ProductUtils.

Definition MIN_CONFIDENCE : Z := 25.

Definition ACCESSORY_KEYWORDS : list string :=
  [ "case"; "cover"; "charger"; "cable"; "adapter"; "holder"; "stand";
    "protector"; "screen guard"; "tempered glass"; "skin"; "pouch";
    "sleeve"; "bag"; "strap"; "band"; "compatible"; "accessory" ].

Definition isAccessory (title : string) : bool :=
  let titleLower := toLowerCase title in
  existsb (fun keyword => includes titleLower keyword) ACCESSORY_KEYWORDS.

(** [/(phone|mobile|smartphone|laptop|tablet|watch|speaker)/i] *)
Definition deviceWords : re :=
  Grp 1 (alts (map ilit ["phone"; "mobile"; "smartphone"; "laptop"; "tablet";
                         "watch"; "speaker"])).

Definition filterAccessories (source : Product) (candidates : list Product)
  : list Product :=
  let sourceIsAccessory := isAccessory (title source) in
  filter (fun c =>
            if sourceIsAccessory then true
            else
              let isAcc := isAccessory (title c) in
              if test deviceWords (toLowerCase (title c)) then true
              else negb isAcc)
         candidates.

Definition extractAttributes (product : Product) : ProductAttributes :=
  let model := extractModel (title product) in
  let storage := extractStorage (title product) in
  let ram := extractRAM (title product) in
  let color := extractColor (title product) in
  let brand := Brand.normalizeBrand (orElse (brand product) "") in
  mkAttrs model storage ram color "" "" brand.

(** Level 1. *)
Definition findExactIdMatches (source : Product) (candidates : list Product)
  : list MatchResult :=
  map (fun c => mkMatch c 100 EXACT_ID "🎯 EXACT" "Exact Product ID" None None)
      (filter (fun c => productId c =? productId source) candidates).

(** [nums1 && nums2] and the loop that looks for a shared run of at least
    two digits. *)
Definition shareNumber (nums1 nums2 : option (list string)) : bool :=
  match nums1, nums2 with
  | Some n1, Some n2 =>
      existsb (fun num => arrIncludes n2 num && (2 <=? String.length num)%nat) n1
  | _, _ => false
  end.

Definition nonAlnum : re := Chr (fun c => negb (isLowerAZ c || isDigit c)).

Definition compareModels (model1 model2 : string) : bool :=
  if negb (truthy model1) || negb (truthy model2) then false
  else
    let clean1 := replaceAll nonAlnum "" (toLowerCase model1) in
    let clean2 := replaceAll nonAlnum "" (toLowerCase model2) in
    if clean1 =? clean2 then true
    else if includes clean1 clean2 || includes clean2 clean1 then true
    else shareNumber (matchAll dp clean1) (matchAll dp clean2).

Definition commonBrands : list string :=
  [ "iphone"; "samsung"; "galaxy"; "oneplus"; "xiaomi"; "redmi"; "mi";
    "oppo"; "vivo"; "realme"; "pixel"; "poco"; "motorola"; "moto";
    "nokia"; "asus"; "lenovo"; "dell"; "hp"; "acer"; "apple"; "macbook" ].

Definition compareBrands (attr1 attr2 : ProductAttributes) : bool :=
  let brand1 := orElse (a_brand attr1) "" in
  let brand2 := orElse (a_brand attr2) "" in
  if truthy brand1 && truthy brand2 && Brand.brandsMatch brand1 brand2 then true
  else
    let model1 := toLowerCase (orElse (a_model attr1) "") in
    let model2 := toLowerCase (orElse (a_model attr2) "") in
    if truthy model1 && truthy model2
       && ((model1 =? model2) || includes model1 model2 || includes model2 model1)
    then true
    else if existsb (fun brand => includes model1 brand && includes model2 brand)
                    commonBrands
    then true
    else shareNumber (matchAll dp model1) (matchAll dp model2).

Definition stopWords : list string :=
  ["the"; "a"; "an"; "and"; "or"; "for"; "with"; "from"; "to"; "in"; "on"; "at"].

Definition tokenize (text : string) : list string :=
  filter (fun w => (2 <? String.length w)%nat && negb (arrIncludes stopWords w))
         (split sp (replaceAll SmartMatcher.specialChar " " (toLowerCase text))).

Definition calculateTextSimilarity (text1 text2 : string) : Q :=
  let tokens1 := tokenize text1 in
  let tokens2 := tokenize text2 in
  let set1 := newSet tokens1 in
  let set2 := newSet tokens2 in
  let intersection := newSet (filter (fun x => arrIncludes set2 x) set1) in
  let union := newSet (set1 ++ set2)%list in
  if (0 <? List.length union)%nat
  then (SmartMatcher.ofNat (List.length intersection)
        / SmartMatcher.ofNat (List.length union))%Q
  else 0%Q.

Definition hasCommonKeywords (title1 title2 : string) : bool :=
  let keywords1 := tokenize title1 in
  let keywords2 := tokenize title2 in
  let common := filter (fun k => arrIncludes keywords2 k) keywords1 in
  (2 <=? List.length common)%nat.

(** [lo <= a / b && a / b <= hi].  When [b] is zero the quotient is an
    infinity or NaN and the test fails. *)
Definition ratioWithin (lo hi a b : Q) : bool :=
  if Qeqb b 0 then false
  else Qleb lo (a / b)%Q && Qleb (a / b)%Q hi.

Definition numToString (z : Z) : string :=
  NilZero.string_of_int (Z.to_int z).

(** Level 2: one turn of the loop. *)
Definition level2For (sourceAttrs : ProductAttributes) (candidate : Product)
  : list MatchResult :=
  let candAttrs := extractAttributes candidate in
  let modelsMatch := compareModels (a_model sourceAttrs) (a_model candAttrs) in
  if modelsMatch then
    if truthy (a_storage sourceAttrs) && truthy (a_storage candAttrs) then
      if a_storage sourceAttrs =? a_storage candAttrs then
        [ mkMatch candidate 95 EXACT "🎯 EXACT"
                  (a_model candAttrs ++ " " ++ a_storage candAttrs) None None ]
      else
        [ mkMatch candidate 80 HIGH "✓ HIGH"
                  (a_model candAttrs ++ " (different storage)") None None ]
    else
      [ mkMatch candidate 85 HIGH "✓ HIGH" (a_model candAttrs) None None ]
  else [].

Definition findBrandModelStorageMatches (source : Product)
    (sourceAttrs : ProductAttributes) (candidates : list Product)
  : list MatchResult :=
  if negb (truthy (a_model sourceAttrs)) then []
  else flat_map (level2For sourceAttrs) candidates.

(** Level 3: one turn of the loop. *)
Definition level3For (source : Product) (sourceAttrs : ProductAttributes)
                     (candidate : Product) : list MatchResult :=
  let candAttrs := extractAttributes candidate in
  let brandsMatch := compareBrands sourceAttrs candAttrs in
  let modelsMatch := truthy (a_model candAttrs)
                     && compareModels (a_model sourceAttrs) (a_model candAttrs) in
  if brandsMatch || modelsMatch then
    let similarity := calculateTextSimilarity (title source) (title candidate) in
    let confidence :=
      Z.min 84 (Z.max 70 (Math_round (70 + similarity * 14)%Q)) in
    let confidence :=
      if ratioWithin (7 # 10) (13 # 10) (numericPrice candidate) (numericPrice source)
      then Z.min 95 (confidence + 10)
      else confidence in
    [ mkMatch candidate confidence MEDIUM "≈ MEDIUM"
              (orElse (a_model candAttrs) "Similar model") (Some similarity) None ]
  else [].

Definition findBrandModelMatches (source : Product)
    (sourceAttrs : ProductAttributes) (candidates : list Product)
  : list MatchResult :=
  if negb (truthy (a_model sourceAttrs)) then []
  else flat_map (level3For source sourceAttrs) candidates.

(** Level 4: one turn of the loop. *)
Definition level4For (source : Product) (sourceAttrs : ProductAttributes)
                     (candidate : Product) : list MatchResult :=
  let candAttrs := extractAttributes candidate in
  let brandsMatch := compareBrands sourceAttrs candAttrs in
  let similarity := calculateTextSimilarity (title source) (title candidate) in
  let hasCommon := hasCommonKeywords (title source) (title candidate) in
  if Qleb (15 # 100) similarity || brandsMatch || hasCommon then
    let confidence :=
      Z.min 69 (Z.max 5 (Math_round (5 + similarity * 64)%Q)) in
    let confidence :=
      if ratioWithin (7 # 10) (13 # 10) (numericPrice candidate) (numericPrice source)
      then Z.min 80 (confidence + 15)
      else confidence in
    if (MIN_CONFIDENCE <=? confidence)%Z then
      [ mkMatch candidate confidence LOW "~ RELATED"
                ("Similar product (" ++ numToString (Math_round (similarity * 100)%Q)
                 ++ "% match)")
                (Some similarity) None ]
    else []
  else [].

Definition findFuzzyMatches (source : Product)
    (sourceAttrs : ProductAttributes) (candidates : list Product)
  : list MatchResult :=
  flat_map (level4For source sourceAttrs) candidates.

Definition sortAndLimit (matches : list MatchResult) (limit : nat)
  : list MatchResult :=
  slice0 limit
    (sort (fun a b => (confidence b - confidence a)%Z)
          (filter (fun m => (MIN_CONFIDENCE <=? confidence m)%Z) matches)).

(** The default value of the parameter [limit]. *)
Definition LIMIT : nat := 20.

(** The body of [findMatches]; as in the scorer, nothing in it throws. *)
Definition findMatches (sourceProduct : Product) (candidates : list Product)
  : list MatchResult :=
  let validCandidates :=
    filter (fun p => Qleb 10 (numericPrice p) && (5 <=? String.length (title p))%nat)
           candidates in
  let filtered := filterAccessories sourceProduct validCandidates in
  if (List.length filtered =? 0)%nat then []
  else
    let sourceAttrs := extractAttributes sourceProduct in
    let matches : list MatchResult := [] in
    (* Level 1, with its early exit *)
    let exactMatches :=
      if truthy (productId sourceProduct)
      then findExactIdMatches sourceProduct filtered
      else [] in
    if truthy (productId sourceProduct) && (0 <? List.length exactMatches)%nat
    then sortAndLimit exactMatches LIMIT
    else
      let level2 := findBrandModelStorageMatches sourceProduct sourceAttrs filtered in
      let matches := (matches ++ level2)%list in
      if (5 <=? List.length matches)%nat then sortAndLimit matches LIMIT
      else
        let level3 := findBrandModelMatches sourceProduct sourceAttrs filtered in
        let matches := (matches ++ level3)%list in
        let matches :=
          if (List.length matches <? 3)%nat
          then (matches ++ findFuzzyMatches sourceProduct sourceAttrs filtered)%list
          else matches in
        sortAndLimit matches LIMIT.

End ProductMatcher.

(* ================================================================== *)
(** ** De-duplication ([src/utils/product.ts], [src/utils/deduplication.ts]) *)
(* ================================================================== *)

Module Dedup.
Import JS Regex ProductUtils.

(** A [Map] with string keys, iterated in insertion order. *)
Definition JsMap (V : Type) : Type := list (string * V).

Definition mapHas (V : Type) (m : JsMap V) (key : string) : bool :=
  existsb (fun e => fst e =? key) m.

Definition mapGet (V : Type) (m : JsMap V) (key : string) : option V :=
  option_map snd (find (fun e => fst e =? key) m).

(** [m.set(key, v)]: an existing key keeps its place. *)
Fixpoint mapSet (V : Type) (m : JsMap V) (key : string) (v : V) : JsMap V :=
  match m with
  | [] => [(key, v)]
  | (k, old) :: r =>
      if k =? key then (k, v) :: r else (k, old) :: mapSet r key v
  end.

Definition getOr (V : Type) (o : option V) (dflt : V) : V :=
  match o with Some v => v | None => dflt end.

(** [new RegExp(`\\b${word}\\b`, 'gi')] *)
Definition wordRe (word : string) : re := seqs [Bnd; ilit word; Bnd].

(** *** [deduplicateColorVariants] of [src/utils/product.ts] *)

Definition colorKeywords : list string :=
  [ "black"; "white"; "blue"; "red"; "green"; "yellow"; "pink"; "purple";
    "grey"; "gray"; "silver"; "gold"; "rose"; "midnight"; "starlight";
    "coral"; "velvet"; "ocean"; "space"; "titanium"; "natural"; "pro" ].

Definition baseTitleOf (title : string) : string :=
  let baseTitle := toLowerCase title in
  let baseTitle :=
    fold_left (fun bt color => trim (replaceAll (wordRe color) "" bt))
              colorKeywords baseTitle in
  trim (replaceAll sp " " baseTitle).

(** [`${match.site}|${match.brand}|${baseTitle}`] *)
Definition variantKey (p : Product) : string :=
  site p ++ "|" ++ brand p ++ "|" ++ baseTitleOf (title p).

(** One turn of [matches.forEach]: create the group if missing, then push. *)
Definition addVariant (groups : JsMap (list MatchResult)) (mt : MatchResult)
  : JsMap (list MatchResult) :=
  let key := variantKey (product mt) in
  let groups := if negb (mapHas groups key) then mapSet groups key [] else groups in
  mapSet groups key (getOr (mapGet groups key) [] ++ [mt])%list.

Definition cheaperMatch (min curr : MatchResult) : MatchResult :=
  if Qltb (numericPrice (product curr)) (numericPrice (product min))
  then curr else min.

(** One turn of [groups.forEach].  A group is never empty; the first
    branch only makes the function total. *)
Definition keepCheapestMatch (variants : list MatchResult) : list MatchResult :=
  match variants with
  | [] => []
  | first :: rest =>
      if (List.length variants =? 1)%nat then [first]
      else [reduce1 cheaperMatch first rest]
  end.

Definition deduplicateColorVariants (matches : list MatchResult)
  : list MatchResult :=
  let groups := fold_left addVariant matches [] in
  flat_map (fun e => keepCheapestMatch (snd e)) groups.

(** *** [deduplicateProducts] of [src/utils/deduplication.ts] *)

Definition keyColors : list string :=
  [ "black"; "white"; "red"; "blue"; "green"; "yellow"; "pink"; "purple";
    "orange"; "grey"; "gray"; "brown"; "beige"; "navy"; "maroon"; "teal";
    "olive"; "gold"; "silver"; "rose"; "mint"; "coral"; "cream"; "ivory";
    "khaki"; "cyan"; "magenta" ].

(** [/\b(xs|s|m|l|xl|xxl|xxxl)\b/gi] *)
Definition sizeRe : re :=
  seqs [Bnd; Grp 1 (alts (map ilit ["xs"; "s"; "m"; "l"; "xl"; "xxl"; "xxxl"])); Bnd].

(** [/\b\d+(\.\d+)?\s*(gb|tb|mb|kg|g|ml|l|inch|cm|mm)\b/gi] *)
Definition measureRe : re :=
  seqs [Bnd; dp; opt (Grp 1 (Seq (chr ".") dp)); ss;
        Grp 2 (alts (map ilit ["gb"; "tb"; "mb"; "kg"; "g"; "ml"; "l"; "inch";
                               "cm"; "mm"]));
        Bnd].

Definition variantWords : list string :=
  ["variant"; "color"; "colour"; "size"; "pack of"; "combo"].

Definition normalizeProductKey (p : Product) : string :=
  let key := toLowerCase (title p) in
  let key := fold_left (fun k color => replaceAll (wordRe color) "" k) keyColors key in
  let key := replaceAll sizeRe "" key in
  let key := replaceAll measureRe "" key in
  let key := fold_left (fun k word => replaceAll (wordRe word) "" k) variantWords key in
  let key := trim (replaceAll sp " " key) in
  let brand := orElse (brand p) "" in
  toLowerCase brand ++ ":" ++ key.

(** One turn of [products.forEach] in [deduplicateSiteProducts]. *)
Definition addToGroup (groups : JsMap (list Product)) (p : Product)
  : JsMap (list Product) :=
  let key := normalizeProductKey p in
  let existing := getOr (mapGet groups key) [] in
  let existing := (existing ++ [p])%list in
  mapSet groups key existing.

(** [p.price < min.price] compares the display strings. *)
Definition cheaperProduct (min p : Product) : Product :=
  if strLt (price p) (price min) then p else min.

Definition keepCheapestProduct (group : list Product) : list Product :=
  match group with
  | [] => []
  | first :: rest =>
      if (List.length group =? 1)%nat then [first]
      else [reduce1 cheaperProduct first rest]
  end.

Definition deduplicateSiteProducts (products : list Product) : list Product :=
  let groups := fold_left addToGroup products [] in
  flat_map (fun e => keepCheapestProduct (snd e)) groups.

(** One turn of [products.forEach] in [deduplicateProducts]. *)
Definition addToSite (siteMap : JsMap (list Product)) (p : Product)
  : JsMap (list Product) :=
  let existing := getOr (mapGet siteMap (site p)) [] in
  let existing := (existing ++ [p])%list in
  mapSet siteMap (site p) existing.

Definition deduplicateProducts (products : list Product) : list Product :=
  let siteMap := fold_left addToSite products [] in
  flat_map (fun e => deduplicateSiteProducts (snd e)) siteMap.

End Dedup.

From Stdlib Require Import Qabs Lqa.
Close Scope Q_scope.
Close Scope Z_scope.

(* ================================================================== *)
(** ** Brand tools ([src/utils/brand-normalization.ts], continued) *)
(* ================================================================== *)

Module BrandTools.
Import JS Regex Brand.

(** [new RegExp(`\\b${alias}\\b`, 'i')]; the aliases hold no character that
    is special in a regular expression. *)
Definition aliasRe (alias : string) : re := seqs [Bnd; ilit alias; Bnd].

(** [/[^a-zA-Z]/g] *)
Definition nonLetter : re := Chr (fun c => negb (isLowerAZ c || isUpperAZ c)).

Definition extractAndNormalizeBrand (title : string) : string :=
  if negb (truthy title) then ""
  else
    let titleLower := toLowerCase title in
    match find (fun e => existsb (fun alias => test (aliasRe alias) titleLower) (snd e))
               BRAND_ALIASES with
    | Some (canonical, _) => canonical
    | None =>
        let words := split (plus s) title in
        match words with
        | [] => ""
        | word0 :: _ =>
            let firstWord := replaceAll nonLetter "" word0 in
            if (2 <=? String.length firstWord)%nat then normalizeBrand firstWord
            else ""
        end
    end.

Definition getBrandVariations (brand : string) : list string :=
  let normalized := normalizeBrand brand in
  match find (fun e => fst e =? normalized) BRAND_ALIASES with
  | Some (canonical, aliases) => canonical :: aliases
  | None => [brand; normalized]
  end.

End BrandTools.

(* ================================================================== *)
(** ** Title utilities ([src/utils/product.ts], continued) *)
(* ================================================================== *)

Module ProductText.
Import JS Regex.

(** [/[^\d.]/g] *)
Definition notDigitOrDot : re := Chr (fun c => negb (isDigit c || Ascii.eqb c ".")).

(** The digits at the front of a string, and what follows them. *)
Fixpoint leadingDigits (str : string) : string * string :=
  match str with
  | EmptyString => (EmptyString, EmptyString)
  | String c r =>
      if isDigit c
      then let '(ds, rest) := leadingDigits r in (String c ds, rest)
      else (EmptyString, str)
  end.

(** The number that a string of decimal digits denotes, 0 for no digit. *)
Fixpoint valueFrom (acc : Z) (ds : string) : Z :=
  match ds with
  | EmptyString => acc
  | String c r => valueFrom (10 * acc + digitVal c)%Z r
  end.

Definition digitsValue (ds : string) : Z := valueFrom 0 ds.

(** [parseFloat] on a string of digits and dots, the only strings that
    [parsePrice] hands to it: the longest prefix made of digits, a dot and
    digits, of which one of the two runs of digits may be missing; [None]
    is [NaN], the answer when both are.  The value is exact here; the
    source has the nearest double. *)
Definition parseFloat (cleaned : string) : option Q :=
  let '(intDigits, rest) := leadingDigits cleaned in
  let fracDigits :=
    match rest with
    | String "." r => fst (leadingDigits r)
    | _ => EmptyString
    end in
  if (String.length intDigits =? 0)%nat && (String.length fracDigits =? 0)%nat
  then None
  else Some (inject_Z (digitsValue intDigits)
             + inject_Z (digitsValue fracDigits)
               / inject_Z (10 ^ Z.of_nat (String.length fracDigits)))%Q.

Definition parsePrice (priceText : string) : Z :=
  if negb (truthy priceText) then 0%Z
  else
    let cleaned := replaceAll notDigitOrDot "" priceText in
    match parseFloat cleaned with
    | None => 0%Z
    | Some parsed => Math_round parsed
    end.

Definition anyOf (words : list string) : re := Grp 1 (alts (map ilit words)).

(** [detectCategory(title)], which the scraper stores in [Product.category]. *)
Definition detectCategory (title : string) : string :=
  let titleLower := toLowerCase title in
  if test (anyOf ["phone"; "mobile"; "smartphone"; "iphone"; "galaxy"]) titleLower
  then "electronics-phone"
  else if test (anyOf ["laptop"; "notebook"; "macbook"; "computer"; "gaming laptop"])
               titleLower
  then "electronics-laptop"
  else if test (anyOf ["graphics card"; "gpu"; "geforce"; "radeon"; "video card"])
               titleLower
  then "electronics-gpu"
  else if test (anyOf ["tablet"; "ipad"]) titleLower
  then "electronics-tablet"
  else if test (anyOf ["shirt"; "jeans"; "dress"; "trouser"; "shoe"; "sneaker";
                       "jacket"; "hoodie"; "kurta"; "saree"]) titleLower
  then "fashion"
  else if test (anyOf ["lipstick"; "makeup"; "foundation"; "cream"; "lotion";
                       "serum"; "shampoo"; "perfume"]) titleLower
  then "beauty"
  else "general".

End ProductText.

(* ================================================================== *)
(** ** Similar products ([src/services/matcher.ts], [findSimilarProducts]) *)
(* ================================================================== *)

Module SimilarProducts.
Import JS Regex.

(** [/\b(black|white|...|ocean)\b/i] *)
Definition colorRe : re :=
  seqs [Bnd;
        Grp 1 (alts (map ilit
          ["black"; "white"; "blue"; "red"; "green"; "yellow"; "pink"; "purple";
           "grey"; "gray"; "silver"; "gold"; "rose"; "midnight"; "starlight";
           "coral"; "velvet"; "ocean"]));
        Bnd].

(** The shade pattern: between word boundaries, an optional [shade] followed
    by optional white space and then one to three digits (groups 1 and 2),
    or else one of the shade words (group 3); flag [i]. *)
Definition shadeRe : re :=
  Alt (seqs [Bnd; opt (Grp 1 (Seq (ilit "shade") (Star s))); Grp 2 (rep 1 3 d); Bnd])
      (seqs [Bnd;
             Grp 3 (alts (map ilit
               ["fair"; "light"; "medium"; "dark"; "deep"; "ivory"; "beige";
                "nude"; "natural"]));
             Bnd]).

(** [m ? m[0].toLowerCase() : ''] *)
Definition firstMatchLower (r : re) (text : string) : string :=
  match match1 r text with
  | Some g => toLowerCase (g 0)
  | None => ""
  end.

(** [str.split(' ')[0]]: the part before the first space. *)
Fixpoint beforeSpace (str : string) : string :=
  match str with
  | EmptyString => EmptyString
  | String c r => if Ascii.eqb c " " then EmptyString else String c (beforeSpace r)
  end.

Definition typeKeywords : list string :=
  ["pro"; "max"; "plus"; "lite"; "mini"; "ultra"; "air"; "5g"; "4g"].

(** [typeKeywords.find(kw => title.includes(kw))], [None] for [undefined]. *)
Definition typeOf (titleLower : string) : option string :=
  find (fun kw => includes titleLower kw) typeKeywords.

Definition sameType (a b : option string) : bool :=
  match a, b with
  | Some x, Some y => x =? y
  | None, None => true
  | _, _ => false
  end.

(** One turn of the loop over the candidates. *)
Definition similarFor (sourceBrand sourceCategory sourceTitle sourceColor
                       sourceShade : string) (candidate : Product)
  : list MatchResult :=
  let candBrand := toLowerCase (orElse (brand candidate) "") in
  let candCategory := orElse (toLowerCase (category candidate)) "" in
  let candTitle := toLowerCase (title candidate) in
  if negb (truthy candBrand) || negb (truthy sourceBrand)
     || negb (includes candBrand (beforeSpace sourceBrand))
  then []
  else
    let confidence := 20%Z in
    let matchReason := "Same brand" in
    let '(confidence, matchReason) :=
      if truthy sourceCategory && truthy candCategory
         && (sourceCategory =? candCategory)
      then
        let confidence := (confidence + 15)%Z in
        let matchReason := "Same brand & category (" ++ sourceCategory ++ ")" in
        (* fashion: the colour *)
        let '(confidence, matchReason) :=
          if (includes sourceCategory "fashion" || includes sourceCategory "clothing")
             && truthy sourceColor
          then
            let candColor := firstMatchLower colorRe candTitle in
            if candColor =? sourceColor
            then ((confidence + 20)%Z,
                  "Same brand, category & color (" ++ sourceColor ++ ")")
            else (confidence, matchReason)
          else (confidence, matchReason) in
        (* beauty: the shade *)
        let '(confidence, matchReason) :=
          if includes sourceCategory "beauty" && truthy sourceShade
          then
            let candShade := firstMatchLower shadeRe candTitle in
            if candShade =? sourceShade
            then ((confidence + 25)%Z,
                  "Same brand, category & shade (" ++ sourceShade ++ ")")
            else (confidence, matchReason)
          else (confidence, matchReason) in
        (* electronics: the type keyword *)
        if includes sourceCategory "electronics"
           || includes sourceCategory "smartphone"
           || includes sourceCategory "laptop"
        then
          let sourceHasType := existsb (fun kw => includes sourceTitle kw) typeKeywords in
          let candHasType := existsb (fun kw => includes candTitle kw) typeKeywords in
          if sourceHasType && candHasType
          then
            let sourceType := typeOf sourceTitle in
            let candType := typeOf candTitle in
            if sameType sourceType candType
            then ((confidence + 10)%Z,
                  matchReason ++ " + similar type ("
                  ++ match sourceType with Some t => t | None => "undefined" end
                  ++ ")")
            else (confidence, matchReason)
          else (confidence, matchReason)
        else (confidence, matchReason)
      else (confidence, matchReason) in
    if (30 <=? confidence)%Z
    then [ mkMatch candidate confidence SIMILAR "🔗 SIMILAR" matchReason None None ]
    else [].

Definition findSimilarProducts (sourceProduct : Product) (candidates : list Product)
  : list MatchResult :=
  let sourceBrand := toLowerCase (orElse (brand sourceProduct) "") in
  let sourceCategory := orElse (toLowerCase (category sourceProduct)) "" in
  let sourceTitle := toLowerCase (title sourceProduct) in
  let sourceColor := firstMatchLower colorRe sourceTitle in
  let sourceShade := firstMatchLower shadeRe sourceTitle in
  let matches :=
    flat_map (similarFor sourceBrand sourceCategory sourceTitle sourceColor sourceShade)
             candidates in
  slice0 15 (sort (fun a b => (confidence b - confidence a)%Z) matches).

End SimilarProducts.

(* ================================================================== *)
(** ** The comparison ([src/utils/product.ts], [startComparison]) *)
(* ================================================================== *)

Module Comparison.
Import JS.

(** The part of [startComparison] that turns the products scraped from the
    competitor sites, [allProducts], into the matches displayed: the
    de-duplication, the weighted scorer, then the legacy matcher if it found
    nothing, then the similar products if that found nothing either, and
    the final de-duplication.  The matchers return the empty list where the
    source catches an exception, so the [catch] of this part is never
    entered. *)
Definition startComparison (product : Product) (allProducts : list Product)
  : list MatchResult :=
  let deduplicatedProducts := Dedup.deduplicateProducts allProducts in
  let allMatches : list MatchResult := [] in
  if (0 <? List.length deduplicatedProducts)%nat then
    let matches := SmartMatcher.findMatches product deduplicatedProducts in
    let allMatches := (allMatches ++ matches)%list in
    let allMatches :=
      if (List.length allMatches =? 0)%nat then
        let fallbackMatches := ProductMatcher.findMatches product deduplicatedProducts in
        let allMatches := (allMatches ++ fallbackMatches)%list in
        if (List.length allMatches =? 0)%nat then
          let similarMatches :=
            SimilarProducts.findSimilarProducts product deduplicatedProducts in
          (allMatches ++ similarMatches)%list
        else allMatches
      else allMatches in
    let deduplicated := Dedup.deduplicateColorVariants allMatches in
    deduplicated
  else allMatches.

End Comparison.

(* ================================================================== *)
(** ** Price validation (the second part of [src/utils/deduplication.ts]) *)
(* ================================================================== *)

Module PriceValidation.
Import JS.

Record PriceValidation : Type := mkValidation {
  isValid : bool;
  isSuspicious : bool;
  reason : option string;
  v_confidence : Q
}.

Record Tolerance : Type := mkTolerance { low : Q; high : Q }.

Definition defaultTolerance : Tolerance := mkTolerance (3 # 10) 2.

Definition percentText (ratio : Q) : string :=
  ProductMatcher.numToString (Math_round (ratio * 100)%Q).

Definition validatePrice (originalPrice comparedPrice : Q) (tolerance : Tolerance)
  : PriceValidation :=
  if Qleb comparedPrice 0 then
    mkValidation false true (Some "Invalid price (zero or negative)") 0
  else if Qleb originalPrice 0 then
    mkValidation true false None (5 # 10)
  else
    let ratio := (comparedPrice / originalPrice)%Q in
    if Qltb ratio (low tolerance) then
      mkValidation true true
        (Some ("Suspiciously cheap (" ++ percentText ratio ++ "% of original price)"))
        (3 # 10)
    else if Qltb (high tolerance) ratio then
      mkValidation true true
        (Some ("Suspiciously expensive (" ++ percentText ratio
               ++ "% of original price)"))
        (4 # 10)
    else
      let deviation := Qabs (ratio - 1)%Q in
      let confidence := Math_max (5 # 10) (1 - deviation)%Q in
      mkValidation true false None confidence.

(** When [originalPrice] is 0 and the price is valid, the quotient is
    [Infinity] in the source and 0 here; neither lies between 0.9 and 1.1. *)
Definition calculatePriceConfidence (originalPrice comparedPrice : Q) : Q :=
  let validation := validatePrice originalPrice comparedPrice defaultTolerance in
  if negb (isValid validation) then 0%Q
  else if isSuspicious validation then v_confidence validation
  else
    let ratio := (comparedPrice / originalPrice)%Q in
    if Qleb (9 # 10) ratio && Qleb ratio (11 # 10)
    then Math_min 1 (v_confidence validation + (2 # 10))%Q
    else v_confidence validation.

End PriceValidation.

(* ================================================================== *)
(** ** The in-memory cache (class [Cache], [unnamed/part_000]) *)
(* ================================================================== *)

Module LruCache.
Import JS.

Section WithData.
Variable T : Type.

Record CacheEntry : Type := mkEntry {
  data : T;
  timestamp : Z;
  ttl : Z
}.

(** The fields of a [Cache] object. *)
Record Cache : Type := mkCache {
  cache : Dedup.JsMap CacheEntry;
  maxSize : Z;
  defaultTTL : Z
}.

(** [new Cache(maxSize, defaultTTL)], the defaults being 100 and one hour. *)
Definition newCache (maxSize defaultTTL : Z) : Cache := mkCache [] maxSize defaultTTL.

(** [map.delete(key)] on the map. *)
Definition mapDelete (m : Dedup.JsMap CacheEntry) (key : string)
  : Dedup.JsMap CacheEntry :=
  filter (fun e => negb (fst e =? key)) m.

Definition withMap (c : Cache) (m : Dedup.JsMap CacheEntry) : Cache :=
  mkCache m (maxSize c) (defaultTTL c).

(** [get(key)] at the time [now] ([Date.now()]): the value or [None] for
    [null], and the cache afterwards. *)
Definition get (now : Z) (c : Cache) (key : string) : option T * Cache :=
  match Dedup.mapGet (cache c) key with
  | None => (None, c)
  | Some entry =>
      if (ttl entry <? now - timestamp entry)%Z
      then (None, withMap c (mapDelete (cache c) key))
      else
        let m := mapDelete (cache c) key in
        let m := Dedup.mapSet m key entry in
        (Some (data entry), withMap c m)
  end.

(** [ttl || this.defaultTTL], [None] being an omitted argument. *)
Definition ttlOr (t : option Z) (dflt : Z) : Z :=
  match t with
  | Some v => if (v =? 0)%Z then dflt else v
  | None => dflt
  end.

(** [set(key, data, ttl)] at the time [now]. *)
Definition set (now : Z) (c : Cache) (key : string) (d : T) (t : option Z) : Cache :=
  let m :=
    if (maxSize c <=? Z.of_nat (List.length (cache c)))%Z then
      match cache c with
      | (firstKey, _) :: _ =>
          if truthy firstKey then mapDelete (cache c) firstKey else cache c
      | [] => cache c
      end
    else cache c in
  withMap c (Dedup.mapSet m key (mkEntry d now (ttlOr t (defaultTTL c)))).

Definition has (now : Z) (c : Cache) (key : string) : bool * Cache :=
  match get now c key with
  | (Some _, c') => (true, c')
  | (None, c') => (false, c')
  end.

Definition clear (c : Cache) : Cache := withMap c [].

Definition size (c : Cache) : nat := List.length (cache c).

(** [delete(key)]: whether the key was there, and the cache afterwards. *)
Definition delete (c : Cache) (key : string) : bool * Cache :=
  (Dedup.mapHas (cache c) key, withMap c (mapDelete (cache c) key)).

End WithData.
End LruCache.

(* ================================================================== *)
(** ** Auxiliary notions used to state and prove the properties *)
(* ================================================================== *)

Module Aux.
Import JS.

(** Every code unit of the string is a 7-bit character. *)
Fixpoint asciiOnly (s : string) : bool :=
  match s with
  | EmptyString => true
  | String c r => isAscii c && asciiOnly r
  end.

(** The recurrence that the table of [levenshteinDistance] obeys:
    [levRec str1 str2 i j] is the content of [matrix[i][j]]. *)
Section LevRec.
Variables str1 str2 : string.

Fixpoint levRec (i : nat) : nat -> nat :=
  match i with
  | O => fun j => j
  | S i' =>
      fix row (j : nat) : nat :=
        match j with
        | O => S i'
        | S j' =>
            if SmartMatcher.sameChar (SmartMatcher.charAt str2 i')
                                     (SmartMatcher.charAt str1 j')
            then levRec i' j'
            else SmartMatcher.min3 (levRec i' j' + 1) (row j' + 1)
                                   (levRec i' (S j') + 1)
        end
  end.

(** Row [i] of the table, filled up to column [j]. *)
Definition rowUpTo (i j : nat) : list nat := map (levRec i) (seq 0 (S j)).

(** The table when the rows below [i] are complete and the others hold
    their first cell only. *)
Definition tableAt (i : nat) : list (list nat) :=
  (map (fun r => rowUpTo r (String.length str1)) (seq 0 i)
   ++ map (fun r => [r]) (seq i (S (String.length str2) - i)))%list.
End LevRec.

(** The features with the storage string removed, and the part of the
    specs sub-score that the storage comparison contributes. *)
Definition noStorage (f : SmartMatcher.Features) : SmartMatcher.Features :=
  SmartMatcher.mkFeatures
    (SmartMatcher.f_brand f) (SmartMatcher.f_model f) ""
    (SmartMatcher.f_ram f) (SmartMatcher.f_color f) (SmartMatcher.f_tokens f)
    (SmartMatcher.f_bigrams f) (SmartMatcher.f_trigrams f)
    (SmartMatcher.f_numbers f) (SmartMatcher.f_keywords f)
    (SmartMatcher.f_titleLower f).

Definition storageShare (source candidate : SmartMatcher.Features) : Q :=
  (SmartMatcher.scoreSpecs source candidate
   - SmartMatcher.scoreSpecs (noStorage source) candidate)%Q.

(** The sum of the six sub-scores of a breakdown. *)
Definition subScoreSum (b : ScoringBreakdown) : Q :=
  (brandScore b + modelScore b + specsScore b + titleScore b
   + categoryScore b + priceScore b)%Q.

(** Grouping by a key: what one turn of the [forEach] loops of the
    de-duplicators does to the map of groups. *)
Section Grouping.
Variable A : Type.
Variable key : A -> string.

Definition pushAt (groups : Dedup.JsMap (list A)) (x : A)
  : Dedup.JsMap (list A) :=
  Dedup.mapSet groups (key x)
               (Dedup.getOr (Dedup.mapGet groups (key x)) [] ++ [x])%list.

Definition groupBy (l : list A) : Dedup.JsMap (list A) :=
  fold_left pushAt l [].

(** De-duplication by [key], [keep] being what is kept of a group. *)
Definition dedupWith (keep : list A -> list A) (l : list A) : list A :=
  flat_map (fun e => keep (snd e)) (groupBy l).

(** A list of blocks, each non-empty and of one key, the keys distinct. *)
Definition blocksOk (blocks : Dedup.JsMap (list A)) : Prop :=
  NoDup (map fst blocks) /\
  Forall (fun e => snd e <> [] /\ Forall (fun x => key x = fst e) (snd e)) blocks.
End Grouping.

(** What the scoring loop pushes for one candidate. *)
Definition scoredFrom (source : Product) (m : MatchResult) : Prop :=
  exists b,
    scoring m = Some b /\
    b = SmartMatcher.calculateScore (SmartMatcher.extractFeatures source)
                       (SmartMatcher.extractFeatures (product m))
                       source (product m) /\
    confidence m = Math_round (total b) /\
    (70 <= total b)%Q.

(** The products used in the examples. *)
Definition phone256 : Product :=
  mkProduct "amazon" "Apple iPhone 15 Pro Max 256GB Blue Titanium" "Rs. 1,39,900"
            139900 "https://a/1" "https://a/1.jpg" "B0CHX1W1XY" "Apple"
            "electronics-phone".

Definition phone256b : Product :=
  mkProduct "flipkart" "Apple iPhone 15 Pro Max (256 GB) - Blue Titanium"
            "Rs. 1,38,999" 138999 "https://f/1" "https://f/1.jpg" "MOBGTAGP"
            "Apple" "electronics-phone".

Definition phone128 : Product :=
  mkProduct "flipkart" "Apple iPhone 15 Pro 128GB - Blue" "Rs. 1,19,900"
            119900 "https://f/2" "https://f/2.jpg" "MOBGTAGQ" "Apple"
            "electronics-phone".

Definition laptop15 : Product :=
  mkProduct "croma" "Apple iPhone 15 Pro Max 256GB Blue Titanium laptop"
            "Rs. 1,39,000" 139000 "https://c/1" "https://c/1.jpg" "C1" "Apple"
            "laptop".

Definition coverSameId : Product :=
  mkProduct "croma" "Silicone back cover, blue" "Rs. 499" 499 "https://c/2"
            "https://c/2.jpg" "B0CHX1W1XY" "Generic" "accessories".

Definition cheapSameId : Product :=
  mkProduct "croma" "Apple iPhone 15 Pro Max 256GB Blue Titanium" "Rs. 9" 9
            "https://c/3" "https://c/3.jpg" "B0CHX1W1XY" "Apple"
            "electronics-phone".

Definition phoneSameId : Product :=
  mkProduct "croma" "Smartphone 15 Pro Max, 256 GB, white" "Rs. 1,41,000" 141000
            "https://c/4" "https://c/4.jpg" "B0CHX1W1XY" "" "mobiles".

Definition noIdSource : Product :=
  mkProduct "amazon" "Apple iPhone 15 Pro Max 256GB Blue Titanium" "Rs. 1,39,900"
            139900 "https://a/1" "https://a/1.jpg" "" "Apple" "electronics-phone".

Definition noIdCandidate : Product :=
  mkProduct "flipkart" "Apple iPhone 15 Pro Max (256 GB) - Blue Titanium"
            "Rs. 1,38,999" 138999 "https://f/1" "https://f/1.jpg" "" "Apple"
            "electronics-phone".

(** The result of Level 1 for a candidate. *)
Definition exactResult (c : Product) : MatchResult :=
  mkMatch c 100 EXACT_ID "🎯 EXACT" "Exact Product ID" None None.

(** The candidates of the legacy matcher that pass the validation. *)
Definition validForLegacy (candidates : list Product) : list Product :=
  filter (fun p => Qleb 10 (numericPrice p) && (5 <=? String.length (title p))%nat)
         candidates.

Definition earbudsBlack : Product :=
  mkProduct "amazon" "boAt Airdopes 141 Bluetooth Earbuds Black" "Rs. 999" 999
            "https://a/2" "https://a/2.jpg" "B09N3XMZ5F" "boAt" "audio".

Definition earbudsWhite : Product :=
  mkProduct "amazon" "boAt Airdopes 141 Bluetooth Earbuds White" "Rs. 1,099" 1099
            "https://a/3" "https://a/3.jpg" "B09N3ZNHTY" "boAt" "audio".

Definition sandal : Product :=
  mkProduct "myntra" "Bata comfort sandal" "Rs. 499" 499 "https://m/1"
            "https://m/1.jpg" "BATA77" "Bata" "footwear".

(** Two listings whose storage figures, 2^53 + 129 and 2^53, lie where the
    doubles are two apart. *)
Definition storageHugeA : Product :=
  mkProduct "amazon" "Acme Vault drive 9007199254741121GB" "Rs. 9,999" 9999
            "https://a/9" "https://a/9.jpg" "B0VAULT001" "Acme" "storage".

Definition storageHugeB : Product :=
  mkProduct "flipkart" "Acme Vault drive 9007199254740992GB" "Rs. 9,899" 9899
            "https://f/9" "https://f/9.jpg" "VAULT002" "Acme" "storage".

End Aux.


(* ================================================================== *)
(** ** Further notions used to state the properties *)
(* ================================================================== *)

Module Views.
Import JS.

(** The size of the intersection and of the union of two token arrays, as
    [calculateTokenOverlap] computes them. *)
Definition interSize (t1 t2 : list string) : nat :=
  List.length (newSet (filter (fun x => arrIncludes (newSet t2) x) (newSet t1))).

Definition unionSize (t1 t2 : list string) : nat :=
  List.length (newSet (newSet t1 ++ newSet t2)).

(** The string in which every character satisfying [p] is replaced by
    [rep], and the string of the characters satisfying [q]. *)
Fixpoint substChars (p : ascii -> bool) (rep : string) (str : string) : string :=
  match str with
  | EmptyString => EmptyString
  | String c r => ((if p c then rep else String c EmptyString)
                   ++ substChars p rep r)%string
  end.

Fixpoint keepChars (q : ascii -> bool) (str : string) : string :=
  match str with
  | EmptyString => EmptyString
  | String c r => if q c then String c (keepChars q r) else keepChars q r
  end.

(** Every character of the string satisfies [q]. *)
Fixpoint allChars (q : ascii -> bool) (str : string) : bool :=
  match str with
  | EmptyString => true
  | String c r => q c && allChars q r
  end.

(** [a-z0-9], the characters that the model comparisons keep. *)
Definition isLowerAlnum (c : ascii) : bool := isLowerAZ c || isDigit c.

(** [[0-9.]], the characters that [parsePrice] keeps. *)
Definition digitOrDot (c : ascii) : bool := isDigit c || Ascii.eqb c ".".

Definition isDot (c : ascii) : bool := Ascii.eqb c ".".

(** Further products for the examples. *)
Definition sandalMen : Product :=
  mkProduct "flipkart" "Bata comfort sandal for men" "Rs. 549" 549 "https://f/7"
            "https://f/7.jpg" "" "Bata" "footwear".

Definition phoneCase : Product :=
  mkProduct "amazon" "Spigen back cover case for iPhone 15" "Rs. 499" 499
            "https://a/9" "" "" "Spigen" "electronics-phone".

Definition shoeRunning : Product :=
  mkProduct "myntra" "Nike Air Max Running Shoe Black" "Rs. 4,999" 4999
            "https://m/2" "" "" "Nike" "Fashion".

Definition shoeBlack : Product :=
  mkProduct "ajio" "Nike Revolution Shoe black" "Rs. 3,999" 3999
            "https://j/1" "" "" "NIKE sports" "fashion".

Definition shoeWhite : Product :=
  mkProduct "ajio" "Nike Revolution Shoe white" "Rs. 3,999" 3999
            "https://j/2" "" "" "Nike" "fashion".

Definition nikeCap : Product :=
  mkProduct "ajio" "Nike cap" "Rs. 399" 399 "https://j/3" "" "" "Nike" "caps".

Definition nikeTee : Product :=
  mkProduct "ajio" "Nike Dri-FIT cotton tee white" "Rs. 999" 999
            "https://j/4" "" "" "Nike" "fashion".

Definition slipper : Product :=
  mkProduct "flipkart" "Comfort slipper for men brown" "Rs. 549" 549
            "https://f/8" "" "" "Paragon" "footwear".

End Views.
(* ================================================================== *)
(** * Properties *)
(* ================================================================== *)

Import JS Aux.

Unset Implicit Arguments.
Open Scope list_scope.

(** ** The embedding on concrete data *)

Example regex_split_and_replace :
  Regex.split ProductUtils.sp "  a  bc d " = [""; "a"; "bc"; "d"; ""]
  /\ Regex.replaceAll SmartMatcher.specialChar " " "a-b (c) d_e!" = "a b  c  d_e "
  /\ Regex.matchAll ProductUtils.dp "iphone15 pro 256" = Some ["15"; "256"]
  /\ Regex.matchAll ProductUtils.dp "iphone" = None.
Proof. repeat split; vm_compute; reflexivity. Qed.

Example extraction_examples :
  map ProductUtils.extractModel
      ["Apple iPhone 15 Pro Max 256GB Blue Titanium"; "Samsung Galaxy S23 Ultra 5G";
       "Acer Nitro V 15 gaming"; "Lenovo LOQ 15 RTX4050"; "Bata comfort sandal"]
  = ["iPhone 15 Pro Max"; "Galaxy S23 Ultra"; "Nitro V 15"; "LOQ 15"; ""]
  /\ map ProductUtils.extractStorage
         ["Apple iPhone 15 Pro Max (256 GB) - Blue"; "SSD 1tb"; "iPhone 15"]
     = ["256GB"; "1TB"; ""]
  /\ map ProductUtils.extractRAM ["Laptop 16 GB RAM 512GB SSD"; "256GB"] = ["16GB"; ""]
  /\ map ProductUtils.extractColor ["iPhone 15 Blue Titanium"; "iPhone 15"] = ["Blue"; ""].
Proof. repeat split; vm_compute; reflexivity. Qed.

Example tokenize_example :
  SmartMatcher.tokenize "Apple iPhone 15 Pro Max (256 GB) - Blue Titanium"
  = ["apple"; "iphone"; "15"; "pro"; "max"; "256"; "gb"; "blue"; "titanium"]
  /\ SmartMatcher.generateNGrams ["a"; "b"; "c"] 2 = ["a b"; "b c"]
  /\ SmartMatcher.generateNGrams ["a"] 2 = [].
Proof. repeat split; vm_compute; reflexivity. Qed.

Example levenshtein_examples :
  SmartMatcher.levenshteinDistance "kitten" "sitting" = 3%nat
  /\ SmartMatcher.levenshteinTable "ab" "xyz"
     = [[0; 1; 2]; [1; 1; 2]; [2; 2; 2]; [3; 3; 3]]%nat.
Proof. repeat split; vm_compute; reflexivity. Qed.

Example normalizeBrand_examples :
  map Brand.normalizeBrand ["apple"; " iPhone "; "boAt"; "mi"; "MAC"; "skullcandy"; ""]
  = ["Apple"; "Apple"; "Boat"; "Xiaomi"; "MAC"; "Skullcandy"; ""].
Proof. vm_compute. reflexivity. Qed.

(** The two candidates of the scenarios of the specification. *)
Example scorer_on_scenarios :
  map (fun m => (title (product m), confidence m, matchLevel m))
      (SmartMatcher.findMatches phone256 [phone128; sandal; phone256b])
  = [("Apple iPhone 15 Pro Max (256 GB) - Blue Titanium", 91%Z, EXACT);
     ("Apple iPhone 15 Pro 128GB - Blue", 78%Z, MEDIUM)].
Proof. vm_compute. reflexivity. Qed.

Example legacy_on_scenarios :
  map (fun m => (title (product m), confidence m, matchLevel m))
      (ProductMatcher.findMatches phone256 [phone128; sandal; phone256b])
  = [("Apple iPhone 15 Pro Max (256 GB) - Blue Titanium", 95%Z, EXACT);
     ("Apple iPhone 15 Pro Max (256 GB) - Blue Titanium", 91%Z, MEDIUM);
     ("Apple iPhone 15 Pro 128GB - Blue", 87%Z, MEDIUM);
     ("Apple iPhone 15 Pro 128GB - Blue", 80%Z, HIGH)].
Proof. vm_compute. reflexivity. Qed.

(** ** Numbers *)

Section Numbers.
Open Scope Q_scope.

Lemma Qleb_true (a b : Q) : Qleb a b = true <-> a <= b.
Proof. unfold Qleb. apply Qle_bool_iff. Qed.

Lemma Qleb_false (a b : Q) : Qleb a b = false -> b < a.
Proof.
  intro H. apply Qnot_le_lt. intro L.
  apply Qleb_true in L. congruence.
Qed.

Lemma Qltb_true (a b : Q) : Qltb a b = true -> a < b.
Proof.
  unfold Qltb. intro H. apply Qleb_false.
  unfold Qleb. now destruct (Qle_bool b a).
Qed.

Lemma Math_min_le_l (a b : Q) : Math_min a b <= a.
Proof.
  unfold Math_min. destruct (Qleb a b) eqn:E.
  - apply Qle_refl.
  - apply Qlt_le_weak, Qleb_false, E.
Qed.

Lemma Math_min_glb (a b c : Q) : c <= a -> c <= b -> c <= Math_min a b.
Proof. unfold Math_min. now destruct (Qleb a b). Qed.

Lemma ofNat_nonneg (n : nat) : 0 <= SmartMatcher.ofNat n.
Proof.
  unfold SmartMatcher.ofNat, Qle. simpl. lia.
Qed.

Lemma ratio_nonneg (a b : nat) : 0 <= SmartMatcher.ofNat a / SmartMatcher.ofNat b.
Proof.
  unfold Qdiv. apply Qmult_le_0_compat.
  - apply ofNat_nonneg.
  - apply Qinv_le_0_compat, ofNat_nonneg.
Qed.
End Numbers.

(** ** The sub-scores and the total (claim C1) *)

Section Scores.
Import SmartMatcher.
Open Scope Q_scope.

Lemma calculateTokenOverlap_nonneg (t1 t2 : list string) :
  0 <= calculateTokenOverlap t1 t2.
Proof.
  unfold calculateTokenOverlap.
  destruct (_ || _)%bool; [apply Qle_refl | apply ratio_nonneg].
Qed.

Lemma scoreBrand_nonneg (b1 b2 : string) : 0 <= scoreBrand b1 b2.
Proof.
  unfold scoreBrand.
  repeat match goal with |- context [if ?c then _ else _] => destruct c end;
    vm_compute; discriminate.
Qed.

Lemma scoreModel_nonneg (m1 m2 : string) (t1 t2 : list string) :
  0 <= scoreModel m1 m2 t1 t2.
Proof.
  unfold scoreModel.
  destruct (_ || _)%bool.
  - apply Qmult_le_0_compat; [apply calculateTokenOverlap_nonneg | discriminate].
  - destruct (_ =? _)%string; [discriminate |].
    destruct (_ || _)%bool; [discriminate |].
    destruct (Qltb _ _) eqn:E; [| apply Qle_refl].
    apply Qltb_true in E.
    apply Qmult_le_0_compat; [discriminate |].
    apply Qlt_le_weak. eapply Qle_lt_trans; [| exact E]. discriminate.
Qed.

Lemma scoreSpecs_nonneg (s c : Features) : 0 <= scoreSpecs s c.
Proof.
  unfold scoreSpecs.
  repeat match goal with |- context [if ?c then _ else _] => destruct c end;
    vm_compute; discriminate.
Qed.

Lemma scoreTitleSimilarity_nonneg (t1 t2 b1 b2 : list string) :
  0 <= scoreTitleSimilarity t1 t2 b1 b2.
Proof.
  unfold scoreTitleSimilarity.
  apply Qmult_le_0_compat; [| discriminate].
  setoid_replace 0 with (0 + 0) by reflexivity.
  apply Qplus_le_compat;
    (apply Qmult_le_0_compat; [apply calculateTokenOverlap_nonneg | discriminate]).
Qed.

Lemma scoreCategory_nonneg (c1 c2 : string) : 0 <= scoreCategory c1 c2.
Proof.
  unfold scoreCategory.
  repeat match goal with |- context [if ?c then _ else _] => destruct c end;
    vm_compute; discriminate.
Qed.

Lemma scorePriceProximity_range (p1 p2 : Q) :
  -2 <= scorePriceProximity p1 p2 <= 5.
Proof.
  unfold scorePriceProximity.
  repeat match goal with |- context [if ?c then _ else _] => destruct c end;
    split; vm_compute; discriminate.
Qed.

Lemma sum_from_penalty (a b c d e f : Q) :
  0 <= a -> 0 <= b -> 0 <= c -> 0 <= d -> 0 <= e -> -2 <= f ->
  -2 <= a + b + c + d + e + f.
Proof.
  intros Ha Hb Hc Hd He Hf.
  setoid_replace (-2) with (0 + 0 + 0 + 0 + 0 + -2) by reflexivity.
  repeat apply Qplus_le_compat; assumption.
Qed.

Lemma sum_nonneg (a b c d e f : Q) :
  0 <= a -> 0 <= b -> 0 <= c -> 0 <= d -> 0 <= e -> 0 <= f ->
  0 <= a + b + c + d + e + f.
Proof.
  intros Ha Hb Hc Hd He Hf.
  setoid_replace 0 with (0 + 0 + 0 + 0 + 0 + 0) by reflexivity.
  repeat apply Qplus_le_compat; assumption.
Qed.
End Scores.

(** ** Sorting and truncation *)

Section SortFacts.
Context {A : Type}.
Variable f : A -> Z.

(** The comparator [(a, b) => f(b) - f(a)] of both matchers. *)
Let cmp (a b : A) : Z := (f b - f a)%Z.
Let desc (a b : A) : Prop := (f b <= f a)%Z.

Lemma insert_In (x y : A) (l : list A) :
  In y (insert cmp x l) <-> y = x \/ In y l.
Proof.
  induction l as [|z r IH]; simpl.
  - intuition.
  - destruct (cmp x z <=? 0)%Z; simpl; [intuition | rewrite IH; intuition].
Qed.

Lemma sort_In (y : A) (l : list A) : In y (sort cmp l) <-> In y l.
Proof.
  induction l as [|x r IH]; simpl; [tauto |].
  rewrite insert_In, IH. intuition.
Qed.

Lemma sort_Forall (P : A -> Prop) (l : list A) :
  Forall P l -> Forall P (sort cmp l).
Proof.
  rewrite !Forall_forall. intros H y Hy. apply H, sort_In, Hy.
Qed.

Lemma insert_length (x : A) (l : list A) :
  List.length (insert cmp x l) = S (List.length l).
Proof.
  induction l as [|z r IH]; simpl; [reflexivity |].
  destruct (cmp x z <=? 0)%Z; simpl; congruence.
Qed.

Lemma sort_length (l : list A) : List.length (sort cmp l) = List.length l.
Proof.
  induction l as [|x r IH]; simpl; [reflexivity |].
  now rewrite insert_length, IH.
Qed.

Lemma insert_sorted (x : A) (l : list A) :
  StronglySorted desc l -> StronglySorted desc (insert cmp x l).
Proof.
  induction 1 as [|z r Hs IH Hz]; simpl.
  - constructor; constructor.
  - destruct (cmp x z <=? 0)%Z eqn:E.
    + apply Z.leb_le in E. unfold cmp in E.
      constructor; [constructor; assumption |].
      constructor; [unfold desc; lia |].
      eapply Forall_impl; [| exact Hz]. unfold desc. intros; lia.
    + apply Z.leb_gt in E. unfold cmp in E.
      constructor; [exact IH |].
      apply Forall_forall. intros y Hy. apply insert_In in Hy.
      destruct Hy as [-> | Hy]; [unfold desc; lia |].
      rewrite Forall_forall in Hz. now apply Hz.
Qed.

Lemma sort_sorted (l : list A) : StronglySorted desc (sort cmp l).
Proof.
  induction l as [|x r IH]; simpl; [constructor | now apply insert_sorted].
Qed.

(** Elements that compare equal keep their order: a list whose keys are
    all equal is left as it is. *)
Lemma sort_constant (k : Z) (l : list A) :
  Forall (fun x => f x = k) l -> sort cmp l = l.
Proof.
  induction 1 as [|x r Hx Hr IH]; simpl; [reflexivity |].
  rewrite IH. destruct Hr as [|y r' Hy Hr']; simpl; [reflexivity |].
  unfold cmp. rewrite Hx, Hy, Z.sub_diag. reflexivity.
Qed.

End SortFacts.

Lemma firstn_incl {A : Type} (n : nat) (l : list A) (y : A) :
  In y (firstn n l) -> In y l.
Proof.
  revert n. induction l as [|z r IH]; intros [|n]; simpl; try tauto.
  intros [-> | H]; [now left | right; eauto].
Qed.

Lemma firstn_sorted {A : Type} (R : A -> A -> Prop) (n : nat) (l : list A) :
  StronglySorted R l -> StronglySorted R (firstn n l).
Proof.
  intro H. revert n. induction H as [|x r Hs IH Hx]; intro n.
  - rewrite firstn_nil. constructor.
  - destruct n as [|n]; simpl; constructor; [apply IH |].
    apply Forall_forall. intros y Hy.
    rewrite Forall_forall in Hx. eapply Hx, firstn_incl, Hy.
Qed.

(** ** The result of the weighted scorer (claims C1, C2, C3) *)

Lemma pushIfConfident_spec (c : Product) (cf : SmartMatcher.Features)
      (b : ScoringBreakdown) (m : MatchResult) :
  In m (SmartMatcher.pushIfConfident c cf b) ->
  product m = c /\ scoring m = Some b /\ confidence m = Math_round (total b)
  /\ (70 <= total b)%Q.
Proof.
  unfold SmartMatcher.pushIfConfident, SmartMatcher.MIN_CONFIDENCE.
  destruct (Qleb 70 (total b)) eqn:E; [| intros []].
  intros [<- | []]. apply Qleb_true in E.
  exact (conj eq_refl (conj eq_refl (conj eq_refl E))).
Qed.

Lemma scoreCandidate_unfold (sf : SmartMatcher.Features) (source c : Product) :
  SmartMatcher.scoreCandidate sf source c =
  SmartMatcher.pushIfConfident c (SmartMatcher.extractFeatures c)
    (SmartMatcher.calculateScore sf (SmartMatcher.extractFeatures c) source c).
Proof. reflexivity. Qed.

Lemma scoreCandidate_spec (source c : Product) (m : MatchResult) :
  In m (SmartMatcher.scoreCandidate (SmartMatcher.extractFeatures source) source c) ->
  product m = c /\ scoredFrom source m.
Proof.
  rewrite scoreCandidate_unfold.
  intro H. apply pushIfConfident_spec in H.
  destruct H as (Hp & Hs & Hc & Ht). split; [exact Hp |].
  eexists. rewrite Hp. exact (conj Hs (conj eq_refl (conj Hc Ht))).
Qed.

(** Every result stems from a candidate that passed the validation and the
    category filter, and carries its score. *)
Lemma findMatches_origin (source : Product) (candidates : list Product)
      (m : MatchResult) :
  In m (SmartMatcher.findMatches source candidates) ->
  In (product m)
     (SmartMatcher.filterByCategory source (SmartMatcher.detectCategory source)
                       (SmartMatcher.preprocessCandidates candidates))
  /\ scoredFrom source m.
Proof.
  unfold SmartMatcher.findMatches. cbv zeta.
  destruct (List.length _ =? 0)%nat; [intros [] |].
  intro H. apply firstn_incl, sort_In, in_flat_map in H.
  destruct H as (c & Hc & Hm).
  apply scoreCandidate_spec in Hm. destruct Hm as [<- Hs]. tauto.
Qed.

Lemma filterByCategory_spec (source : Product) (sc : string)
      (candidates : list Product) (c : Product) :
  In c (SmartMatcher.filterByCategory source sc candidates) ->
  In c candidates /\
  (sc = "accessory" -> SmartMatcher.detectCategory c = "accessory") /\
  (sc <> "accessory" ->
     SmartMatcher.detectCategory c <> "accessory" /\
     (sc = "unknown" \/ SmartMatcher.detectCategory c = "unknown"
      \/ sc = SmartMatcher.detectCategory c)).
Proof.
  unfold SmartMatcher.filterByCategory.
  destruct (String.eqb_spec sc "accessory") as [-> | Hacc]; intro H;
    apply filter_In in H; destruct H as [Hin H]; (split; [exact Hin |]).
  - apply String.eqb_eq in H. split; [tauto | congruence].
  - split; [congruence |]. intros _.
    destruct (String.eqb_spec (SmartMatcher.detectCategory c) "accessory");
      [discriminate |].
    split; [assumption |].
    destruct (String.eqb_spec sc "unknown"); [tauto |].
    destruct (String.eqb_spec (SmartMatcher.detectCategory c) "unknown"); [tauto |].
    apply String.eqb_eq in H. tauto.
Qed.

(** C1 (as stated, refuted).  The claim bounds the total of every breakdown
    below by 0.  For the iPhone as source and a sandal at a far lower price
    as candidate, both prices being non-negative, every sub-score is 0 but
    the price sub-score, which is the penalty -2: the total is -2.  The
    sandal is a valid candidate of unknown category, so [findMatches] does
    score this pair. *)
Lemma C1_negative_total_counterexample :
  (0 <= numericPrice phone256)%Q /\ (0 <= numericPrice sandal)%Q /\
  SmartMatcher.filterByCategory phone256 (SmartMatcher.detectCategory phone256)
    (SmartMatcher.preprocessCandidates [sandal]) = [sandal] /\
  (total (SmartMatcher.calculateScore
            (SmartMatcher.extractFeatures phone256)
            (SmartMatcher.extractFeatures sandal) phone256 sandal) == -2)%Q /\
  ~ (0 <= total (SmartMatcher.calculateScore
                   (SmartMatcher.extractFeatures phone256)
                   (SmartMatcher.extractFeatures sandal) phone256 sandal))%Q.
Proof.
  split; [vm_compute; discriminate |].
  split; [vm_compute; discriminate |].
  split; [vm_compute; reflexivity |].
  split; [vm_compute; reflexivity |].
  intro H. vm_compute in H. apply H. reflexivity.
Qed.

(** C1 (amended).  For all features and products, the total of the breakdown
    computed by [calculateScore] is [min(100, sum of the six sub-scores)]; it
    lies between -2 and 100, and it is non-negative whenever the price
    sub-score is. *)
Theorem C1_total_is_capped_sum_in_range
        (source candidate : SmartMatcher.Features) (sp cp : Product) :
  total (SmartMatcher.calculateScore source candidate sp cp)
  = Math_min 100 (subScoreSum (SmartMatcher.calculateScore source candidate sp cp))
  /\ (-2 <= total (SmartMatcher.calculateScore source candidate sp cp) <= 100)%Q
  /\ ((0 <= priceScore (SmartMatcher.calculateScore source candidate sp cp))%Q ->
      (0 <= total (SmartMatcher.calculateScore source candidate sp cp))%Q).
Proof.
  unfold SmartMatcher.calculateScore, subScoreSum; simpl.
  split; [reflexivity |].
  pose proof (scoreBrand_nonneg (SmartMatcher.f_brand source)
                                (SmartMatcher.f_brand candidate)).
  pose proof (scoreModel_nonneg (SmartMatcher.f_model source)
                (SmartMatcher.f_model candidate) (SmartMatcher.f_tokens source)
                (SmartMatcher.f_tokens candidate)).
  pose proof (scoreSpecs_nonneg source candidate).
  pose proof (scoreTitleSimilarity_nonneg (SmartMatcher.f_tokens source)
                (SmartMatcher.f_tokens candidate) (SmartMatcher.f_bigrams source)
                (SmartMatcher.f_bigrams candidate)).
  pose proof (scoreCategory_nonneg (category sp) (category cp)).
  pose proof (scorePriceProximity_range (numericPrice sp) (numericPrice cp))
    as [Hlo _].
  repeat split.
  - apply Math_min_glb; [discriminate | now apply sum_from_penalty].
  - apply Math_min_le_l.
  - intro Hp. apply Math_min_glb; [discriminate | now apply sum_nonneg].
Qed.

(** C2.  No result of the weighted scorer pairs a phone source with a laptop
    candidate, nor a laptop source with a phone candidate: for every result
    [m] of [findMatches], the detected categories of the source and of [m]
    are not (phone, laptop) and not (laptop, phone). *)
Theorem C2_no_phone_laptop_cross_match
        (source : Product) (candidates : list Product) (m : MatchResult) :
  In m (SmartMatcher.findMatches source candidates) ->
  ~ (SmartMatcher.detectCategory source = "phone"
     /\ SmartMatcher.detectCategory (product m) = "laptop")
  /\ ~ (SmartMatcher.detectCategory source = "laptop"
        /\ SmartMatcher.detectCategory (product m) = "phone").
Proof.
  intro H. apply findMatches_origin in H. destruct H as [H _].
  apply filterByCategory_spec in H. destruct H as (_ & _ & H).
  split; intros [Hs Hc]; rewrite Hs, Hc in H;
    (destruct H as [_ [H | [H | H]]]; [discriminate | discriminate ..]).
Qed.

(** A phone source with a phone and a laptop among the candidates: the phone
    is returned and is not a laptop. *)
Lemma C2_witness :
  SmartMatcher.detectCategory phone256 = "phone" /\
  SmartMatcher.detectCategory laptop15 = "laptop" /\
  map product (SmartMatcher.findMatches phone256 [laptop15; phone256b]) = [phone256b] /\
  ~ (SmartMatcher.detectCategory phone256 = "phone"
     /\ SmartMatcher.detectCategory phone256b = "laptop").
Proof.
  split; [vm_compute; reflexivity |].
  split; [vm_compute; reflexivity |].
  split; [vm_compute; reflexivity |].
  refine (proj1 (C2_no_phone_laptop_cross_match phone256 [laptop15; phone256b]
            (hd (mkMatch phone256b 0 LOW "" "" None None)
                (SmartMatcher.findMatches phone256 [laptop15; phone256b])) _)).
  vm_compute. left. reflexivity.
Defined.

(** C3.  The list returned by [findMatches] of the weighted scorer has at
    most 8 elements, is in order of non-increasing confidence, and the
    confidence of every element is the rounded total of the breakdown of
    that element against the source, a total of at least 70. *)
Theorem C3_findMatches_limited_sorted_thresholded
        (source : Product) (candidates : list Product) :
  (List.length (SmartMatcher.findMatches source candidates) <= 8)%nat
  /\ StronglySorted (fun a b => (confidence b <= confidence a)%Z)
                    (SmartMatcher.findMatches source candidates)
  /\ Forall (scoredFrom source) (SmartMatcher.findMatches source candidates).
Proof.
  split; [| split].
  - unfold SmartMatcher.findMatches. cbv zeta.
    destruct (List.length _ =? 0)%nat; [simpl; lia |].
    unfold slice0. rewrite length_firstn. unfold SmartMatcher.MAX_RESULTS. lia.
  - unfold SmartMatcher.findMatches. cbv zeta.
    destruct (List.length _ =? 0)%nat; [constructor |].
    apply firstn_sorted, sort_sorted.
  - apply Forall_forall. intros m Hm.
    now apply findMatches_origin in Hm.
Qed.

(** ** Brand canonicalisation (claim C7) *)

Section BrandFacts.
Import Brand.

Lemma lowerChar_idem (c : ascii) : lowerChar (lowerChar c) = lowerChar c.
Proof. destruct c as [[] [] [] [] [] [] [] []]; vm_compute; reflexivity. Qed.

Lemma toLowerCase_idem (s : string) : toLowerCase (toLowerCase s) = toLowerCase s.
Proof.
  induction s as [|c r IH]; simpl; [reflexivity |].
  now rewrite lowerChar_idem, IH.
Qed.

(** On a 7-bit character, [toUpperCase] gives one character, which has the
    same lower-case form and is its own upper-case form. *)
Lemma upperChar_ascii_shape (c : ascii) :
  isAscii c = true ->
  match upperChar c with
  | String u EmptyString =>
      lowerChar u = lowerChar c /\ upperChar u = String u ""
  | _ => False
  end.
Proof.
  destruct c as [[] [] [] [] [] [] [] []]; intro H;
    try discriminate H; vm_compute; split; reflexivity.
Qed.

Lemma upperChar_ascii (c : ascii) :
  isAscii c = true ->
  exists u, upperChar c = String u "" /\ lowerChar u = lowerChar c
            /\ upperChar u = String u "".
Proof.
  intro H. apply upperChar_ascii_shape in H.
  destruct (upperChar c) as [|u [|? ?]]; try contradiction.
  exists u. tauto.
Qed.

(** Every canonical name of the table is returned as it is. *)
Lemma canonical_fixed_check :
  forallb (fun e => normalizeBrand (fst e) =? fst e) BRAND_ALIASES = true.
Proof. vm_compute. reflexivity. Qed.

Lemma canonical_fixed :
  Forall (fun e => normalizeBrand (fst e) = fst e) BRAND_ALIASES.
Proof.
  apply Forall_forall. intros e He.
  pose proof canonical_fixed_check as H.
  rewrite forallb_forall in H. apply String.eqb_eq, H, He.
Qed.

Lemma canonicalFor_fixed (n c : string) :
  canonicalFor n = Some c -> normalizeBrand c = c.
Proof.
  unfold canonicalFor.
  destruct (find _ BRAND_ALIASES) as [e|] eqn:F; [| discriminate].
  intros [= <-]. apply find_some in F. destruct F as [F _].
  pose proof canonical_fixed as H. rewrite Forall_forall in H. now apply H.
Qed.

Lemma aliasFor_fixed (n c : string) :
  aliasFor n = Some c -> normalizeBrand c = c.
Proof.
  unfold aliasFor.
  destruct (find _ BRAND_ALIASES) as [e|] eqn:F; [| discriminate].
  intros [= <-]. apply find_some in F. destruct F as [F _].
  pose proof canonical_fixed as H. rewrite Forall_forall in H. now apply H.
Qed.

(** The last branch of [normalizeBrand], when the first character is 7-bit. *)
Lemma capitalised_fixed (c : ascii) (rest : string) :
  isAscii c = true ->
  canonicalFor (trim (toLowerCase (String c rest))) = None ->
  aliasFor (trim (toLowerCase (String c rest))) = None ->
  normalizeBrand (toUpperCase (charAt0 (String c rest))
                  ++ toLowerCase (slice1 (String c rest)))%string
  = (toUpperCase (charAt0 (String c rest))
     ++ toLowerCase (slice1 (String c rest)))%string.
Proof.
  intros Hc Hcan Hal.
  destruct (upperChar_ascii c Hc) as (u & Hu & Hlow & Hup).
  cbn [charAt0 slice1 toUpperCase]. rewrite Hu. cbn [String.append].
  unfold normalizeBrand. cbn [truthy negb].
  cbn [toLowerCase]. rewrite Hlow, toLowerCase_idem.
  cbn [toLowerCase] in Hcan, Hal. rewrite Hcan, Hal.
  cbn [charAt0 slice1 toUpperCase]. rewrite Hup. cbn [String.append].
  now rewrite toLowerCase_idem.
Qed.

Lemma normalizeBrand_idem_ascii (x : string) :
  asciiOnly x = true -> normalizeBrand (normalizeBrand x) = normalizeBrand x.
Proof.
  intro Hx. destruct x as [|c rest]; [reflexivity |].
  cbn [asciiOnly] in Hx. apply andb_prop in Hx. destruct Hx as [Hc _].
  unfold normalizeBrand at 2 3. cbn [truthy negb].
  destruct (canonicalFor _) as [k|] eqn:Hcan; [now apply canonicalFor_fixed in Hcan |].
  destruct (aliasFor _) as [k|] eqn:Hal; [now apply aliasFor_fixed in Hal |].
  now apply capitalised_fixed.
Qed.
End BrandFacts.


Section BrandFirstCharacter.
Import Brand.












End BrandFirstCharacter.



(** ** The edit distance and the similarity ratio (claim C9) *)

Section AssignFacts.
Context {A : Type}.

Lemma assign_end (l : list A) (v : A) (k : nat) :
  List.length l = k -> SmartMatcher.assign l k v = l ++ [v].
Proof.
  intros <-. unfold SmartMatcher.assign.
  rewrite firstn_all, skipn_all2 by lia. reflexivity.
Qed.

Lemma assign_mid (a b : list A) (x v : A) (k : nat) :
  List.length a = k -> SmartMatcher.assign (a ++ x :: b) k v = a ++ v :: b.
Proof.
  intros <-. unfold SmartMatcher.assign.
  rewrite firstn_app, firstn_all, Nat.sub_diag, firstn_O, app_nil_r.
  rewrite skipn_app, skipn_all2 by lia.
  replace (S (List.length a) - List.length a)%nat with 1%nat by lia.
  reflexivity.
Qed.

Lemma nth_mid (a b : list A) (x d : A) (k : nat) :
  List.length a = k -> nth k (a ++ x :: b) d = x.
Proof. intros <-. rewrite app_nth2, Nat.sub_diag by lia. reflexivity. Qed.
End AssignFacts.

Section LevFacts.
Variables str1 str2 : string.

Let n := String.length str1.
Let m := String.length str2.
Let T := levRec str1 str2.
Let full (r : nat) : list nat := rowUpTo str1 str2 r n.
Let single (r : nat) : list nat := [r].

Lemma levRec_col0 (i : nat) : T i 0 = i.
Proof. destruct i; reflexivity. Qed.

Lemma levRec_step (i j : nat) :
  T (S i) (S j) =
  if SmartMatcher.sameChar (SmartMatcher.charAt str2 i) (SmartMatcher.charAt str1 j)
  then T i j
  else SmartMatcher.min3 (T i j + 1) (T (S i) j + 1) (T i (S j) + 1).
Proof. reflexivity. Qed.

Lemma rowUpTo_length (i j : nat) : List.length (rowUpTo str1 str2 i j) = S j.
Proof. unfold rowUpTo. now rewrite length_map, length_seq. Qed.

Lemma rowUpTo_nth (i j k : nat) :
  (k <= j)%nat -> nth k (rowUpTo str1 str2 i j) 0%nat = T i k.
Proof.
  intro H. unfold rowUpTo.
  rewrite (nth_indep _ 0%nat (levRec str1 str2 i 0)) by (rewrite length_map, length_seq; lia).
  rewrite map_nth, seq_nth by lia. reflexivity.
Qed.

Lemma rowUpTo_S (i j : nat) :
  rowUpTo str1 str2 i (S j) = (rowUpTo str1 str2 i j ++ [T i (S j)])%list.
Proof.
  unfold rowUpTo. rewrite (seq_S (S j)), map_app. reflexivity.
Qed.

(** One turn of the inner loop writes the next cell of the current row. *)
Lemma levStep_cell (done todo : list (list nat)) (i j : nat) :
  List.length done = S i ->
  nth i done [] = full i ->
  (j < n)%nat ->
  SmartMatcher.levStep str1 str2 (S i)
    (done ++ rowUpTo str1 str2 (S i) j :: todo) (S j)
  = (done ++ rowUpTo str1 str2 (S i) (S j) :: todo)%list.
Proof.
  intros Hlen Hprev Hj.
  assert (Hdiag : SmartMatcher.cell (done ++ rowUpTo str1 str2 (S i) j :: todo) i j
                  = T i j).
  { unfold SmartMatcher.cell. rewrite app_nth1 by lia. rewrite Hprev.
    apply rowUpTo_nth. lia. }
  assert (Hup : SmartMatcher.cell (done ++ rowUpTo str1 str2 (S i) j :: todo) i (S j)
                = T i (S j)).
  { unfold SmartMatcher.cell. rewrite app_nth1 by lia. rewrite Hprev.
    apply rowUpTo_nth. lia. }
  assert (Hleft : SmartMatcher.cell (done ++ rowUpTo str1 str2 (S i) j :: todo) (S i) j
                  = T (S i) j).
  { unfold SmartMatcher.cell. rewrite nth_mid by assumption.
    apply rowUpTo_nth. lia. }
  assert (Hset : forall v,
             SmartMatcher.setCell (done ++ rowUpTo str1 str2 (S i) j :: todo) (S i) (S j) v
             = (done ++ (rowUpTo str1 str2 (S i) j ++ [v]) :: todo)%list).
  { intro v. unfold SmartMatcher.setCell.
    rewrite nth_mid by assumption.
    rewrite (assign_end _ _ (S j)) by apply rowUpTo_length.
    now apply assign_mid. }
  unfold SmartMatcher.levStep.
  replace (S i - 1)%nat with i by lia. replace (S j - 1)%nat with j by lia.
  rewrite Hdiag, Hup, Hleft, !Hset, rowUpTo_S, levRec_step.
  destruct (SmartMatcher.sameChar _ _); reflexivity.
Qed.

(** The inner loop completes the current row. *)
Lemma inner_loop (done todo : list (list nat)) (i k j : nat) :
  List.length done = S i ->
  nth i done [] = full i ->
  (j + k <= n)%nat ->
  fold_left (SmartMatcher.levStep str1 str2 (S i)) (seq (S j) k)
            (done ++ rowUpTo str1 str2 (S i) j :: todo)
  = (done ++ rowUpTo str1 str2 (S i) (j + k) :: todo)%list.
Proof.
  intros Hlen Hprev. revert j.
  induction k as [|k IH]; intros j Hk; simpl.
  - now rewrite Nat.add_0_r.
  - rewrite levStep_cell by (assumption || lia).
    rewrite IH by lia. now rewrite Nat.add_succ_r.
Qed.

Let tableAt := Aux.tableAt str1 str2.

Local Ltac open_table :=
  unfold tableAt, Aux.tableAt;
  change (fun r : nat => rowUpTo str1 str2 r (String.length str1)) with full;
  change (fun r : nat => [r]) with single;
  fold n m.

Lemma outer_step (i : nat) :
  (i < m)%nat ->
  fold_left (SmartMatcher.levStep str1 str2 (S i)) (seq 1 n) (tableAt (S i))
  = tableAt (S (S i)).
Proof.
  intro Hi. open_table.
  replace (S m - S i)%nat with (S (m - S i)) by lia.
  change (seq (S i) (S (m - S i))) with (S i :: seq (S (S i)) (m - S i)).
  rewrite map_cons.
  change (single (S i)) with (rowUpTo str1 str2 (S i) 0).
  rewrite inner_loop.
  - rewrite (seq_S (S i) 0), map_app, <- app_assoc.
    replace (S m - S (S i))%nat with (m - S i)%nat by lia. reflexivity.
  - now rewrite length_map, length_seq.
  - rewrite (nth_indep _ [] (full 0)) by (rewrite length_map, length_seq; lia).
    rewrite map_nth, seq_nth by lia. reflexivity.
  - lia.
Qed.

Lemma outer_loop (k i : nat) :
  (i + k <= m)%nat ->
  fold_left
    (fun mx r => fold_left (SmartMatcher.levStep str1 str2 r) (seq 1 n) mx)
    (seq (S i) k) (tableAt (S i))
  = tableAt (S (i + k)).
Proof.
  revert i. induction k as [|k IH]; intros i Hk; simpl.
  - now rewrite Nat.add_0_r.
  - rewrite outer_step by lia. rewrite IH by lia. now rewrite Nat.add_succ_r.
Qed.

(** The first loop: [matrix[i] = [i]]. *)
Lemma init_rows (k a : nat) :
  fold_left (fun mx i => SmartMatcher.assign mx i [i]) (seq a k) (map single (seq 0 a))
  = map single (seq 0 (a + k)).
Proof.
  revert a. induction k as [|k IH]; intro a; simpl.
  - now rewrite Nat.add_0_r.
  - rewrite assign_end by now rewrite length_map, length_seq.
    replace (map single (seq 0 a) ++ [[a]]) with (map single (seq 0 (S a)))
      by (rewrite seq_S, map_app; reflexivity).
    rewrite IH. now rewrite Nat.add_succ_r.
Qed.

(** The second loop: [matrix[0][j] = j]. *)
Lemma init_row0 (rest : list (list nat)) (k a : nat) :
  fold_left (fun mx j => SmartMatcher.setCell mx 0 j j) (seq a k) (seq 0 a :: rest)
  = seq 0 (a + k) :: rest.
Proof.
  revert a. induction k as [|k IH]; intro a; simpl.
  - now rewrite Nat.add_0_r.
  - unfold SmartMatcher.setCell at 2. cbn [nth].
    rewrite (assign_end (seq 0 a)) by apply length_seq.
    replace (seq 0 a ++ [a]) with (seq 0 (S a)) by (rewrite seq_S; reflexivity).
    unfold SmartMatcher.assign. cbn [firstn skipn app].
    rewrite IH. now rewrite Nat.add_succ_r.
Qed.

Lemma levRec_row0 : full 0 = seq 0 (S n).
Proof.
  unfold full, rowUpTo. cbn [levRec]. apply map_id.
Qed.

Lemma levenshteinTable_is :
  SmartMatcher.levenshteinTable str1 str2 = tableAt (S m).
Proof.
  unfold SmartMatcher.levenshteinTable. cbv zeta. fold n m.
  change (@nil (list nat)) with (map single (seq 0 0)) at 1.
  rewrite init_rows. cbn [Nat.add].
  (* row 0 *)
  cbn [seq map fold_left].
  assert (H0 : SmartMatcher.setCell (single 0 :: map single (seq 1 m)) 0 0 0
               = seq 0 1 :: map single (seq 1 m)) by reflexivity.
  rewrite H0, init_row0.
  replace (seq 0 (1 + n) :: map single (seq 1 m)) with (tableAt 1).
  - rewrite (outer_loop m 0) by lia. reflexivity.
  - open_table. cbn [seq map app]. rewrite levRec_row0.
    replace (S m - 1)%nat with m by lia. reflexivity.
Qed.

(** The distance returned is the last cell given by the recurrence. *)
Lemma levenshteinDistance_rec :
  SmartMatcher.levenshteinDistance str1 str2 = T m n.
Proof.
  unfold SmartMatcher.levenshteinDistance. rewrite levenshteinTable_is.
  open_table. unfold SmartMatcher.cell. fold n m.
  rewrite Nat.sub_diag.
  change (map single (seq (S m) 0)) with (@nil (list nat)). rewrite app_nil_r.
  rewrite (nth_indep _ [] (full 0)) by (rewrite length_map, length_seq; lia).
  rewrite map_nth, seq_nth by lia.
  apply rowUpTo_nth. lia.

Qed.
End LevFacts.

Lemma sameChar_refl (a : option ascii) : SmartMatcher.sameChar a a = true.
Proof. destruct a as [c|]; simpl; [apply Ascii.eqb_refl | reflexivity]. Qed.

Lemma levRec_diag (s : string) (i : nat) : levRec s s i i = 0%nat.
Proof.
  induction i as [|i IH]; [reflexivity |].
  rewrite levRec_step, sameChar_refl. exact IH.
Qed.

Lemma levenshtein_same (s : string) : SmartMatcher.levenshteinDistance s s = 0%nat.
Proof. rewrite levenshteinDistance_rec. apply levRec_diag. Qed.

Lemma levenshtein_empty_l (s : string) :
  SmartMatcher.levenshteinDistance "" s = String.length s.
Proof. rewrite levenshteinDistance_rec. apply levRec_col0. Qed.

Lemma levenshtein_empty_r (s : string) :
  SmartMatcher.levenshteinDistance s "" = String.length s.
Proof. rewrite levenshteinDistance_rec. reflexivity. Qed.

Lemma length_zero_empty (s : string) : String.length s = 0%nat -> s = "".
Proof. destruct s; [reflexivity | discriminate]. Qed.

Lemma ofNat_pos_neq0 (k : nat) : (0 < k)%nat -> ~ (SmartMatcher.ofNat k == 0)%Q.
Proof.
  intros H E. unfold SmartMatcher.ofNat, Qeq in E. simpl in E. lia.
Qed.

(** C9 (as stated, refuted).  The claim gives 0.0 whenever either string is
    empty.  When both are empty the first test of [stringSimilarity],
    [str1 === str2], answers 1.0. *)
Lemma C9_both_empty_counterexample :
  (SmartMatcher.stringSimilarity "" "" == 1)%Q /\
  ~ (SmartMatcher.stringSimilarity "" "" == 0)%Q.
Proof. split; [reflexivity | discriminate]. Qed.

(** C9 (amended).  For all strings: identical strings, the empty ones
    included, have similarity 1; distinct strings one of which is empty have
    similarity 0; and whenever at least one string is non-empty the result is
    [(max(len1, len2) - levenshteinDistance(s1, s2)) / max(len1, len2)]. *)
Theorem C9_stringSimilarity_ratio (s1 s2 : string) :
  (s1 = s2 -> (SmartMatcher.stringSimilarity s1 s2 == 1)%Q)
  /\ (s1 <> s2 -> s1 = "" \/ s2 = "" ->
      (SmartMatcher.stringSimilarity s1 s2 == 0)%Q)
  /\ ((0 < Nat.max (String.length s1) (String.length s2))%nat ->
      (SmartMatcher.stringSimilarity s1 s2
       == (SmartMatcher.ofNat (Nat.max (String.length s1) (String.length s2))
           - SmartMatcher.ofNat (SmartMatcher.levenshteinDistance s1 s2))
          / SmartMatcher.ofNat (Nat.max (String.length s1) (String.length s2)))%Q).
Proof.
  unfold SmartMatcher.stringSimilarity.
  destruct (String.eqb_spec s1 s2) as [-> | Hne].
  - split; [reflexivity |]. split; [congruence |].
    intro Hpos. rewrite levenshtein_same.
    pose proof (ofNat_pos_neq0 _ Hpos) as Hnz.
    change (SmartMatcher.ofNat 0) with 0%Q. field. exact Hnz.
  - split; [congruence |].
    destruct (String.length s1 =? 0)%nat eqn:E1.
    { apply Nat.eqb_eq, length_zero_empty in E1. subst s1. cbn [orb].
      split; [reflexivity |]. intro Hpos.
      rewrite levenshtein_empty_l. cbn [String.length Nat.max] in *.
      pose proof (ofNat_pos_neq0 _ Hpos) as Hnz. field. exact Hnz. }
    destruct (String.length s2 =? 0)%nat eqn:E2.
    { apply Nat.eqb_eq, length_zero_empty in E2. subst s2. cbn [orb].
      split; [reflexivity |]. intro Hpos.
      rewrite levenshtein_empty_r. rewrite Nat.max_0_r in *.
      pose proof (ofNat_pos_neq0 _ Hpos) as Hnz. field. exact Hnz. }
    cbn [orb]. apply Nat.eqb_neq in E1, E2.
    split.
    { intros _ [-> | ->]; simpl in *; congruence. }
    intros _.
    destruct (String.length s2 <? String.length s1)%nat eqn:L.
    + apply Nat.ltb_lt in L.
      destruct (String.length s1 =? 0)%nat eqn:Z1; [apply Nat.eqb_eq in Z1; lia |].
      rewrite Nat.max_l by lia. reflexivity.
    + apply Nat.ltb_ge in L.
      destruct (String.length s2 =? 0)%nat eqn:Z2; [apply Nat.eqb_eq in Z2; lia |].
      rewrite Nat.max_r by lia. reflexivity.
Qed.

(** ** The storage part of the specs sub-score (claim C8) *)

(** What the storage comparison adds to the specs sub-score. *)
Lemma storageShare_cases (source candidate : SmartMatcher.Features) :
  (storageShare source candidate ==
   if truthy (SmartMatcher.f_storage source)
      && truthy (SmartMatcher.f_storage candidate)
   then if (SmartMatcher.f_storage source =? SmartMatcher.f_storage candidate)%string
        then 8
        else if SmartMatcher.closeInt (SmartMatcher.f_storage source)
                                      (SmartMatcher.f_storage candidate) 128
             then 4 else 0
   else 0)%Q.
Proof.
  unfold storageShare, SmartMatcher.scoreSpecs.
  cbn [noStorage SmartMatcher.f_storage SmartMatcher.f_ram SmartMatcher.f_color
       truthy andb].
  repeat match goal with |- context [if ?c then _ else _] => destruct c end;
    reflexivity.
Qed.

Lemma truthy_nonempty (s : string) : s <> "" -> truthy s = true.
Proof. destruct s; [congruence | reflexivity]. Qed.

(** *** Integers as doubles *)

Section Doubles.
Open Scope Z_scope.

(** Between 2^53 and 2^54 the doubles are the even integers, and an odd
    integer goes to the neighbour with the even significand; 10^22 is a
    double and 10^23 is not; the largest double is 2^1024 - 2^971, and half
    a unit above it the result is an infinity. *)
Lemma toDouble_examples :
  toDouble (2 ^ 53 + 1) = Some (2 ^ 53)
  /\ toDouble (2 ^ 53 + 3) = Some (2 ^ 53 + 4)
  /\ toDouble (2 ^ 53 + 129) = Some (2 ^ 53 + 128)
  /\ toDouble (- (2 ^ 53 + 3)) = Some (- (2 ^ 53 + 4))
  /\ toDouble (10 ^ 22) = Some (10 ^ 22)
  /\ toDouble (10 ^ 23) = Some 99999999999999991611392
  /\ toDouble (2 ^ 1024 - 2 ^ 971) = Some (2 ^ 1024 - 2 ^ 971)
  /\ toDouble (2 ^ 1024 - 2 ^ 970) = None
  /\ toDouble (10 ^ 400) = None.
Proof.
  split; [vm_compute; reflexivity |].
  split; [vm_compute; reflexivity |].
  split; [vm_compute; reflexivity |].
  split; [vm_compute; reflexivity |].
  split; [vm_compute; reflexivity |].
  split; [vm_compute; reflexivity |].
  split; [vm_compute; reflexivity |].
  split; [vm_compute; reflexivity |].
  vm_compute. reflexivity.
Qed.

(** Up to 2^53 in absolute value an integer is its own double. *)
Lemma toDouble_exact (v : Z) : Z.abs v <= 2 ^ 53 -> toDouble v = Some v.
Proof.
  intro H. unfold toDouble.
  destruct (Z.abs v <? 2 ^ 53) eqn:E; [reflexivity |].
  apply Z.ltb_ge in E.
  change (2 ^ 53) with 9007199254740992 in H, E.
  assert (Hv : v = 9007199254740992 \/ v = - 9007199254740992) by lia.
  destruct Hv as [-> | ->]; vm_compute; reflexivity.
Qed.

(** Beyond, the double is at least 2^52 in absolute value. *)
Lemma toDouble_big (z d : Z) :
  2 ^ 53 <= Z.abs z -> toDouble z = Some d -> 2 ^ 52 <= Z.abs d.
Proof.
  intros Hz. unfold toDouble.
  destruct (Z.abs z <? 2 ^ 53) eqn:E; [apply Z.ltb_lt in E; lia |].
  cbv zeta. set (n := Z.abs z) in *. set (e := Z.log2 n - 52).
  set (q := Z.shiftr n e).
  set (q' := if n - Z.shiftl q e <? Z.shiftl 1 (e - 1) then q
             else if Z.shiftl 1 (e - 1) <? n - Z.shiftl q e then q + 1
                  else if Z.even q then q else q + 1).
  destruct (2 ^ 1024 <=? Z.shiftl q' e); [discriminate |]. intros [= <-].
  assert (Hn : 0 < n) by (change (2 ^ 53) with 9007199254740992 in Hz; lia).
  assert (He : 1 <= e).
  { unfold e. pose proof (Z.log2_le_mono _ _ Hz) as L.
    rewrite Z.log2_pow2 in L by lia. lia. }
  assert (Hq : 2 ^ 52 <= q).
  { unfold q. rewrite Z.shiftr_div_pow2 by lia.
    pose proof (Z.log2_spec n Hn) as [Hlo _].
    replace (Z.log2 n) with (52 + e) in Hlo by (unfold e; lia).
    rewrite Z.pow_add_r in Hlo by lia.
    assert (Hp : 0 < 2 ^ e) by (apply Z.pow_pos_nonneg; lia).
    rewrite <- (Z.div_mul (2 ^ 52) (2 ^ e)) by lia.
    apply Z.div_le_mono; assumption. }
  assert (Hq' : q <= q').
  { unfold q'. repeat match goal with |- context [if ?b then _ else _] => destruct b end;
      lia. }
  assert (Hm : 2 ^ 52 <= Z.shiftl q' e).
  { rewrite Z.shiftl_mul_pow2 by lia.
    assert (Hp : 1 <= 2 ^ e) by (apply Z.lt_pred_le, Z.pow_pos_nonneg; lia).
    change (2 ^ 52) with 4503599627370496 in *. nia. }
  change (2 ^ 52) with 4503599627370496 in *.
  destruct z as [|p|p]; cbn [Z.sgn]; [unfold n in Hn; simpl in Hn; lia | lia | lia].
Qed.

(** Beyond 2^53 the double of an integer is a multiple [q * 2^e] with a
    significand [q] of 53 bits (or 2^53, the next power of two), of the
    sign of the integer, at most half a unit [2^e] away from it, and with
    an even significand when it is exactly half a unit away. *)
Lemma toDouble_nearest (z d : Z) :
  2 ^ 53 <= Z.abs z -> toDouble z = Some d ->
  exists q e,
    1 <= e /\ 2 ^ 52 <= q <= 2 ^ 53 /\ d = Z.sgn z * (q * 2 ^ e)
    /\ 2 * Z.abs (Z.abs d - Z.abs z) <= 2 ^ e
    /\ (2 * Z.abs (Z.abs d - Z.abs z) = 2 ^ e -> Z.even q = true).
Proof.
  intros Hz. unfold toDouble.
  destruct (Z.abs z <? 2 ^ 53) eqn:E; [apply Z.ltb_lt in E; lia |].
  cbv zeta. set (n := Z.abs z) in *. set (e := Z.log2 n - 52).
  set (q := Z.shiftr n e). set (r := n - Z.shiftl q e).
  set (half := Z.shiftl 1 (e - 1)).
  set (q' := if r <? half then q
             else if half <? r then q + 1
                  else if Z.even q then q else q + 1).
  destruct (2 ^ 1024 <=? Z.shiftl q' e); [discriminate |]. intros [= <-].
  assert (Hn : 0 < n) by (change (2 ^ 53) with 9007199254740992 in Hz; lia).
  assert (He : 1 <= e).
  { unfold e. pose proof (Z.log2_le_mono _ _ Hz) as L.
    rewrite Z.log2_pow2 in L by lia. lia. }
  assert (Hp : 0 < 2 ^ e) by (apply Z.pow_pos_nonneg; lia).
  assert (Hhalf : 2 * half = 2 ^ e).
  { unfold half. rewrite Z.shiftl_mul_pow2 by lia.
    replace e with (1 + (e - 1)) at 2 by lia.
    rewrite Z.pow_add_r by lia. change (2 ^ 1) with 2. lia. }
  assert (Hq : q = n / 2 ^ e) by (unfold q; apply Z.shiftr_div_pow2; lia).
  assert (Hr : r = n mod 2 ^ e).
  { unfold r. rewrite Z.shiftl_mul_pow2 by lia. rewrite Hq.
    pose proof (Z.div_mod n (2 ^ e)). lia. }
  pose proof (Z.mod_pos_bound n (2 ^ e) Hp) as Hrb. rewrite <- Hr in Hrb.
  assert (Hnq : n = q * 2 ^ e + r).
  { rewrite Hq, Hr. pose proof (Z.div_mod n (2 ^ e)). lia. }
  pose proof (Z.log2_spec n Hn) as [Hlo Hhi].
  replace (Z.log2 n) with (52 + e) in Hlo by (unfold e; lia).
  replace (Z.succ (Z.log2 n)) with (53 + e) in Hhi by (unfold e; lia).
  rewrite Z.pow_add_r in Hlo, Hhi by lia.
  assert (Hq52 : 2 ^ 52 <= q).
  { rewrite Hq. rewrite <- (Z.div_mul (2 ^ 52) (2 ^ e)) by lia.
    apply Z.div_le_mono; assumption. }
  assert (Hq53 : q < 2 ^ 53).
  { rewrite Hq. apply Z.div_lt_upper_bound; lia. }
  exists q', e. rewrite Z.shiftl_mul_pow2 by lia.
  assert (Habs : Z.abs (Z.sgn z * (q' * 2 ^ e)) = q' * 2 ^ e).
  { assert (0 <= q' * 2 ^ e).
    { apply Z.mul_nonneg_nonneg; [| lia]. unfold q'.
      change (2 ^ 52) with 4503599627370496 in Hq52.
      repeat match goal with |- context [if ?b then _ else _] => destruct b end; lia. }
    destruct z as [|p|p]; cbn [Z.sgn]; [unfold n in Hn; simpl in Hn; lia | lia | lia]. }
  rewrite Habs.
  change (2 ^ 52) with 4503599627370496 in *.
  change (2 ^ 53) with 9007199254740992 in *.
  unfold q'. destruct (r <? half) eqn:C1; [apply Z.ltb_lt in C1 | apply Z.ltb_ge in C1].
  - repeat split; try lia.
  - destruct (half <? r) eqn:C2; [apply Z.ltb_lt in C2 | apply Z.ltb_ge in C2].
    + repeat split; try lia.
    + destruct (Z.even q) eqn:Ev.
      * repeat split; try lia. intros _. exact Ev.
      * repeat split; try lia. intros _.
        rewrite Z.even_add, Ev. reflexivity.
Qed.

(** Rounding a difference does not change its comparison with a small
    bound. *)
Lemma toDouble_within (z bound : Z) :
  0 <= bound < 2 ^ 52 ->
  match toDouble z with
  | Some d => Z.abs d <=? bound
  | None => false
  end = (Z.abs z <=? bound).
Proof.
  intros [Hb0 Hb].
  destruct (Z_lt_le_dec (Z.abs z) (2 ^ 53)) as [Hs | Hl].
  - rewrite toDouble_exact by lia. reflexivity.
  - assert (Hfalse : (Z.abs z <=? bound) = false).
    { apply Z.leb_gt. change (2 ^ 53) with 9007199254740992 in Hl.
      change (2 ^ 52) with 4503599627370496 in Hb. lia. }
    rewrite Hfalse. destruct (toDouble z) as [d|] eqn:E; [| reflexivity].
    apply Z.leb_gt. pose proof (toDouble_big z d Hl E). lia.
Qed.
End Doubles.

Lemma closeInt_spec (a b : string) (bound : Z) :
  (0 <= bound < 2 ^ 52)%Z ->
  (SmartMatcher.closeInt a b bound = true <->
   exists x y dx dy,
     parseInt a = Some x /\ parseInt b = Some y /\
     toDouble x = Some dx /\ toDouble y = Some dy /\
     (Z.abs (dx - dy) <= bound)%Z).
Proof.
  intro Hb. unfold SmartMatcher.closeInt.
  destruct (parseInt a) as [x|], (parseInt b) as [y|];
    try (split; [discriminate | intros (? & ? & ? & ? & ? & ? & _); discriminate]).
  destruct (toDouble x) as [dx|] eqn:Ex, (toDouble y) as [dy|] eqn:Ey;
    try (split; [discriminate
                | intros (? & ? & ? & ? & [= <-] & [= <-] & ? & ? & _);
                  congruence]).
  rewrite (toDouble_within (dx - dy) bound Hb). rewrite Z.leb_le. split.
  - intro H. now exists x, y, dx, dy.
  - intros (x' & y' & dx' & dy' & [= <-] & [= <-] & Ex' & Ey' & H).
    rewrite Ex in Ex'. rewrite Ey in Ey'.
    injection Ex' as <-. injection Ey' as <-. exact H.
Qed.

(** *** The integer that [parseInt] reads off a storage string *)

Lemma valueFrom_nonneg (ds : string) (acc : Z) :
  (0 <= acc -> 0 <= ProductText.valueFrom acc ds)%Z.
Proof.
  revert acc. induction ds as [|c r IH]; intros acc H; cbn [ProductText.valueFrom].
  - exact H.
  - apply IH. unfold digitVal. lia.
Qed.

Lemma decRun_digits (ds rest : string) (acc : Z) :
  Views.allChars isDigit ds = true ->
  match rest with String c _ => isDigit c = false | EmptyString => True end ->
  decRun (Some acc) (ds ++ rest) = Some (ProductText.valueFrom acc ds).
Proof.
  revert acc. induction ds as [|c r IH]; intros acc Hd Hr.
  - cbn [String.append ProductText.valueFrom].
    destruct rest as [|c r]; [reflexivity |]. cbn [decRun]. now rewrite Hr.
  - cbn [Views.allChars] in Hd. apply andb_prop in Hd. destruct Hd as [Hc Hd].
    cbn [String.append decRun ProductText.valueFrom]. rewrite Hc.
    now apply IH.
Qed.

(** [parseInt] on a string that begins with a digit, not followed by an
    [x]: the decimal run. *)
Lemma parseInt_decimal (c : ascii) (rest : string) :
  isDigit c = true ->
  match rest with
  | String c2 _ => negb (Ascii.eqb c2 "x") && negb (Ascii.eqb c2 "X") = true
  | EmptyString => True
  end ->
  parseInt (String c rest) = decRun None (String c rest).
Proof.
  intros Hc Hx.
  destruct c as [[] [] [] [] [] [] [] []]; try discriminate Hc; try reflexivity.
  destruct rest as [|c2 r2]; [reflexivity |].
  destruct c2 as [[] [] [] [] [] [] [] []]; try discriminate Hx; reflexivity.
Qed.

Lemma digit_not_x (c : ascii) :
  isDigit c = true -> negb (Ascii.eqb c "x") && negb (Ascii.eqb c "X") = true.
Proof.
  destruct c as [[] [] [] [] [] [] [] []]; intro H; try discriminate H; reflexivity.
Qed.

Lemma parseInt_storage (ds unit : string) :
  ds <> "" -> Views.allChars isDigit ds = true -> In unit ["GB"; "TB"] ->
  parseInt (ds ++ unit) = Some (ProductText.digitsValue ds).
Proof.
  intros Hne Hd Hu. destruct ds as [|c r]; [contradiction |].
  cbn [Views.allChars] in Hd. apply andb_prop in Hd. destruct Hd as [Hc Hr].
  cbn [String.append]. rewrite parseInt_decimal.
  - cbn [decRun]. rewrite Hc. unfold ProductText.digitsValue.
    cbn [ProductText.valueFrom]. apply decRun_digits; [exact Hr |].
    destruct Hu as [<- | [<- | []]]; reflexivity.
  - exact Hc.
  - destruct r as [|c2 r2].
    + destruct Hu as [<- | [<- | []]]; reflexivity.
    + cbn [Views.allChars] in Hr. apply andb_prop in Hr.
      cbn [String.append]. apply digit_not_x, Hr.
Qed.

(** *** The storage strings that [extractStorage] makes *)

Section StorageShape.
Import Regex ProductUtils.
Variable inp : list ascii.

Lemma skipn_nth (l : list ascii) (i : nat) (ch : ascii) :
  nth_error l i = Some ch -> skipn i l = ch :: skipn (S i) l.
Proof.
  revert l. induction i as [|i IH]; intros [|x r] H; try discriminate H.
  - now injection H as ->.
  - cbn [nth_error] in H. cbn [skipn]. rewrite (IH r H). reflexivity.
Qed.

(** A greedy run of a character class hands on a later position and the
    same captures; the characters in between are of the class. *)
Lemma star_chr_loop (p : ascii -> bool) (k : nat -> caps -> option (nat * caps))
      (fuel : nat) :
  forall (i : nat) (c : caps) (res : nat * caps),
    (fix loop (fuel : nat) (i : nat) (c : caps) {struct fuel}
       : option (nat * caps) :=
       match fuel with
       | O => k i c
       | S f =>
           match m inp (Chr p) i c
                   (fun j c' => if (i <? j)%nat then loop f j c' else None) with
           | Some res => Some res
           | None => k i c
           end
       end) fuel i c = Some res ->
    exists j, i <= j /\ forallb p (firstn (j - i) (skipn i inp)) = true
              /\ k j c = Some res.
Proof.
  induction fuel as [|f IH]; intros i c res H.
  - exists i. now rewrite Nat.sub_diag.
  - cbn [m] in H.
    assert (Hstay : k i c = Some res ->
                    exists j, i <= j
                              /\ forallb p (firstn (j - i) (skipn i inp)) = true
                              /\ k j c = Some res).
    { intro Hk. exists i. now rewrite Nat.sub_diag. }
    destruct (nth_error inp i) as [ch|] eqn:En; [| now apply Hstay].
    destruct (p ch) eqn:Ep; [| now apply Hstay].
    rewrite (proj2 (Nat.ltb_lt i (S i)) (Nat.lt_succ_diag_r i)) in H.
    match type of H with
    | match ?t with _ => _ end = _ => destruct t as [res'|] eqn:El
    end; [| now apply Hstay].
    injection H as ->. apply IH in El. destruct El as (j & Hj & Hall & Hk).
    exists j. split; [lia |]. split; [| exact Hk].
    replace (j - i) with (S (j - S i)) by lia.
    rewrite (skipn_nth inp i ch En). cbn [firstn forallb]. now rewrite Ep.
Qed.

Lemma m_star_chr (p : ascii -> bool) (i : nat) (c : caps)
      (k : nat -> caps -> option (nat * caps)) (res : nat * caps) :
  m inp (Star (Chr p)) i c k = Some res ->
  exists j, i <= j /\ forallb p (firstn (j - i) (skipn i inp)) = true
            /\ k j c = Some res.
Proof. exact (star_chr_loop p k (List.length inp) i c res). Qed.

Lemma m_plus_chr (p : ascii -> bool) (i : nat) (c : caps)
      (k : nat -> caps -> option (nat * caps)) (res : nat * caps) :
  m inp (plus (Chr p)) i c k = Some res ->
  exists j ch l, firstn (j - i) (skipn i inp) = ch :: l
                 /\ forallb p (ch :: l) = true /\ k j c = Some res.
Proof.
  unfold plus.
  change (m inp (Seq (Chr p) (Star (Chr p))) i c k)
    with (match nth_error inp i with
          | Some ch => if p ch then m inp (Star (Chr p)) (S i) c k else None
          | None => None
          end).
  destruct (nth_error inp i) as [ch|] eqn:En; [| discriminate].
  destruct (p ch) eqn:Ep; [| discriminate].
  intro H. apply m_star_chr in H. destruct H as (j & Hj & Hall & Hk).
  exists j, ch, (firstn (j - S i) (skipn (S i) inp)).
  replace (j - i) with (S (j - S i)) by lia.
  rewrite (skipn_nth inp i ch En). cbn [firstn forallb]. now rewrite Ep, Hall.
Qed.

Lemma m_ilit2 (a b : ascii) (i : nat) (c : caps)
      (k : nat -> caps -> option (nat * caps)) (res : nat * caps) :
  m inp (ilit (String a (String b ""))) i c k = Some res ->
  exists c1 c2, firstn (S (S i) - i) (skipn i inp) = [c1; c2]
                /\ eqCI a c1 = true /\ eqCI b c2 = true
                /\ k (S (S i)) c = Some res.
Proof.
  cbn [ilit ichr m].
  destruct (nth_error inp i) as [c1|] eqn:E1; [| discriminate].
  destruct (eqCI a c1) eqn:A; [| discriminate].
  destruct (nth_error inp (S i)) as [c2|] eqn:E2; [| discriminate].
  destruct (eqCI b c2) eqn:B; [| discriminate].
  intro H. exists c1, c2. replace (S (S i) - i) with 2 by lia.
  rewrite (skipn_nth inp i c1 E1), (skipn_nth inp (S i) c2 E2).
  repeat split; assumption.
Qed.

Lemma scan_matchAt (r : re) (fuel i i' j : nat) (c : caps) :
  scan inp r fuel i = Some (i', j, c) -> matchAt inp r i' = Some (j, c).
Proof.
  revert i. induction fuel as [|f IH]; intro i; cbn [scan];
    destruct (matchAt inp r i) as [[j0 c0]|] eqn:E.
  - intros [= <- <- <-]. exact E.
  - discriminate.
  - intros [= <- <- <-]. exact E.
  - apply IH.
Qed.

Lemma unit_upper (a c1 c2 : ascii) :
  a = "g"%char \/ a = "t"%char ->
  eqCI a c1 = true -> eqCI "b" c2 = true ->
  In (toUpperCase (String c1 (String c2 ""))) ["GB"; "TB"].
Proof.
  intros Ha H1 H2.
  assert (U2 : upperChar c2 = "B").
  { destruct c2 as [[] [] [] [] [] [] [] []]; try discriminate H2; reflexivity. }
  cbn [toUpperCase]. rewrite U2. destruct Ha as [-> | ->].
  - assert (U1 : upperChar c1 = "G").
    { destruct c1 as [[] [] [] [] [] [] [] []]; try discriminate H1; reflexivity. }
    rewrite U1. now left.
  - assert (U1 : upperChar c1 = "T").
    { destruct c1 as [[] [] [] [] [] [] [] []]; try discriminate H1; reflexivity. }
    rewrite U1. right. now left.
Qed.

(** A match of the storage pattern: group 1 is a non-empty run of digits,
    group 2 reads GB or TB in upper case. *)
Lemma storagePattern_groups (i j : nat) (c : caps) :
  matchAt inp storagePattern i = Some (j, c) ->
  exists ch l u,
    group inp c 1 = string_of_list_ascii (ch :: l)
    /\ forallb isDigit (ch :: l) = true
    /\ toUpperCase (group inp c 2) = u /\ In u ["GB"; "TB"].
Proof.
  unfold matchAt, storagePattern. cbn [seqs alts m].
  destruct (boundary inp i); [| discriminate].
  intro H. apply m_plus_chr in H. destruct H as (j1 & ch & l & Hd & Hall & H).
  apply m_star_chr in H. destruct H as (j2 & _ & _ & H).
  assert (Hu : forall a, a = "g"%char \/ a = "t"%char ->
            m inp (ilit (String a "b")) j2 [(1, (i, j1))]
              (fun j3 c' =>
                 if boundary inp j3 then Some (j3, (2, (j2, j3)) :: c') else None)
            = Some (j, c) ->
            exists ch l u,
              group inp c 1 = string_of_list_ascii (ch :: l)
              /\ forallb isDigit (ch :: l) = true
              /\ toUpperCase (group inp c 2) = u /\ In u ["GB"; "TB"]).
  { intros a Ha Hm. apply m_ilit2 in Hm.
    destruct Hm as (c1 & c2 & Hsub & A & B & Hk).
    destruct (boundary inp (S (S j2))); [| discriminate Hk].
    injection Hk as <- <-.
    exists ch, l, (toUpperCase (String c1 (String c2 ""))).
    unfold group. cbn [find fst Nat.eqb]. unfold sub. rewrite Hd, Hsub.
    repeat split; [exact Hall | now apply (unit_upper a)]. }
  match type of H with
  | match ?t with _ => _ end = _ => destruct t as [res'|] eqn:E
  end.
  - injection H as ->. apply (Hu "g"%char); [now left | exact E].
  - apply (Hu "t"%char); [now right | exact H].
Qed.
End StorageShape.

Lemma allChars_of_list (q : ascii -> bool) (l : list ascii) :
  Views.allChars q (string_of_list_ascii l) = forallb q l.
Proof.
  induction l as [|x r IH]; [reflexivity |].
  cbn [string_of_list_ascii Views.allChars forallb]. now rewrite IH.
Qed.

(** Every storage string is empty or a non-empty run of digits followed by
    GB or TB. *)
Lemma extractStorage_shape (title : string) :
  ProductUtils.extractStorage title = ""
  \/ exists d u,
       ProductUtils.extractStorage title = (d ++ u)%string
       /\ d <> "" /\ Views.allChars isDigit d = true /\ In u ["GB"; "TB"].
Proof.
  unfold ProductUtils.extractStorage, Regex.match1.
  destruct (Regex.exec _ _ 0) as [[[i j] c]|] eqn:E; [| now left].
  right. unfold Regex.exec in E.
  destruct (0 <=? _)%nat; [| discriminate E].
  apply scan_matchAt, storagePattern_groups in E.
  destruct E as (ch & l & u & H1 & Hall & H2 & Hu).
  exists (string_of_list_ascii (ch :: l)), u.
  rewrite H1, H2. split; [reflexivity |]. split; [discriminate |].
  split; [| exact Hu]. now rewrite allChars_of_list.
Qed.

(** C8 (as stated, refuted).  The claim decides the partial credit by the
    difference of the two leading integers.  The program subtracts the
    doubles that [parseInt] returns.  For the titles of [storageHugeA] and
    [storageHugeB], [extractStorage] gives storage strings whose integers,
    2^53 + 129 and 2^53, differ by 129, more than 128; the first is no
    double and is rounded to 2^53 + 128, so that the doubles differ by 128
    and the partial credit of 4 is awarded. *)
Lemma C8_rounded_integers_counterexample :
  SmartMatcher.f_storage (SmartMatcher.extractFeatures storageHugeA)
  = "9007199254741121GB"
  /\ SmartMatcher.f_storage (SmartMatcher.extractFeatures storageHugeB)
     = "9007199254740992GB"
  /\ ProductText.digitsValue "9007199254741121" = (2 ^ 53 + 129)%Z
  /\ ProductText.digitsValue "9007199254740992" = (2 ^ 53)%Z
  /\ ~ (Z.abs ((2 ^ 53 + 129) - 2 ^ 53) <= 128)%Z
  /\ toDouble (2 ^ 53 + 129) = Some (2 ^ 53 + 128)%Z
  /\ (storageShare (SmartMatcher.extractFeatures storageHugeA)
                   (SmartMatcher.extractFeatures storageHugeB) == 4)%Q.
Proof.
  split; [vm_compute; reflexivity |].
  split; [vm_compute; reflexivity |].
  split; [vm_compute; reflexivity |].
  split; [vm_compute; reflexivity |].
  split; [vm_compute; intro H; now apply H |].
  split; [vm_compute; reflexivity |].
  vm_compute. reflexivity.
Qed.

(** C8 (amended).  The storage strings are those that [extractStorage]
    makes: a non-empty run of digits followed by GB or TB (every storage
    string that is not empty is one, [extractStorage_shape]).  If the two
    strings are equal the storage comparison adds 8 to the specs sub-score.
    If they differ it adds exactly 4 if and only if the integers that the
    two runs of digits spell, each rounded to the nearest double (none being
    so large that it becomes an infinity), differ by at most 128, and it
    adds 0 otherwise; whenever both integers are at most 2^53, so that they
    are doubles themselves, it adds 4 if and only if the integers differ by
    at most 128. *)
Theorem C8_storage_partial_credit
        (source candidate : SmartMatcher.Features) (d1 u1 d2 u2 : string)
        (Hs : SmartMatcher.f_storage source = (d1 ++ u1)%string)
        (Hc : SmartMatcher.f_storage candidate = (d2 ++ u2)%string)
        (Hd1 : d1 <> "" /\ Views.allChars isDigit d1 = true)
        (Hd2 : d2 <> "" /\ Views.allChars isDigit d2 = true)
        (Hu1 : In u1 ["GB"; "TB"]) (Hu2 : In u2 ["GB"; "TB"]) :
  (SmartMatcher.f_storage source = SmartMatcher.f_storage candidate ->
   (storageShare source candidate == 8)%Q)
  /\ (SmartMatcher.f_storage source <> SmartMatcher.f_storage candidate ->
      ((storageShare source candidate == 4)%Q <->
       exists x y,
         toDouble (ProductText.digitsValue d1) = Some x /\
         toDouble (ProductText.digitsValue d2) = Some y /\
         (Z.abs (x - y) <= 128)%Z)
      /\ ((storageShare source candidate == 4)%Q
          \/ (storageShare source candidate == 0)%Q)
      /\ ((ProductText.digitsValue d1 <= 2 ^ 53)%Z ->
          (ProductText.digitsValue d2 <= 2 ^ 53)%Z ->
          ((storageShare source candidate == 4)%Q <->
           (Z.abs (ProductText.digitsValue d1 - ProductText.digitsValue d2)
            <= 128)%Z))).
Proof.
  destruct Hd1 as [Hn1 Hd1], Hd2 as [Hn2 Hd2].
  pose proof (parseInt_storage d1 u1 Hn1 Hd1 Hu1) as P1.
  pose proof (parseInt_storage d2 u2 Hn2 Hd2 Hu2) as P2.
  rewrite <- Hs in P1. rewrite <- Hc in P2.
  assert (Ts : truthy (SmartMatcher.f_storage source) = true).
  { rewrite Hs. destruct d1; [contradiction | reflexivity]. }
  assert (Tc : truthy (SmartMatcher.f_storage candidate) = true).
  { rewrite Hc. destruct d2; [contradiction | reflexivity]. }
  pose proof (storageShare_cases source candidate) as H.
  rewrite Ts, Tc in H. cbn [andb] in H.
  split.
  - intro E. rewrite E, String.eqb_refl in H. exact H.
  - intro N. apply String.eqb_neq in N. rewrite N in H.
    assert (Hb : (0 <= 128 < 2 ^ 52)%Z) by (split; [lia | reflexivity]).
    pose proof (closeInt_spec (SmartMatcher.f_storage source)
                              (SmartMatcher.f_storage candidate) 128 Hb) as Spec.
    assert (Hiff : (storageShare source candidate == 4)%Q <->
                   exists x y,
                     toDouble (ProductText.digitsValue d1) = Some x /\
                     toDouble (ProductText.digitsValue d2) = Some y /\
                     (Z.abs (x - y) <= 128)%Z).
    { destruct (SmartMatcher.closeInt _ _ 128); rewrite H; split.
      - intros _. destruct (proj1 Spec eq_refl)
          as (x & y & dx & dy & Px & Py & Dx & Dy & Hle).
        rewrite P1 in Px. rewrite P2 in Py.
        injection Px as <-. injection Py as <-. now exists dx, dy.
      - reflexivity.
      - discriminate.
      - intros (dx & dy & Dx & Dy & Hle).
        assert (F : false = true); [| discriminate F].
        apply Spec. now exists (ProductText.digitsValue d1),
                               (ProductText.digitsValue d2), dx, dy. }
    split; [exact Hiff |]. split.
    + destruct (SmartMatcher.closeInt _ _ 128); rewrite H; [now left | now right].
    + intros B1 B2. rewrite Hiff.
      pose proof (valueFrom_nonneg d1 0 (Z.le_refl 0)) as N1.
      pose proof (valueFrom_nonneg d2 0 (Z.le_refl 0)) as N2.
      fold (ProductText.digitsValue d1) in N1.
      fold (ProductText.digitsValue d2) in N2.
      rewrite !toDouble_exact by lia. split.
      * intros (x & y & [= <-] & [= <-] & Hle). exact Hle.
      * intro Hle. now exists (ProductText.digitsValue d1),
                              (ProductText.digitsValue d2).
Qed.

(** 256GB against 128GB, the boundary case: the partial credit of 4. *)
Lemma C8_witness :
  SmartMatcher.f_storage (SmartMatcher.extractFeatures phone256) = "256GB" /\
  SmartMatcher.f_storage (SmartMatcher.extractFeatures phone128) = "128GB" /\
  ProductText.digitsValue "256" = 256%Z /\
  ProductText.digitsValue "128" = 128%Z /\
  (storageShare (SmartMatcher.extractFeatures phone256)
                (SmartMatcher.extractFeatures phone128) == 4)%Q.
Proof.
  split; [vm_compute; reflexivity |].
  split; [vm_compute; reflexivity |].
  split; [vm_compute; reflexivity |].
  split; [vm_compute; reflexivity |].
  refine (proj2 (proj2 (proj2 (proj2
            (C8_storage_partial_credit
               (SmartMatcher.extractFeatures phone256)
               (SmartMatcher.extractFeatures phone128)
               "256" "GB" "128" "GB" _ _ _ _ _ _) _)) _ _) _).
  - vm_compute. reflexivity.
  - vm_compute. reflexivity.
  - split; [discriminate | vm_compute; reflexivity].
  - split; [discriminate | vm_compute; reflexivity].
  - simpl. tauto.
  - simpl. tauto.
  - vm_compute. discriminate.
  - vm_compute. discriminate.
  - vm_compute. discriminate.
  - vm_compute. discriminate.
Defined.

(** ** The legacy level matcher (claims C4 and C10) *)

Lemma filter_Forall_keep {A : Type} (P : A -> Prop) (f : A -> bool) (l : list A) :
  Forall P l -> Forall P (filter f l).
Proof.
  rewrite !Forall_forall. intros H x Hx. apply filter_In in Hx. now apply H.
Qed.

Lemma firstn_Forall {A : Type} (P : A -> Prop) (n : nat) (l : list A) :
  Forall P l -> Forall P (firstn n l).
Proof.
  rewrite !Forall_forall. intros H x Hx. apply H. eapply firstn_incl, Hx.
Qed.

Lemma filter_all_true {A : Type} (f : A -> bool) (l : list A) :
  Forall (fun x => f x = true) l -> filter f l = l.
Proof.
  induction 1 as [|x r Hx Hr IH]; simpl; [reflexivity |].
  now rewrite Hx, IH.
Qed.

Lemma sortAndLimit_Forall (P : MatchResult -> Prop) (l : list MatchResult) (k : nat) :
  Forall P l -> Forall P (ProductMatcher.sortAndLimit l k).
Proof.
  intro H. unfold ProductMatcher.sortAndLimit, slice0.
  apply firstn_Forall, sort_Forall, filter_Forall_keep, H.
Qed.

(** Levels 2, 3 and 4 never label a result EXACT_ID. *)
Lemma level2For_level (sa : ProductAttributes) (c : Product) :
  Forall (fun m => matchLevel m <> EXACT_ID) (ProductMatcher.level2For sa c).
Proof.
  unfold ProductMatcher.level2For. cbv zeta.
  repeat match goal with |- context [if ?b then _ else _] => destruct b end;
    repeat constructor; discriminate.
Qed.

Lemma level3For_level (source : Product) (sa : ProductAttributes) (c : Product) :
  Forall (fun m => matchLevel m <> EXACT_ID) (ProductMatcher.level3For source sa c).
Proof.
  unfold ProductMatcher.level3For. cbv zeta.
  destruct (_ || _)%bool; repeat constructor; discriminate.
Qed.

Lemma level4For_level (source : Product) (sa : ProductAttributes) (c : Product) :
  Forall (fun m => matchLevel m <> EXACT_ID) (ProductMatcher.level4For source sa c).
Proof.
  unfold ProductMatcher.level4For. cbv zeta.
  destruct (_ || _ || _)%bool; [| constructor].
  destruct (ProductMatcher.MIN_CONFIDENCE <=? _)%Z; repeat constructor; discriminate.
Qed.

Lemma levels_not_exact_id (source : Product) (sa : ProductAttributes)
      (filtered : list Product) :
  Forall (fun m => matchLevel m <> EXACT_ID)
         (ProductMatcher.findBrandModelStorageMatches source sa filtered)
  /\ Forall (fun m => matchLevel m <> EXACT_ID)
            (ProductMatcher.findBrandModelMatches source sa filtered)
  /\ Forall (fun m => matchLevel m <> EXACT_ID)
            (ProductMatcher.findFuzzyMatches source sa filtered).
Proof.
  unfold ProductMatcher.findBrandModelStorageMatches,
    ProductMatcher.findBrandModelMatches, ProductMatcher.findFuzzyMatches.
  repeat split;
    try (destruct (negb _); [constructor |]);
    apply Forall_flat_map, Forall_forall; intros c _.
  - apply level2For_level.
  - apply level3For_level.
  - apply level4For_level.
Qed.

(** What [findMatches] returns when Level 1 does not apply. *)
Lemma findMatches_without_level1 (source : Product) (candidates : list Product) :
  productId source = "" ->
  Forall (fun m => matchLevel m <> EXACT_ID)
         (ProductMatcher.findMatches source candidates).
Proof.
  intro Hid. unfold ProductMatcher.findMatches. cbv zeta.
  rewrite Hid. cbn [truthy andb].
  destruct (List.length _ =? 0)%nat; [constructor |].
  destruct (levels_not_exact_id source (ProductMatcher.extractAttributes source)
              (ProductMatcher.filterAccessories source
                 (filter (fun p => Qleb 10 (numericPrice p)
                                   && (5 <=? String.length (title p))%nat)
                         candidates)))
    as (H2 & H3 & H4).
  cbn [app].
  destruct (5 <=? _)%nat; [now apply sortAndLimit_Forall |].
  destruct (_ <? 3)%nat; apply sortAndLimit_Forall;
    repeat (apply Forall_app; split); assumption.
Qed.

(** C10.  When the productId of the source is the empty string, no result of
    the legacy matcher is labelled EXACT_ID, whatever the productId of the
    candidates. *)
Theorem C10_no_exact_id_without_source_id
        (source : Product) (candidates : list Product) :
  productId source = "" ->
  Forall (fun m => matchLevel m <> EXACT_ID)
         (ProductMatcher.findMatches source candidates).
Proof. apply findMatches_without_level1. Qed.

(** A source and a candidate that both carry the empty productId: the
    candidate is returned, labelled EXACT and MEDIUM, never EXACT_ID. *)
Lemma C10_witness :
  productId noIdSource = productId noIdCandidate /\
  map matchLevel (ProductMatcher.findMatches noIdSource [noIdCandidate])
  = [EXACT; MEDIUM; LOW] /\
  Forall (fun m => matchLevel m <> EXACT_ID)
         (ProductMatcher.findMatches noIdSource [noIdCandidate]).
Proof.
  split; [reflexivity |].
  split; [vm_compute; reflexivity |].
  apply (C10_no_exact_id_without_source_id noIdSource [noIdCandidate]).
  reflexivity.
Defined.

(** What the accessory filter keeps depends on the source and the candidate
    alone. *)
Lemma filterAccessories_In (source c : Product) (l : list Product) :
  In c (ProductMatcher.filterAccessories source l) <->
  In c l /\ ProductMatcher.filterAccessories source [c] = [c].
Proof.
  unfold ProductMatcher.filterAccessories. cbv zeta. rewrite filter_In.
  cbn [filter].
  destruct (if ProductMatcher.isAccessory (title source) then true
            else if Regex.test ProductMatcher.deviceWords (toLowerCase (title c))
                 then true
                 else negb (ProductMatcher.isAccessory (title c)));
    intuition discriminate.
Qed.

Lemma validForLegacy_In (c : Product) (l : list Product) :
  In c (validForLegacy l) <->
  In c l /\ (10 <= numericPrice c)%Q /\ (5 <= String.length (title c))%nat.
Proof.
  unfold validForLegacy. rewrite filter_In, andb_true_iff, Qleb_true, Nat.leb_le.
  tauto.
Qed.

Lemma findExactIdMatches_In (source c : Product) (l : list Product) :
  In c l -> productId c = productId source ->
  In (exactResult c) (ProductMatcher.findExactIdMatches source l).
Proof.
  intros Hin Hid. unfold ProductMatcher.findExactIdMatches.
  apply (in_map exactResult), filter_In. split; [exact Hin |].
  now apply String.eqb_eq.
Qed.

Lemma findExactIdMatches_all (source : Product) (l : list Product) :
  Forall (fun m => matchLevel m = EXACT_ID /\ confidence m = 100%Z
                   /\ productId (product m) = productId source)
         (ProductMatcher.findExactIdMatches source l).
Proof.
  unfold ProductMatcher.findExactIdMatches.
  apply Forall_forall. intros m Hm. apply in_map_iff in Hm.
  destruct Hm as (c & <- & Hc). apply filter_In in Hc. destruct Hc as [_ Hc].
  apply String.eqb_eq in Hc. cbn. auto.
Qed.

(** Sorting and limiting a list of Level 1 results keeps its first 20. *)
Lemma sortAndLimit_exact (source : Product) (l : list Product) :
  ProductMatcher.sortAndLimit (ProductMatcher.findExactIdMatches source l)
                              ProductMatcher.LIMIT
  = firstn 20 (ProductMatcher.findExactIdMatches source l).
Proof.
  pose proof (findExactIdMatches_all source l) as H.
  unfold ProductMatcher.sortAndLimit, slice0, ProductMatcher.LIMIT.
  rewrite filter_all_true.
  - rewrite (sort_constant confidence 100%Z); [reflexivity |].
    eapply Forall_impl; [| exact H]. cbn. tauto.
  - eapply Forall_impl; [| exact H]. cbn. intros m (_ & -> & _). reflexivity.
Qed.

Lemma findMatches_level1 (source : Product) (candidates : list Product) :
  productId source <> "" ->
  ProductMatcher.findExactIdMatches source
    (ProductMatcher.filterAccessories source (validForLegacy candidates)) <> [] ->
  ProductMatcher.findMatches source candidates
  = firstn 20 (ProductMatcher.findExactIdMatches source
                 (ProductMatcher.filterAccessories source (validForLegacy candidates))).
Proof.
  intros Hid Hne. unfold ProductMatcher.findMatches. cbv zeta.
  fold (validForLegacy candidates).
  rewrite (truthy_nonempty _ Hid). cbn [andb].
  destruct (ProductMatcher.filterAccessories source (validForLegacy candidates))
    as [|p filtered] eqn:F; [now destruct Hne |].
  cbn [List.length Nat.eqb].
  destruct (ProductMatcher.findExactIdMatches source (p :: filtered)) as [|e es] eqn:E;
    [now destruct Hne |].
  cbn [List.length Nat.ltb Nat.leb]. rewrite <- E. apply sortAndLimit_exact.
Qed.

(** C4 (as stated, refuted).  The source has a non-empty productId, and two
    candidates carry the same productId: a back cover, which the accessory
    filter removes, and a listing priced below 10, which the validation
    removes.  Neither is returned; the only results, for a third candidate,
    are not labelled EXACT_ID. *)
Lemma C4_filtered_candidates_counterexample :
  productId coverSameId = productId phone256 /\
  productId cheapSameId = productId phone256 /\
  map (fun m => (productId (product m), matchLevel m, confidence m))
      (ProductMatcher.findMatches phone256 [coverSameId; cheapSameId; phone128])
  = [("MOBGTAGQ", MEDIUM, 87%Z); ("MOBGTAGQ", HIGH, 80%Z); ("MOBGTAGQ", LOW, 52%Z)] /\
  ~ (exists m,
        In m (ProductMatcher.findMatches phone256 [coverSameId; cheapSameId; phone128])
        /\ product m = coverSameId /\ matchLevel m = EXACT_ID
        /\ confidence m = 100%Z).
Proof.
  split; [reflexivity |].
  split; [reflexivity |].
  assert (E : map (fun m => (productId (product m), matchLevel m, confidence m))
      (ProductMatcher.findMatches phone256 [coverSameId; cheapSameId; phone128])
  = [("MOBGTAGQ", MEDIUM, 87%Z); ("MOBGTAGQ", HIGH, 80%Z); ("MOBGTAGQ", LOW, 52%Z)])
    by (vm_compute; reflexivity).
  split; [exact E |].
  intros (m & Hin & Hp & Hl & _).
  apply (in_map (fun m => (productId (product m), matchLevel m, confidence m))) in Hin.
  rewrite E, Hl in Hin. cbn in Hin.
  destruct Hin as [H | [H | [H | []]]]; discriminate H.
Qed.

(** C4 (amended).  Let the productId of the source be non-empty, and let a
    candidate with the same productId pass the validation (price at least
    10, title of at least 5 characters) and the accessory filter.  Then the
    legacy matcher returns the first 20 Level 1 results, in input order;
    every result has matchLevel EXACT_ID, confidence 100 and the productId of
    the source; and the candidate is among them whenever at most 20
    candidates qualify, whatever its brand, category or other fields. *)
Theorem C4_exact_id_for_surviving_candidates
        (source : Product) (candidates : list Product) (c : Product) :
  productId source <> "" ->
  In c candidates ->
  productId c = productId source ->
  (10 <= numericPrice c)%Q ->
  (5 <= String.length (title c))%nat ->
  ProductMatcher.filterAccessories source [c] = [c] ->
  ProductMatcher.findMatches source candidates
  = firstn 20 (ProductMatcher.findExactIdMatches source
                 (ProductMatcher.filterAccessories source (validForLegacy candidates)))
  /\ Forall (fun m => matchLevel m = EXACT_ID /\ confidence m = 100%Z
                      /\ productId (product m) = productId source)
            (ProductMatcher.findMatches source candidates)
  /\ ((List.length (ProductMatcher.findExactIdMatches source
                      (ProductMatcher.filterAccessories source
                         (validForLegacy candidates))) <= 20)%nat ->
      In (exactResult c) (ProductMatcher.findMatches source candidates)).
Proof.
  intros Hid Hin Hsame Hprice Htitle Hacc.
  assert (Hex : In (exactResult c)
                   (ProductMatcher.findExactIdMatches source
                      (ProductMatcher.filterAccessories source
                         (validForLegacy candidates)))).
  { apply findExactIdMatches_In; [| exact Hsame].
    apply filterAccessories_In. split; [| exact Hacc].
    apply validForLegacy_In. auto. }
  assert (Hne : ProductMatcher.findExactIdMatches source
                  (ProductMatcher.filterAccessories source
                     (validForLegacy candidates)) <> []).
  { intro E. rewrite E in Hex. destruct Hex. }
  rewrite (findMatches_level1 source candidates Hid Hne).
  split; [reflexivity |]. split.
  - apply firstn_Forall, findExactIdMatches_all.
  - intro Hlen. rewrite firstn_all2 by exact Hlen. exact Hex.
Qed.

(** A candidate from another site with the productId of the source, and with
    another brand, category and price: it is returned as EXACT_ID with
    confidence 100. *)
Lemma C4_witness :
  ProductMatcher.findMatches phone256 [phone128; phoneSameId]
  = [exactResult phoneSameId].
Proof.
  destruct (C4_exact_id_for_surviving_candidates phone256 [phone128; phoneSameId]
              phoneSameId
              ltac:(vm_compute; discriminate)
              ltac:(right; left; reflexivity)
              ltac:(reflexivity)
              ltac:(vm_compute; discriminate)
              ltac:(vm_compute; repeat constructor)
              ltac:(vm_compute; reflexivity)) as (E & _ & _).
  rewrite E. vm_compute. reflexivity.
Defined.

(** ** Maps in insertion order and grouping (claims C5 and C6) *)

Section MapFacts.
Context {V : Type}.

Lemma mapGet_mapSet (m : Dedup.JsMap V) (k k' : string) (v : V) :
  Dedup.mapGet (Dedup.mapSet m k v) k'
  = if (k =? k')%string then Some v else Dedup.mapGet m k'.
Proof.
  unfold Dedup.mapGet.
  induction m as [|[a old] r IH]; simpl.
  - destruct (k =? k')%string; reflexivity.
  - destruct (String.eqb_spec a k) as [-> | Hak]; simpl.
    + destruct (k =? k')%string; reflexivity.
    + destruct (String.eqb_spec a k') as [-> | Hak']; simpl.
      * apply String.eqb_neq in Hak. rewrite String.eqb_sym in Hak.
        now rewrite Hak.
      * exact IH.
Qed.

Lemma mapSet_mapSet (m : Dedup.JsMap V) (k : string) (v v' : V) :
  Dedup.mapSet (Dedup.mapSet m k v) k v' = Dedup.mapSet m k v'.
Proof.
  induction m as [|[a old] r IH]; simpl.
  - now rewrite String.eqb_refl.
  - destruct (String.eqb_spec a k) as [-> | Hak]; simpl.
    + now rewrite String.eqb_refl.
    + apply String.eqb_neq in Hak. now rewrite Hak, IH.
Qed.

Lemma mapHas_keys (m : Dedup.JsMap V) (k : string) :
  Dedup.mapHas m k = true <-> In k (map fst m).
Proof.
  unfold Dedup.mapHas. rewrite existsb_exists. split.
  - intros (e & He & E). apply String.eqb_eq in E. subst k. now apply in_map.
  - intro H. apply in_map_iff in H. destruct H as (e & <- & He).
    exists e. split; [exact He | apply String.eqb_refl].
Qed.

Lemma mapGet_None (m : Dedup.JsMap V) (k : string) :
  Dedup.mapHas m k = false -> Dedup.mapGet m k = None.
Proof.
  unfold Dedup.mapHas, Dedup.mapGet.
  induction m as [|[a old] r IH]; simpl; [reflexivity |].
  destruct (a =? k)%string; simpl; [discriminate | exact IH].
Qed.

Lemma mapSet_keys (m : Dedup.JsMap V) (k : string) (v : V) :
  map fst (Dedup.mapSet m k v)
  = if Dedup.mapHas m k then map fst m else map fst m ++ [k].
Proof.
  unfold Dedup.mapHas.
  induction m as [|[a old] r IH]; simpl; [reflexivity |].
  destruct (a =? k)%string; simpl; [reflexivity |].
  rewrite IH. now destruct (existsb _ r).
Qed.

Lemma mapSet_new (m : Dedup.JsMap V) (k : string) (v : V) :
  ~ In k (map fst m) -> Dedup.mapSet m k v = m ++ [(k, v)].
Proof.
  induction m as [|[a old] r IH]; simpl; [reflexivity |].
  intro H. destruct (String.eqb_spec a k) as [-> | Hak]; [tauto |].
  rewrite IH by tauto. reflexivity.
Qed.

Lemma mapSet_last (m : Dedup.JsMap V) (k : string) (old v : V) :
  ~ In k (map fst m) -> Dedup.mapSet (m ++ [(k, old)]) k v = m ++ [(k, v)].
Proof.
  induction m as [|[a o] r IH]; simpl.
  - now rewrite String.eqb_refl.
  - intro H. destruct (String.eqb_spec a k) as [-> | Hak]; [tauto |].
    rewrite IH by tauto. reflexivity.
Qed.

Lemma mapGet_last (m : Dedup.JsMap V) (k : string) (v : V) :
  ~ In k (map fst m) -> Dedup.mapGet (m ++ [(k, v)]) k = Some v.
Proof.
  unfold Dedup.mapGet.
  induction m as [|[a o] r IH]; simpl.
  - now rewrite String.eqb_refl.
  - intro H. destruct (String.eqb_spec a k) as [-> | Hak]; [tauto |].
    apply IH. tauto.
Qed.

Lemma mapGet_In (m : Dedup.JsMap V) (k : string) (v : V) :
  NoDup (map fst m) -> In (k, v) m -> Dedup.mapGet m k = Some v.
Proof.
  unfold Dedup.mapGet.
  induction m as [|[a o] r IH]; simpl; [tauto |].
  intros Hnd [E | Hin].
  - injection E as -> ->. now rewrite String.eqb_refl.
  - inversion Hnd as [|? ? Hnot Hnd']; subst.
    destruct (String.eqb_spec a k) as [-> | Hak].
    + exfalso. apply Hnot. change k with (fst (k, v)). now apply in_map.
    + now apply IH.
Qed.
End MapFacts.

Lemma fold_left_ext {A B : Type} (f g : A -> B -> A) (l : list B) (a : A) :
  (forall x y, f x y = g x y) -> fold_left f l a = fold_left g l a.
Proof.
  intro H. revert a. induction l as [|y r IH]; intro a; simpl; [reflexivity |].
  now rewrite H, IH.
Qed.

Section GroupingFacts.
Context {A : Type}.
Variable key : A -> string.

Let keyIs (k : string) (x : A) : bool := (key x =? k)%string.

Lemma groupBy_snoc (l : list A) (x : A) :
  groupBy key (l ++ [x]) = pushAt key (groupBy key l) x.
Proof. unfold groupBy. now rewrite fold_left_app. Qed.

(** The group of a key holds the elements of that key, in input order. *)
Lemma groupBy_get (l : list A) (k : string) :
  Dedup.mapGet (groupBy key l) k
  = match filter (keyIs k) l with
    | [] => None
    | vs => Some vs
    end.
Proof.
  induction l as [|x l IH] using rev_ind; [reflexivity |].
  rewrite groupBy_snoc. unfold pushAt. rewrite mapGet_mapSet, filter_app.
  cbn [filter]. unfold keyIs at 2.
  destruct (String.eqb_spec (key x) k) as [-> | Hk].
  - rewrite IH. destruct (filter (keyIs k) l); reflexivity.
  - rewrite IH, app_nil_r. reflexivity.
Qed.

Lemma groupBy_keys_NoDup (l : list A) : NoDup (map fst (groupBy key l)).
Proof.
  induction l as [|x l IH] using rev_ind; [constructor |].
  rewrite groupBy_snoc. unfold pushAt. rewrite mapSet_keys.
  destruct (Dedup.mapHas _ _) eqn:E; [exact IH |].
  apply NoDup_app; [exact IH | repeat constructor; intros [] |].
  intros k Hk [<- | []]. apply mapHas_keys in Hk. congruence.
Qed.

Lemma groupBy_In (l : list A) (k : string) (vs : list A) :
  In (k, vs) (groupBy key l) -> vs <> [] /\ vs = filter (keyIs k) l.
Proof.
  intro H. apply mapGet_In in H; [| apply groupBy_keys_NoDup].
  rewrite groupBy_get in H.
  destruct (filter (keyIs k) l); [discriminate |].
  injection H as <-. split; [discriminate | reflexivity].
Qed.

Lemma groupBy_covers (l : list A) (x : A) :
  In x l -> In (key x) (map fst (groupBy key l)).
Proof.
  intro H. apply mapHas_keys.
  destruct (Dedup.mapHas (groupBy key l) (key x)) eqn:E; [reflexivity |].
  apply mapGet_None in E. rewrite groupBy_get in E.
  assert (Hx : In x (filter (keyIs (key x)) l)).
  { apply filter_In. split; [exact H | apply String.eqb_refl]. }
  destruct (filter (keyIs (key x)) l); [destruct Hx | discriminate].
Qed.

Lemma groupBy_blocksOk (l : list A) : blocksOk key (groupBy key l).
Proof.
  split; [apply groupBy_keys_NoDup |].
  apply Forall_forall. intros [k vs] H. apply groupBy_In in H.
  destruct H as [Hne ->]. split; [exact Hne |].
  apply Forall_forall. intros x Hx. apply filter_In in Hx.
  destruct Hx as [_ Hx]. now apply String.eqb_eq in Hx.
Qed.

(** Pushing the elements of one block. *)
Lemma pushAt_new (g : Dedup.JsMap (list A)) (x : A) :
  ~ In (key x) (map fst g) -> pushAt key g x = g ++ [(key x, [x])].
Proof.
  intro H. unfold pushAt.
  rewrite mapGet_None.
  - now apply mapSet_new.
  - destruct (Dedup.mapHas g (key x)) eqn:E; [| reflexivity].
    apply mapHas_keys in E. tauto.
Qed.

Lemma pushAt_last (g : Dedup.JsMap (list A)) (vs : list A) (x : A) :
  ~ In (key x) (map fst g) ->
  pushAt key (g ++ [(key x, vs)]) x = g ++ [(key x, vs ++ [x])].
Proof.
  intro H. unfold pushAt. rewrite mapGet_last by exact H.
  now apply mapSet_last.
Qed.

Lemma push_block (b : list A) (g : Dedup.JsMap (list A)) (k : string) (vs : list A) :
  Forall (fun x => key x = k) b ->
  ~ In k (map fst g) ->
  fold_left (pushAt key) b (g ++ [(k, vs)]) = g ++ [(k, vs ++ b)].
Proof.
  intros Hb Hk. revert vs.
  induction Hb as [|x b Hx Hb IH]; intro vs; simpl.
  - now rewrite app_nil_r.
  - subst k. rewrite pushAt_last by exact Hk. rewrite IH, <- app_assoc. reflexivity.
Qed.

Lemma push_blocks (blocks g : Dedup.JsMap (list A)) :
  NoDup (map fst g ++ map fst blocks) ->
  Forall (fun e => snd e <> [] /\ Forall (fun x => key x = fst e) (snd e)) blocks ->
  fold_left (pushAt key) (flat_map snd blocks) g = g ++ blocks.
Proof.
  revert g. induction blocks as [|[k b] rest IH]; intros g Hnd Hok; simpl.
  - now rewrite app_nil_r.
  - inversion Hok as [|? ? [Hne Hb] Hrest]; subst. cbn [fst snd] in *.
    destruct b as [|x b]; [congruence |].
    inversion Hb as [|? ? Hx Hb']; subst.
    assert (Hk : ~ In (key x) (map fst g)).
    { intro Hin. apply NoDup_remove_2 in Hnd. apply Hnd.
      apply in_or_app. now left. }
    rewrite fold_left_app. cbn [fold_left].
    rewrite pushAt_new by exact Hk.
    rewrite push_block by assumption. cbn [app].
    rewrite IH.
    + now rewrite <- app_assoc.
    + rewrite map_app, <- app_assoc. exact Hnd.
    + exact Hrest.
Qed.

(** Grouping a list of blocks gives the blocks back. *)
Lemma groupBy_blocks (blocks : Dedup.JsMap (list A)) :
  blocksOk key blocks -> groupBy key (flat_map snd blocks) = blocks.
Proof.
  intros [Hnd Hok]. unfold groupBy. now rewrite push_blocks.
Qed.

(** De-duplication with a [keep] that selects from a non-empty group and
    that is idempotent. *)
Section Keep.
Variable keep : list A -> list A.
Hypothesis keep_selects : forall vs, vs <> [] -> keep vs <> [] /\ incl (keep vs) vs.
Hypothesis keep_idem : forall vs, vs <> [] -> keep (keep vs) = keep vs.

Lemma dedupWith_incl (l : list A) : incl (dedupWith key keep l) l.
Proof.
  intros x Hx. unfold dedupWith in Hx. apply in_flat_map in Hx.
  destruct Hx as ([k vs] & Hg & Hx). cbn [snd] in Hx.
  apply groupBy_In in Hg. destruct Hg as [Hne ->].
  apply keep_selects in Hx; [| exact Hne].
  apply filter_In in Hx. tauto.
Qed.

Lemma dedupWith_nonempty (l : list A) : l <> [] -> dedupWith key keep l <> [].
Proof.
  destruct l as [|x l]; [congruence |]. intros _ E.
  pose proof (groupBy_covers (x :: l) x (or_introl eq_refl)) as Hk.
  apply in_map_iff in Hk. destruct Hk as ([k vs] & _ & Hg).
  pose proof (groupBy_In _ _ _ Hg) as [Hne _].
  destruct (keep_selects vs Hne) as [Hkne _].
  destruct (keep vs) as [|y ys] eqn:K; [congruence |].
  assert (Hy : In y (dedupWith key keep (x :: l))).
  { unfold dedupWith. apply in_flat_map. exists (k, vs). split; [exact Hg |].
    cbn [snd]. rewrite K. now left. }
  rewrite E in Hy. destruct Hy.
Qed.

Lemma kept_blocksOk (blocks : Dedup.JsMap (list A)) :
  blocksOk key blocks ->
  blocksOk key (map (fun e => (fst e, keep (snd e))) blocks).
Proof.
  intros [Hnd Hok]. split.
  - rewrite map_map. cbn [fst]. exact Hnd.
  - apply Forall_forall. intros e He. apply in_map_iff in He.
    destruct He as ([k vs] & <- & Hin). cbn [fst snd].
    rewrite Forall_forall in Hok. destruct (Hok _ Hin) as [Hne Hall].
    cbn [fst snd] in *. destruct (keep_selects vs Hne) as [Hkne Hincl].
    split; [exact Hkne |].
    apply Forall_forall. intros x Hx. rewrite Forall_forall in Hall.
    apply Hall, Hincl, Hx.
Qed.

Theorem dedupWith_idem (l : list A) :
  dedupWith key keep (dedupWith key keep l) = dedupWith key keep l.
Proof.
  pose proof (groupBy_blocksOk l) as Hok.
  assert (E : dedupWith key keep l
              = flat_map snd (map (fun e => (fst e, keep (snd e))) (groupBy key l))).
  { unfold dedupWith. rewrite flat_map_concat_map, flat_map_concat_map, map_map.
    reflexivity. }
  rewrite E at 1. unfold dedupWith at 1.
  rewrite groupBy_blocks by now apply kept_blocksOk.
  unfold dedupWith.
  rewrite !flat_map_concat_map, map_map. f_equal.
  apply map_ext_in. intros [k vs] Hin. cbn [fst snd].
  destruct Hok as [_ Hok]. rewrite Forall_forall in Hok.
  apply keep_idem. exact (proj1 (Hok _ Hin)).
Qed.
End Keep.
End GroupingFacts.

(** ** The two de-duplicators *)

Lemma fold_choose_In {A : Type} (choose : A -> A -> A) :
  (forall a b, choose a b = a \/ choose a b = b) ->
  forall rest first, In (fold_left choose rest first) (first :: rest).
Proof.
  intro Hc. induction rest as [|x r IH]; intro first; simpl; [now left |].
  destruct (IH (choose first x)) as [E | Hin]; [| now right; right].
  rewrite <- E. destruct (Hc first x) as [-> | ->]; [now left | now right; left].
Qed.

(** What is kept of a group: the result of the [reduce], also when the
    group has one element. *)
Lemma keepCheapestMatch_eq (first : MatchResult) (rest : list MatchResult) :
  Dedup.keepCheapestMatch (first :: rest) = [fold_left Dedup.cheaperMatch rest first].
Proof.
  unfold Dedup.keepCheapestMatch, reduce1. destruct rest; reflexivity.
Qed.

Lemma keepCheapestProduct_eq (first : Product) (rest : list Product) :
  Dedup.keepCheapestProduct (first :: rest)
  = [fold_left Dedup.cheaperProduct rest first].
Proof.
  unfold Dedup.keepCheapestProduct, reduce1. destruct rest; reflexivity.
Qed.

Lemma cheaperMatch_choice (a b : MatchResult) :
  Dedup.cheaperMatch a b = a \/ Dedup.cheaperMatch a b = b.
Proof. unfold Dedup.cheaperMatch. destruct (Qltb _ _); auto. Qed.

Lemma cheaperProduct_choice (a b : Product) :
  Dedup.cheaperProduct a b = a \/ Dedup.cheaperProduct a b = b.
Proof. unfold Dedup.cheaperProduct. destruct (strLt _ _); auto. Qed.

Lemma keepCheapestMatch_selects (vs : list MatchResult) :
  vs <> [] -> Dedup.keepCheapestMatch vs <> [] /\ incl (Dedup.keepCheapestMatch vs) vs.
Proof.
  destruct vs as [|first rest]; [congruence |]. intros _.
  rewrite keepCheapestMatch_eq. split; [discriminate |].
  intros x [<- | []]. apply fold_choose_In, cheaperMatch_choice.
Qed.

Lemma keepCheapestMatch_idem (vs : list MatchResult) :
  vs <> [] -> Dedup.keepCheapestMatch (Dedup.keepCheapestMatch vs)
              = Dedup.keepCheapestMatch vs.
Proof.
  destruct vs as [|first rest]; [congruence |]. intros _.
  rewrite keepCheapestMatch_eq. reflexivity.
Qed.

Lemma keepCheapestProduct_selects (vs : list Product) :
  vs <> [] ->
  Dedup.keepCheapestProduct vs <> [] /\ incl (Dedup.keepCheapestProduct vs) vs.
Proof.
  destruct vs as [|first rest]; [congruence |]. intros _.
  rewrite keepCheapestProduct_eq. split; [discriminate |].
  intros x [<- | []]. apply fold_choose_In, cheaperProduct_choice.
Qed.

Lemma keepCheapestProduct_idem (vs : list Product) :
  vs <> [] -> Dedup.keepCheapestProduct (Dedup.keepCheapestProduct vs)
              = Dedup.keepCheapestProduct vs.
Proof.
  destruct vs as [|first rest]; [congruence |]. intros _.
  rewrite keepCheapestProduct_eq. reflexivity.
Qed.

(** The [reduce] of [deduplicateColorVariants] returns a cheapest element. *)
Lemma cheaperMatch_le (a b : MatchResult) :
  (numericPrice (product (Dedup.cheaperMatch a b)) <= numericPrice (product a))%Q
  /\ (numericPrice (product (Dedup.cheaperMatch a b)) <= numericPrice (product b))%Q.
Proof.
  unfold Dedup.cheaperMatch. destruct (Qltb _ _) eqn:E.
  - apply Qltb_true in E. split; [apply Qlt_le_weak; exact E | apply Qle_refl].
  - unfold Qltb in E. apply negb_false_iff in E. apply Qleb_true in E.
    split; [apply Qle_refl | exact E].
Qed.

Lemma fold_cheaperMatch_min (rest : list MatchResult) (first y : MatchResult) :
  In y (first :: rest) ->
  (numericPrice (product (fold_left Dedup.cheaperMatch rest first))
   <= numericPrice (product y))%Q.
Proof.
  revert first y. induction rest as [|x r IH]; intros first y Hy; simpl.
  - destruct Hy as [<- | []]. apply Qle_refl.
  - destruct (cheaperMatch_le first x) as [Ha Hb].
    destruct Hy as [<- | [<- | Hy]].
    + eapply Qle_trans; [apply IH; now left | exact Ha].
    + eapply Qle_trans; [apply IH; now left | exact Hb].
    + apply IH. now right.
Qed.

(** The loops of the sources build the groups of [groupBy]. *)
Lemma addVariant_pushAt (groups : Dedup.JsMap (list MatchResult)) (mt : MatchResult) :
  Dedup.addVariant groups mt
  = pushAt (fun m => Dedup.variantKey (product m)) groups mt.
Proof.
  unfold Dedup.addVariant, pushAt. cbv zeta.
  destruct (Dedup.mapHas groups (Dedup.variantKey (product mt))) eqn:E;
    cbn [negb]; [reflexivity |].
  rewrite mapGet_mapSet, String.eqb_refl, mapSet_mapSet.
  now rewrite (mapGet_None _ _ E).
Qed.

Lemma deduplicateColorVariants_dedupWith (matches : list MatchResult) :
  Dedup.deduplicateColorVariants matches
  = dedupWith (fun m => Dedup.variantKey (product m)) Dedup.keepCheapestMatch matches.
Proof.
  unfold Dedup.deduplicateColorVariants, dedupWith, groupBy. cbv zeta.
  now rewrite (fold_left_ext _ _ _ _ addVariant_pushAt).
Qed.

Lemma deduplicateSiteProducts_dedupWith (products : list Product) :
  Dedup.deduplicateSiteProducts products
  = dedupWith Dedup.normalizeProductKey Dedup.keepCheapestProduct products.
Proof. reflexivity. Qed.

Lemma deduplicateProducts_dedupWith (products : list Product) :
  Dedup.deduplicateProducts products
  = dedupWith site Dedup.deduplicateSiteProducts products.
Proof. reflexivity. Qed.

Lemma deduplicateSiteProducts_selects (vs : list Product) :
  vs <> [] ->
  Dedup.deduplicateSiteProducts vs <> [] /\ incl (Dedup.deduplicateSiteProducts vs) vs.
Proof.
  intro H. rewrite deduplicateSiteProducts_dedupWith. split.
  - apply dedupWith_nonempty; [apply keepCheapestProduct_selects | exact H].
  - apply dedupWith_incl, keepCheapestProduct_selects.
Qed.

Lemma deduplicateSiteProducts_idem (vs : list Product) :
  Dedup.deduplicateSiteProducts (Dedup.deduplicateSiteProducts vs)
  = Dedup.deduplicateSiteProducts vs.
Proof.
  rewrite !deduplicateSiteProducts_dedupWith.
  apply dedupWith_idem;
    [apply keepCheapestProduct_selects | apply keepCheapestProduct_idem].
Qed.

(** [deduplicateColorVariants] does what claim C5 says: every element of its
    result is an element of the input, no element of the input with the same
    site, brand and stripped title is cheaper, and every group of the input
    is represented exactly once. *)
Lemma deduplicateColorVariants_keeps_cheapest (matches : list MatchResult) :
  (forall e, In e (Dedup.deduplicateColorVariants matches) ->
     In e matches /\
     forall x, In x matches ->
       site (product x) = site (product e) ->
       brand (product x) = brand (product e) ->
       Dedup.baseTitleOf (title (product x)) = Dedup.baseTitleOf (title (product e)) ->
       (numericPrice (product e) <= numericPrice (product x))%Q)
  /\ NoDup (map (fun m => Dedup.variantKey (product m))
                (Dedup.deduplicateColorVariants matches))
  /\ (forall x, In x matches ->
        exists e, In e (Dedup.deduplicateColorVariants matches)
                  /\ Dedup.variantKey (product e) = Dedup.variantKey (product x)).
Proof.
  rewrite deduplicateColorVariants_dedupWith. unfold dedupWith.
  set (key := fun m => Dedup.variantKey (product m)).
  assert (Hgrp : forall k vs, In (k, vs) (groupBy key matches) ->
            exists first rest,
              vs = first :: rest /\
              Dedup.keepCheapestMatch vs = [fold_left Dedup.cheaperMatch rest first] /\
              vs = filter (fun x => (key x =? k)%string) matches).
  { intros k vs H. apply groupBy_In in H. destruct H as [Hne Hvs].
    destruct vs as [|first rest]; [congruence |].
    exists first, rest. split; [reflexivity |].
    split; [apply keepCheapestMatch_eq | exact Hvs]. }
  assert (Hkey : forall k vs e, In (k, vs) (groupBy key matches) ->
            In e (Dedup.keepCheapestMatch vs) ->
            In e vs /\ key e = k /\ In e matches).
  { intros k vs e H He. destruct (Hgrp _ _ H) as (first & rest & E1 & E2 & E3).
    rewrite E2 in He. destruct He as [<- | []].
    assert (Hin : In (fold_left Dedup.cheaperMatch rest first) vs).
    { rewrite E1. apply fold_choose_In, cheaperMatch_choice. }
    split; [exact Hin |]. rewrite E3 in Hin. apply filter_In in Hin.
    destruct Hin as [Hm Hk]. apply String.eqb_eq in Hk. tauto. }
  split; [| split].
  - intros e He. apply in_flat_map in He. destruct He as ([k vs] & Hg & He).
    cbn [snd] in He. destruct (Hkey _ _ _ Hg He) as (Hin & Hk & Hm).
    split; [exact Hm |]. intros x Hx Hs Hb Ht.
    destruct (Hgrp _ _ Hg) as (first & rest & E1 & E2 & E3).
    rewrite E2 in He. destruct He as [<- | []].
    apply fold_cheaperMatch_min. rewrite <- E1, E3. apply filter_In.
    split; [exact Hx |]. apply String.eqb_eq. rewrite <- Hk.
    unfold key, Dedup.variantKey. now rewrite Hs, Hb, Ht.
  - assert (E : map key (flat_map (fun e => Dedup.keepCheapestMatch (snd e))
                                  (groupBy key matches))
                = map fst (groupBy key matches)).
    { pose proof Hgrp as Hg. pose proof Hkey as Hk.
      induction (groupBy key matches) as [|[k vs] g IH]; [reflexivity |].
      cbn [flat_map map fst snd]. rewrite map_app.
      rewrite IH by (intros; (eapply Hg || eapply Hk); try right; eassumption).
      destruct (Hg k vs (or_introl eq_refl)) as (first & rest & E1 & E2 & E3).
      rewrite E2. cbn [map app]. f_equal.
      apply (Hk k vs); [now left | rewrite E2; now left]. }
    rewrite E. apply groupBy_keys_NoDup.
  - intros x Hx. pose proof (groupBy_covers key matches x Hx) as Hc.
    apply in_map_iff in Hc. destruct Hc as ([k vs] & Ek & Hg). cbn [fst] in Ek.
    destruct (Hgrp _ _ Hg) as (first & rest & E1 & E2 & E3).
    exists (fold_left Dedup.cheaperMatch rest first).
    assert (He : In (fold_left Dedup.cheaperMatch rest first)
                    (Dedup.keepCheapestMatch vs)) by (rewrite E2; now left).
    split.
    + apply in_flat_map. exists (k, vs). split; [exact Hg | exact He].
    + destruct (Hkey _ _ _ Hg He) as (_ & Hk & _). fold (key x).
      unfold key in Hk. rewrite Hk. exact Ek.
Qed.

(** C5 (the code departs from the claim).  [deduplicateSiteProducts] selects
    with [p.price < min.price], a comparison of the display strings.  Two
    colour variants of one product on one site, at 999 and at 1,099: the
    text of the higher price is the smaller string, so the variant at 1,099
    is kept and the cheaper one is dropped. *)
Theorem C5_site_dedup_keeps_dearer_variant :
  site earbudsBlack = site earbudsWhite /\
  Dedup.normalizeProductKey earbudsBlack = Dedup.normalizeProductKey earbudsWhite /\
  (numericPrice earbudsBlack < numericPrice earbudsWhite)%Q /\
  strLt (price earbudsWhite) (price earbudsBlack) = true /\
  Dedup.deduplicateSiteProducts [earbudsBlack; earbudsWhite] = [earbudsWhite] /\
  Dedup.deduplicateProducts [earbudsBlack; earbudsWhite] = [earbudsWhite] /\
  Dedup.deduplicateProducts [earbudsWhite; earbudsBlack] = [earbudsWhite].
Proof. repeat split; vm_compute; reflexivity. Qed.

(** C6.  Both de-duplicators are idempotent: applied to their own result
    they return it unchanged, same elements in the same order. *)
Theorem C6_deduplication_idempotent :
  (forall matches : list MatchResult,
      Dedup.deduplicateColorVariants (Dedup.deduplicateColorVariants matches)
      = Dedup.deduplicateColorVariants matches)
  /\ (forall products : list Product,
         Dedup.deduplicateProducts (Dedup.deduplicateProducts products)
         = Dedup.deduplicateProducts products).
Proof.
  split.
  - intro matches. rewrite !deduplicateColorVariants_dedupWith.
    apply dedupWith_idem;
      [apply keepCheapestMatch_selects | apply keepCheapestMatch_idem].
  - intro products. rewrite !deduplicateProducts_dedupWith.
    apply dedupWith_idem;
      [apply deduplicateSiteProducts_selects
      | intros vs _; apply deduplicateSiteProducts_idem].
Qed.

(* ================================================================== *)
(** * Further properties of the sources *)
(* ================================================================== *)

Import Views.

(** The further definitions on examples. *)
Example brand_tools_examples :
  map BrandTools.extractAndNormalizeBrand
      ["Apple iPhone 15"; "New Galaxy S23"; "skullcandy crusher"; "1 x"; ""; "mi 11x"]
  = ["Apple"; "Samsung"; "Skullcandy"; ""; ""; "Xiaomi"]
  /\ BrandTools.getBrandVariations "iphone"
     = ["Apple"; "iphone"; "ipad"; "macbook"; "airpods"; "apple"]
  /\ BrandTools.getBrandVariations "skullcandy" = ["skullcandy"; "Skullcandy"].
Proof.
  split; [vm_compute; reflexivity |].
  split; [vm_compute; reflexivity |].
  vm_compute. reflexivity.
Qed.

Example scraper_examples :
  map ProductText.detectCategory
      ["iPhone 15 case"; "Gaming laptop"; "RTX GeForce"; "ipad"; "blue shirt";
       "face cream"; "table"]
  = ["electronics-phone"; "electronics-laptop"; "electronics-gpu";
     "electronics-tablet"; "fashion"; "beauty"; "general"]
  /\ map ProductText.parsePrice
         ["INR 1,39,900"; "Rs. 1,39,900"; "Rs. 999"; "$12.50"; "12.49"; "abc"; "";
          "..."; "1.2.3"; "5."; ".5"]
     = [139900; 0; 1; 13; 12; 0; 0; 0; 1; 5; 1]%Z.
Proof. split; vm_compute; reflexivity. Qed.

Example similar_products_example :
  map (fun m => (title (product m), confidence m, matchReason m))
      (SimilarProducts.findSimilarProducts shoeRunning [shoeBlack; shoeWhite; nikeCap])
  = [ ("Nike Revolution Shoe black", 55%Z, "Same brand, category & color (black)");
      ("Nike Revolution Shoe white", 35%Z, "Same brand & category (fashion)") ].
Proof. vm_compute. reflexivity. Qed.

(** The three stages of the comparison: the weighted scorer, the legacy
    matcher, the similar products. *)
Example comparison_examples :
  map (fun m => (title (product m), confidence m, matchLevel m))
      (Comparison.startComparison phone256 [phone128; phone256b; sandal])
  = [ ("Apple iPhone 15 Pro Max (256 GB) - Blue Titanium", 91%Z, EXACT);
      ("Apple iPhone 15 Pro 128GB - Blue", 78%Z, MEDIUM) ]
  /\ map (fun m => (title (product m), confidence m, matchLevel m))
         (Comparison.startComparison sandal [slipper; phone256b])
     = [ ("Comfort slipper for men brown", 31%Z, LOW) ]
  /\ map (fun m => (title (product m), confidence m, matchLevel m))
         (Comparison.startComparison shoeRunning [nikeTee; nikeCap])
     = [ ("Nike Dri-FIT cotton tee white", 35%Z, SIMILAR) ].
Proof.
  split; [vm_compute; reflexivity |].
  split; [vm_compute; reflexivity |].
  vm_compute. reflexivity.
Qed.

Example price_validation_examples :
  (PriceValidation.calculatePriceConfidence 100 105 == 1)%Q
  /\ (PriceValidation.calculatePriceConfidence 100 20 == 3 # 10)%Q
  /\ (PriceValidation.calculatePriceConfidence 100 250 == 4 # 10)%Q
  /\ (PriceValidation.calculatePriceConfidence 100 150 == 1 # 2)%Q
  /\ PriceValidation.reason
       (PriceValidation.validatePrice 100 20 PriceValidation.defaultTolerance)
     = Some "Suspiciously cheap (20% of original price)".
Proof.
  split; [vm_compute; reflexivity |].
  split; [vm_compute; reflexivity |].
  split; [vm_compute; reflexivity |].
  split; [vm_compute; reflexivity |].
  vm_compute. reflexivity.
Qed.

(** A cache of capacity 2: two entries, a hit that moves its key to the end,
    an expired entry, and an eviction. *)
Example cache_example :
  let c1 := LruCache.set 0 (LruCache.set 0 (LruCache.newCache string 2 1000)
                                         "a" "A" None)
                         "b" "B" (Some 5%Z) in
  map fst (LruCache.cache c1) = ["a"; "b"]
  /\ fst (LruCache.get 3 c1 "a") = Some "A"
  /\ map fst (LruCache.cache (snd (LruCache.get 3 c1 "a"))) = ["b"; "a"]
  /\ fst (LruCache.get 6 c1 "b") = None
  /\ map fst (LruCache.cache (LruCache.set 7 (snd (LruCache.get 3 c1 "a")) "c" "C" None))
     = ["a"; "c"].
Proof.
  cbv zeta.
  split; [vm_compute; reflexivity |].
  split; [vm_compute; reflexivity |].
  split; [vm_compute; reflexivity |].
  split; [vm_compute; reflexivity |].
  vm_compute. reflexivity.
Qed.

(** ** Replacing the characters of a class *)

Section ReplaceClass.
Import Regex.
Variable p : ascii -> bool.
Variable rep : string.

Lemma matchAt_Chr (inp : list ascii) (i : nat) :
  matchAt inp (Chr p) i
  = match nth_error inp i with
    | Some ch => if p ch then Some (S i, []) else None
    | None => None
    end.
Proof. reflexivity. Qed.

Lemma scan_ge (inp : list ascii) (r : re) (fuel i i' j : nat) (c : caps) :
  scan inp r fuel i = Some (i', j, c) -> (i <= i')%nat.
Proof.
  revert i. induction fuel as [|f IH]; intro i; simpl;
    destruct (matchAt inp r i) as [[j0 c0]|].
  - intros [= <- _ _]. lia.
  - discriminate.
  - intros [= <- _ _]. lia.
  - intro H. apply IH in H. lia.
Qed.

Lemma exec_ge (inp : list ascii) (r : re) (from i j : nat) (c : caps) :
  exec inp r from = Some (i, j, c) -> (from <= i)%nat.
Proof.
  unfold exec. destruct (from <=? List.length inp)%nat; [| discriminate].
  apply scan_ge.
Qed.

Lemma sub_empty (inp : list ascii) (i : nat) : sub inp i i = "".
Proof. unfold sub. now rewrite Nat.sub_diag. Qed.

Lemma skipn_prefix (pre l : list ascii) : skipn (List.length pre) (pre ++ l) = l.
Proof. induction pre as [|x r IH]; [reflexivity | exact IH]. Qed.

Lemma skipn_prefix_S (pre l : list ascii) (c : ascii) :
  skipn (S (List.length pre)) (pre ++ c :: l) = l.
Proof. induction pre as [|x r IH]; [reflexivity | exact IH]. Qed.

Lemma sub_cons (pre suf : list ascii) (c : ascii) (j : nat) :
  (List.length pre < j)%nat ->
  sub (pre ++ c :: suf) (List.length pre) j
  = String c (sub (pre ++ c :: suf) (S (List.length pre)) j).
Proof.
  intro H. unfold sub. rewrite skipn_prefix, skipn_prefix_S.
  replace (j - List.length pre)%nat with (S (j - S (List.length pre))) by lia.
  reflexivity.
Qed.

Lemma stitch_shift (pre suf : list ascii) (c : ascii) (ms : list (nat * nat)) :
  match ms with
  | [] => True
  | (i, _) :: _ => (List.length pre < i)%nat
  end ->
  stitch (pre ++ c :: suf) rep ms (List.length pre)
  = String c (stitch (pre ++ c :: suf) rep ms (S (List.length pre))).
Proof.
  destruct ms as [|[i j] rest]; intro H; cbn [stitch].
  - apply sub_cons. rewrite length_app. simpl. lia.
  - now rewrite sub_cons.
Qed.

Lemma exec_Chr_skip (pre suf : list ascii) (c : ascii) :
  p c = false ->
  exec (pre ++ c :: suf) (Chr p) (List.length pre)
  = exec (pre ++ c :: suf) (Chr p) (S (List.length pre)).
Proof.
  intro Hc. unfold exec. rewrite !length_app. cbn [List.length].
  replace (List.length pre <=? List.length pre + S (List.length suf))%nat with true
    by (symmetry; apply Nat.leb_le; lia).
  replace (S (List.length pre) <=? List.length pre + S (List.length suf))%nat with true
    by (symmetry; apply Nat.leb_le; lia).
  replace (List.length pre + S (List.length suf) - List.length pre)%nat
    with (S (List.length suf)) by lia.
  replace (List.length pre + S (List.length suf) - S (List.length pre))%nat
    with (List.length suf) by lia.
  cbn [scan]. rewrite matchAt_Chr, nth_error_app2, Nat.sub_diag by lia.
  cbn [nth_error]. now rewrite Hc.
Qed.

Lemma exec_Chr_hit (pre suf : list ascii) (c : ascii) :
  p c = true ->
  exec (pre ++ c :: suf) (Chr p) (List.length pre)
  = Some (List.length pre, S (List.length pre), []).
Proof.
  intro Hc. unfold exec. rewrite !length_app. cbn [List.length].
  replace (List.length pre <=? List.length pre + S (List.length suf))%nat with true
    by (symmetry; apply Nat.leb_le; lia).
  replace (List.length pre + S (List.length suf) - List.length pre)%nat
    with (S (List.length suf)) by lia.
  cbn [scan]. rewrite matchAt_Chr, nth_error_app2, Nat.sub_diag by lia.
  cbn [nth_error]. now rewrite Hc.
Qed.

Lemma exec_Chr_end (inp : list ascii) :
  exec inp (Chr p) (List.length inp) = None.
Proof.
  unfold exec. rewrite Nat.leb_refl, Nat.sub_diag. cbn [scan].
  rewrite matchAt_Chr.
  replace (nth_error inp (List.length inp)) with (@None ascii); [reflexivity |].
  symmetry. apply nth_error_None. lia.
Qed.

Lemma stitch_Chr (suf pre : list ascii) (fuel : nat) :
  (List.length suf < fuel)%nat ->
  stitch (pre ++ suf) rep (allFrom (pre ++ suf) (Chr p) fuel (List.length pre))
         (List.length pre)
  = substChars p rep (string_of_list_ascii suf).
Proof.
  revert pre fuel. induction suf as [|c suf IH]; intros pre fuel Hf.
  - destruct fuel as [|f]; [simpl in Hf; lia |].
    rewrite app_nil_r. cbn [allFrom]. rewrite exec_Chr_end.
    cbn [stitch]. apply sub_empty.
  - destruct fuel as [|f]; [simpl in Hf; lia |].
    cbn [string_of_list_ascii substChars].
    assert (Hnext : (pre ++ c :: suf = (pre ++ [c]) ++ suf)%list)
      by (now rewrite <- app_assoc).
    assert (Hlen : S (List.length pre) = List.length (pre ++ [c]))
      by (rewrite length_app; simpl; lia).
    destruct (p c) eqn:Hc.
    + cbn [allFrom]. rewrite (exec_Chr_hit pre suf c Hc).
      replace (S (List.length pre) =? List.length pre)%nat with false
        by (symmetry; apply Nat.eqb_neq; lia).
      cbn [stitch]. rewrite sub_empty. cbn [String.append].
      rewrite Hnext, Hlen. rewrite IH by (simpl in Hf; lia). reflexivity.
    + assert (Hall : allFrom (pre ++ c :: suf) (Chr p) (S f) (List.length pre)
                     = allFrom (pre ++ c :: suf) (Chr p) (S f) (S (List.length pre))).
      { cbn [allFrom]. now rewrite (exec_Chr_skip pre suf c Hc). }
      rewrite Hall, stitch_shift.
      * cbn [String.append]. f_equal.
        rewrite Hnext, Hlen. apply IH. simpl in Hf. lia.
      * cbn [allFrom].
        destruct (exec (pre ++ c :: suf) (Chr p) (S (List.length pre)))
          as [[[i j] cs]|] eqn:E; [| exact I].
        apply exec_ge in E. lia.
Qed.

(** Replacing globally a one-character class replaces every character of
    the class and keeps the others. *)
Lemma replaceAll_Chr (str : string) :
  replaceAll (Chr p) rep str = substChars p rep str.
Proof.
  unfold replaceAll, all.
  rewrite <- (string_of_list_ascii_of_string str) at 4.
  apply (stitch_Chr (list_ascii_of_string str) [] (S _)). lia.
Qed.
End ReplaceClass.

Lemma substChars_empty (p : ascii -> bool) (str : string) :
  substChars p "" str = keepChars (fun c => negb (p c)) str.
Proof.
  induction str as [|c r IH]; [reflexivity |].
  cbn [substChars keepChars]. destruct (p c); cbn [negb String.append];
    now rewrite IH.
Qed.

Lemma keepChars_all (q : ascii -> bool) (str : string) :
  allChars q (keepChars q str) = true.
Proof.
  induction str as [|c r IH]; [reflexivity |].
  cbn [keepChars]. destruct (q c) eqn:E; [| exact IH].
  cbn [allChars]. now rewrite E, IH.
Qed.

Lemma keepChars_id (q : ascii -> bool) (str : string) :
  allChars q str = true -> keepChars q str = str.
Proof.
  induction str as [|c r IH]; [reflexivity |].
  cbn [allChars keepChars]. intro H. apply andb_prop in H. destruct H as [Hc Hr].
  now rewrite Hc, IH.
Qed.

Lemma allChars_weaken (q q' : ascii -> bool) (str : string) :
  (forall c, q c = true -> q' c = true) ->
  allChars q str = true -> allChars q' str = true.
Proof.
  intro Hq. induction str as [|c r IH]; [reflexivity |].
  cbn [allChars]. intro H. apply andb_prop in H. destruct H as [Hc Hr].
  now rewrite (Hq c Hc), IH.
Qed.

Lemma keepChars_ext (q q' : ascii -> bool) (str : string) :
  (forall c, q c = q' c) -> keepChars q str = keepChars q' str.
Proof.
  intro H. induction str as [|c r IH]; [reflexivity |].
  cbn [keepChars]. now rewrite H, IH.
Qed.

(** ** Sets of tokens and the Jaccard overlap *)

Lemma arrIncludes_In (l : list string) (x : string) :
  arrIncludes l x = true <-> In x l.
Proof.
  unfold arrIncludes. rewrite existsb_exists. split.
  - intros (y & Hy & E). apply String.eqb_eq in E. now subst.
  - intro H. exists x. split; [exact H | apply String.eqb_refl].
Qed.

Lemma newSet_In (l : list string) (x : string) : In x (newSet l) <-> In x l.
Proof.
  induction l as [|y r IH]; simpl; [tauto |].
  rewrite filter_In, IH. split.
  - intros [-> | [H _]]; auto.
  - intros [-> | H]; [now left |].
    destruct (String.eqb_spec y x) as [-> | N]; [now left | right].
    split; [exact H | reflexivity].
Qed.

Lemma newSet_NoDup (l : list string) : NoDup (newSet l).
Proof.
  induction l as [|y r IH]; simpl; constructor.
  - rewrite filter_In. intros [_ H]. now rewrite String.eqb_refl in H.
  - now apply NoDup_filter.
Qed.

Lemma newSet_NoDup_id (l : list string) : NoDup l -> newSet l = l.
Proof.
  induction 1 as [|y r Hy Hr IH]; simpl; [reflexivity |].
  rewrite IH. f_equal. apply filter_all_true.
  apply Forall_forall. intros z Hz.
  destruct (String.eqb_spec y z) as [-> | N]; [contradiction | reflexivity].
Qed.

(** Two duplicate-free lists with the same elements have the same length. *)
Lemma same_elements_length (a b : list string) :
  NoDup a -> NoDup b -> (forall x, In x a <-> In x b) ->
  List.length a = List.length b.
Proof.
  intros Ha Hb H. apply Nat.le_antisymm; apply NoDup_incl_length; try assumption;
    intros x Hx; now apply H.
Qed.

Lemma newSet_length_ext (a b : list string) :
  (forall x, In x a <-> In x b) ->
  List.length (newSet a) = List.length (newSet b).
Proof.
  intro H. apply same_elements_length; try apply newSet_NoDup.
  intro x. now rewrite !newSet_In.
Qed.


Lemma calculateTokenOverlap_sizes (t1 t2 : list string) :
  t1 <> [] -> t2 <> [] ->
  SmartMatcher.calculateTokenOverlap t1 t2
  = (SmartMatcher.ofNat (interSize t1 t2) / SmartMatcher.ofNat (unionSize t1 t2))%Q.
Proof.
  intros H1 H2. unfold SmartMatcher.calculateTokenOverlap.
  destruct t1; [contradiction |]. destruct t2; [contradiction |]. reflexivity.
Qed.

Lemma inter_In (t1 t2 : list string) (x : string) :
  In x (newSet (filter (fun x => arrIncludes (newSet t2) x) (newSet t1)))
  <-> In x t1 /\ In x t2.
Proof.
  rewrite newSet_In, filter_In, arrIncludes_In, !newSet_In. tauto.
Qed.

Lemma union_In (t1 t2 : list string) (x : string) :
  In x (newSet (newSet t1 ++ newSet t2)) <-> In x t1 \/ In x t2.
Proof. rewrite newSet_In, in_app_iff, !newSet_In. tauto. Qed.

Lemma interSize_le_unionSize (t1 t2 : list string) :
  (interSize t1 t2 <= unionSize t1 t2)%nat.
Proof.
  apply NoDup_incl_length; [apply newSet_NoDup |].
  intros x Hx. apply inter_In in Hx. apply union_In. tauto.
Qed.

Lemma unionSize_pos (t1 t2 : list string) : t1 <> [] -> (0 < unionSize t1 t2)%nat.
Proof.
  intro H. destruct t1 as [|x r]; [contradiction |].
  assert (Hx : In x (newSet (newSet (x :: r) ++ newSet t2)))
    by (apply union_In; left; now left).
  unfold unionSize. destruct (newSet (newSet (x :: r) ++ newSet t2));
    [destruct Hx | simpl; lia].
Qed.

Lemma interSize_sym (t1 t2 : list string) : interSize t1 t2 = interSize t2 t1.
Proof.
  apply same_elements_length; try apply newSet_NoDup.
  intro x. rewrite !inter_In. tauto.
Qed.

Lemma unionSize_sym (t1 t2 : list string) : unionSize t1 t2 = unionSize t2 t1.
Proof.
  apply same_elements_length; try apply newSet_NoDup.
  intro x. rewrite !union_In. tauto.
Qed.

Section Ratios.
Open Scope Q_scope.

Lemma ofNat_pos (n : nat) : (0 < n)%nat -> 0 < SmartMatcher.ofNat n.
Proof. intro H. unfold SmartMatcher.ofNat, Qlt. simpl. lia. Qed.

Lemma ofNat_le (a b : nat) : (a <= b)%nat -> SmartMatcher.ofNat a <= SmartMatcher.ofNat b.
Proof. intro H. unfold SmartMatcher.ofNat, Qle. simpl. lia. Qed.

Lemma ofNat_inj (a b : nat) : SmartMatcher.ofNat a == SmartMatcher.ofNat b -> a = b.
Proof. unfold SmartMatcher.ofNat, Qeq. simpl. lia. Qed.

Lemma ratio_le_1 (a b : nat) :
  (a <= b)%nat -> SmartMatcher.ofNat a / SmartMatcher.ofNat b <= 1.
Proof.
  intro H. destruct b as [|b].
  - replace a with 0%nat by lia. vm_compute. discriminate.
  - apply Qle_shift_div_r; [apply ofNat_pos; lia |].
    rewrite Qmult_1_l. now apply ofNat_le.
Qed.

Lemma ratio_eq_1 (a b : nat) :
  (0 < b)%nat -> (SmartMatcher.ofNat a / SmartMatcher.ofNat b == 1 <-> a = b).
Proof.
  intro Hb. pose proof (ofNat_pos b Hb) as Hp.
  assert (Hn : ~ SmartMatcher.ofNat b == 0) by (intro E; rewrite E in Hp; discriminate).
  split.
  - intro E. apply ofNat_inj.
    transitivity (SmartMatcher.ofNat b * (SmartMatcher.ofNat a / SmartMatcher.ofNat b)).
    + symmetry. now apply Qmult_div_r.
    + rewrite E. ring.
  - intros ->. now apply Qmult_inv_r.
Qed.

Lemma ratio_eq_0 (a b : nat) :
  (0 < b)%nat -> (SmartMatcher.ofNat a / SmartMatcher.ofNat b == 0 <-> a = 0%nat).
Proof.
  intro Hb. pose proof (ofNat_pos b Hb) as Hp.
  assert (Hn : ~ SmartMatcher.ofNat b == 0) by (intro E; rewrite E in Hp; discriminate).
  split.
  - intro E. apply ofNat_inj.
    transitivity (SmartMatcher.ofNat b * (SmartMatcher.ofNat a / SmartMatcher.ofNat b)).
    + symmetry. now apply Qmult_div_r.
    + rewrite E. change (SmartMatcher.ofNat 0) with 0. ring.
  - intros ->. change (SmartMatcher.ofNat 0) with 0. unfold Qdiv. ring.
Qed.
End Ratios.

Lemma calculateTokenOverlap_le_1 (t1 t2 : list string) :
  (SmartMatcher.calculateTokenOverlap t1 t2 <= 1)%Q.
Proof.
  destruct t1 as [|a r1]; [discriminate |].
  destruct t2 as [|b r2]; [discriminate |].
  rewrite calculateTokenOverlap_sizes by discriminate.
  apply ratio_le_1, interSize_le_unionSize.
Qed.

Lemma calculateTokenOverlap_sym (t1 t2 : list string) :
  SmartMatcher.calculateTokenOverlap t1 t2 = SmartMatcher.calculateTokenOverlap t2 t1.
Proof.
  destruct t1 as [|a r1]; destruct t2 as [|b r2]; try reflexivity.
  rewrite !calculateTokenOverlap_sizes by discriminate.
  now rewrite interSize_sym, unionSize_sym.
Qed.

(** X1.  The Jaccard overlap of two token arrays lies between 0 and 1 and
    does not depend on the order of its two arguments. *)
Theorem calculateTokenOverlap_range_sym (t1 t2 : list string) :
  (0 <= SmartMatcher.calculateTokenOverlap t1 t2 <= 1)%Q
  /\ SmartMatcher.calculateTokenOverlap t1 t2 = SmartMatcher.calculateTokenOverlap t2 t1.
Proof.
  split; [split |].
  - apply calculateTokenOverlap_nonneg.
  - apply calculateTokenOverlap_le_1.
  - apply calculateTokenOverlap_sym.
Qed.

(** X2.  For a non-empty first array the overlap is 1 exactly when both
    arrays hold the same tokens (order and repetitions are immaterial), and
    it is 0 exactly when they share no token. *)
Theorem calculateTokenOverlap_extremes (t1 t2 : list string) (H1 : t1 <> []) :
  ((SmartMatcher.calculateTokenOverlap t1 t2 == 1)%Q
   <-> (forall x, In x t1 <-> In x t2))
  /\ ((SmartMatcher.calculateTokenOverlap t1 t2 == 0)%Q
      <-> (forall x, In x t1 -> ~ In x t2)).
Proof.
  destruct t2 as [|b r2].
  - assert (E : SmartMatcher.calculateTokenOverlap t1 [] = 0%Q)
      by (unfold SmartMatcher.calculateTokenOverlap; simpl;
          now rewrite Bool.orb_true_r).
    rewrite E. split; split; try (intro; discriminate).
    + intro H. destruct t1 as [|a r1]; [contradiction |].
      destruct (proj1 (H a) (or_introl eq_refl)).
    + intros _ x _ [].
    + reflexivity.
  - set (t2 := b :: r2).
    rewrite calculateTokenOverlap_sizes by (try assumption; discriminate).
    pose proof (unionSize_pos t1 t2 H1) as Hpos.
    rewrite (ratio_eq_1 _ _ Hpos), (ratio_eq_0 _ _ Hpos). split; split.
    + intros E x.
      assert (Hsub : incl (newSet (newSet t1 ++ newSet t2))
                          (newSet (filter (fun x => arrIncludes (newSet t2) x)
                                          (newSet t1)))).
      { apply NoDup_length_incl; [apply newSet_NoDup | |].
        - unfold interSize, unionSize in E. rewrite E. apply Nat.le_refl.
        - intros y Hy. apply inter_In in Hy. apply union_In. tauto. }
      split; intro Hx.
      * assert (Hu : In x (newSet (newSet t1 ++ newSet t2)))
          by (apply union_In; now left).
        apply Hsub, inter_In in Hu. tauto.
      * assert (Hu : In x (newSet (newSet t1 ++ newSet t2)))
          by (apply union_In; now right).
        apply Hsub, inter_In in Hu. tauto.
    + intro H. apply same_elements_length; try apply newSet_NoDup.
      intro x. rewrite inter_In, union_In, (H x). tauto.
    + intros E x Hx Hx'. unfold interSize in E.
      apply length_zero_iff_nil in E.
      assert (Hi : In x (newSet (filter (fun x => arrIncludes (newSet t2) x)
                                        (newSet t1))))
        by (apply inter_In; tauto).
      rewrite E in Hi. destruct Hi.
    + intro H. unfold interSize.
      destruct (newSet (filter _ (newSet t1))) as [|x r] eqn:E; [reflexivity |].
      assert (Hi : In x (newSet (filter (fun x => arrIncludes (newSet t2) x)
                                        (newSet t1))))
        by (rewrite E; now left).
      apply inter_In in Hi. destruct (H x); tauto.
Qed.

(** ["dell laptop"] against the same tokens in another order, and against
    other tokens. *)
Lemma calculateTokenOverlap_extremes_witness :
  (SmartMatcher.calculateTokenOverlap ["dell"; "laptop"] ["laptop"; "dell"; "dell"] == 1)%Q
  /\ (SmartMatcher.calculateTokenOverlap ["dell"; "laptop"] ["apple"; "phone"] == 0)%Q.
Proof.
  assert (N : ["dell"; "laptop"] <> []) by discriminate.
  split.
  - apply (proj1 (calculateTokenOverlap_extremes
                    ["dell"; "laptop"] ["laptop"; "dell"; "dell"] N)).
    intro x. simpl. tauto.
  - apply (proj2 (calculateTokenOverlap_extremes
                    ["dell"; "laptop"] ["apple"; "phone"] N)).
    intros x [<- | [<- | []]] [E | [E | []]]; discriminate.
Defined.

(** ** The edit distance and the string similarity *)

Lemma levenshteinTable_rows (s1 s2 : string) :
  SmartMatcher.levenshteinTable s1 s2
  = map (fun r => rowUpTo s1 s2 r (String.length s1)) (seq 0 (S (String.length s2))).
Proof.
  rewrite levenshteinTable_is. unfold tableAt.
  rewrite Nat.sub_diag. apply app_nil_r.
Qed.

Lemma levenshteinTable_cell (s1 s2 : string) (i j : nat) :
  (i <= String.length s2)%nat -> (j <= String.length s1)%nat ->
  SmartMatcher.cell (SmartMatcher.levenshteinTable s1 s2) i j = levRec s1 s2 i j.
Proof.
  intros Hi Hj. rewrite levenshteinTable_rows. unfold SmartMatcher.cell.
  rewrite (nth_indep _ [] (rowUpTo s1 s2 0 (String.length s1)))
    by (rewrite length_map, length_seq; lia).
  rewrite (map_nth (fun r => rowUpTo s1 s2 r (String.length s1))), seq_nth by lia.
  now apply rowUpTo_nth.
Qed.

(** X3.  The table that the loops of [levenshteinDistance] fill has one row
    per prefix of the second string and one cell per prefix of the first;
    its first row and first column count up from 0, and every other cell is
    the diagonal neighbour where the two characters agree and otherwise one
    more than the least of its three neighbours. *)
Theorem levenshteinTable_recurrence (s1 s2 : string) :
  List.length (SmartMatcher.levenshteinTable s1 s2) = S (String.length s2)
  /\ Forall (fun row => List.length row = S (String.length s1))
            (SmartMatcher.levenshteinTable s1 s2)
  /\ (forall j, (j <= String.length s1)%nat ->
        SmartMatcher.cell (SmartMatcher.levenshteinTable s1 s2) 0 j = j)
  /\ (forall i, (i <= String.length s2)%nat ->
        SmartMatcher.cell (SmartMatcher.levenshteinTable s1 s2) i 0 = i)
  /\ (forall i j, (i < String.length s2)%nat -> (j < String.length s1)%nat ->
        SmartMatcher.cell (SmartMatcher.levenshteinTable s1 s2) (S i) (S j)
        = if SmartMatcher.sameChar (SmartMatcher.charAt s2 i) (SmartMatcher.charAt s1 j)
          then SmartMatcher.cell (SmartMatcher.levenshteinTable s1 s2) i j
          else SmartMatcher.min3
                 (SmartMatcher.cell (SmartMatcher.levenshteinTable s1 s2) i j + 1)
                 (SmartMatcher.cell (SmartMatcher.levenshteinTable s1 s2) (S i) j + 1)
                 (SmartMatcher.cell (SmartMatcher.levenshteinTable s1 s2) i (S j) + 1)).
Proof.
  split; [| split; [| split; [| split]]].
  - rewrite levenshteinTable_rows. now rewrite length_map, length_seq.
  - rewrite levenshteinTable_rows. apply Forall_forall. intros row Hrow.
    apply in_map_iff in Hrow. destruct Hrow as (r & <- & _).
    apply rowUpTo_length.
  - intros j Hj. rewrite levenshteinTable_cell by lia. reflexivity.
  - intros i Hi. rewrite levenshteinTable_cell by lia. apply levRec_col0.
  - intros i j Hi Hj. rewrite !levenshteinTable_cell by lia. apply levRec_step.
Qed.

Lemma sameChar_sym (a b : option ascii) :
  SmartMatcher.sameChar a b = SmartMatcher.sameChar b a.
Proof.
  destruct a as [x|], b as [y|]; simpl; try reflexivity. apply Ascii.eqb_sym.
Qed.

Lemma sameChar_eq (a b : option ascii) : SmartMatcher.sameChar a b = true -> a = b.
Proof.
  destruct a as [x|], b as [y|]; simpl; try discriminate; try reflexivity.
  intro E. apply Ascii.eqb_eq in E. now subst.
Qed.

Lemma min3_swap (a b c : nat) : SmartMatcher.min3 a b c = SmartMatcher.min3 a c b.
Proof. unfold SmartMatcher.min3. lia. Qed.

Lemma levRec_sym (s1 s2 : string) (i j : nat) : levRec s1 s2 i j = levRec s2 s1 j i.
Proof.
  revert j. induction i as [|i IHi]; intro j.
  - symmetry. apply levRec_col0.
  - induction j as [|j IHj]; [reflexivity |].
    rewrite !levRec_step, sameChar_sym, min3_swap.
    now rewrite IHj, (IHi j), (IHi (S j)).
Qed.

Lemma levRec_le_max (s1 s2 : string) (i j : nat) :
  (levRec s1 s2 i j <= Nat.max i j)%nat.
Proof.
  revert j. induction i as [|i IHi]; intro j; [simpl; lia |].
  destruct j as [|j]; [rewrite levRec_col0; lia |].
  rewrite levRec_step. specialize (IHi j).
  destruct (SmartMatcher.sameChar _ _); unfold SmartMatcher.min3; lia.
Qed.

Lemma levRec_ge_diff (s1 s2 : string) (i j : nat) :
  (i - j <= levRec s1 s2 i j)%nat /\ (j - i <= levRec s1 s2 i j)%nat.
Proof.
  revert j. induction i as [|i IHi]; intro j; [simpl; lia |].
  induction j as [|j IHj]; [rewrite levRec_col0; lia |].
  rewrite levRec_step.
  pose proof (IHi j). pose proof (IHi (S j)).
  destruct (SmartMatcher.sameChar _ _); unfold SmartMatcher.min3; lia.
Qed.

Lemma levRec_zero (s1 s2 : string) (i j : nat) :
  levRec s1 s2 i j = 0%nat ->
  i = j /\ forall k, (k < i)%nat -> String.get k s1 = String.get k s2.
Proof.
  revert j. induction i as [|i IHi]; intros j H.
  - simpl in H. subst j. split; [reflexivity | intros k Hk; lia].
  - destruct j as [|j]; [rewrite levRec_col0 in H; discriminate |].
    rewrite levRec_step in H.
    destruct (SmartMatcher.sameChar _ _) eqn:E;
      [| unfold SmartMatcher.min3 in H; lia].
    apply IHi in H. destruct H as [<- Hk]. split; [reflexivity |].
    intros k Hlt. destruct (Nat.eq_dec k i) as [-> | Hne].
    + apply sameChar_eq in E. symmetry. exact E.
    + apply Hk. lia.
Qed.

Lemma get_beyond (s : string) (k : nat) :
  (String.length s <= k)%nat -> String.get k s = None.
Proof.
  revert k. induction s as [|c r IH]; intros k H; [reflexivity |].
  destruct k as [|k]; simpl in *; [lia | apply IH; lia].
Qed.

Lemma levenshtein_zero (s1 s2 : string) :
  SmartMatcher.levenshteinDistance s1 s2 = 0%nat <-> s1 = s2.
Proof.
  split; [| intros ->; apply levenshtein_same].
  rewrite levenshteinDistance_rec. intro H. apply levRec_zero in H.
  destruct H as [Hlen H]. apply String.get_correct. intro k.
  destruct (Nat.lt_ge_cases k (String.length s2)) as [L | L].
  - now apply H.
  - rewrite !get_beyond by lia. reflexivity.
Qed.

Lemma levenshtein_sym (s1 s2 : string) :
  SmartMatcher.levenshteinDistance s1 s2 = SmartMatcher.levenshteinDistance s2 s1.
Proof. rewrite !levenshteinDistance_rec. apply levRec_sym. Qed.

Lemma levenshtein_bounds (s1 s2 : string) :
  (String.length s1 - String.length s2 <= SmartMatcher.levenshteinDistance s1 s2)%nat
  /\ (String.length s2 - String.length s1 <= SmartMatcher.levenshteinDistance s1 s2)%nat
  /\ (SmartMatcher.levenshteinDistance s1 s2
      <= Nat.max (String.length s1) (String.length s2))%nat.
Proof.
  rewrite levenshteinDistance_rec.
  pose proof (levRec_ge_diff s1 s2 (String.length s2) (String.length s1)).
  pose proof (levRec_le_max s1 s2 (String.length s2) (String.length s1)).
  lia.
Qed.

(** X4.  The edit distance does not depend on the order of the two strings;
    it is 0 exactly for equal strings; it is at least the difference of the
    two lengths and at most the greater length. *)
Theorem levenshteinDistance_metric (s1 s2 : string) :
  SmartMatcher.levenshteinDistance s1 s2 = SmartMatcher.levenshteinDistance s2 s1
  /\ (SmartMatcher.levenshteinDistance s1 s2 = 0%nat <-> s1 = s2)
  /\ (String.length s1 - String.length s2 <= SmartMatcher.levenshteinDistance s1 s2)%nat
  /\ (String.length s2 - String.length s1 <= SmartMatcher.levenshteinDistance s1 s2)%nat
  /\ (SmartMatcher.levenshteinDistance s1 s2
      <= Nat.max (String.length s1) (String.length s2))%nat.
Proof.
  split; [apply levenshtein_sym |].
  split; [apply levenshtein_zero | apply levenshtein_bounds].
Qed.

Lemma stringSimilarity_unfold (s1 s2 : string) :
  s1 <> s2 -> s1 <> "" -> s2 <> "" ->
  SmartMatcher.stringSimilarity s1 s2
  = ((SmartMatcher.ofNat (Nat.max (String.length s1) (String.length s2))
      - SmartMatcher.ofNat (SmartMatcher.levenshteinDistance s1 s2))
     / SmartMatcher.ofNat (Nat.max (String.length s1) (String.length s2)))%Q.
Proof.
  intros Hne H1 H2. unfold SmartMatcher.stringSimilarity.
  destruct (String.eqb_spec s1 s2); [contradiction |].
  destruct s1 as [|c1 r1]; [contradiction |].
  destruct s2 as [|c2 r2]; [contradiction |].
  cbn [String.length Nat.eqb orb].
  destruct (S (String.length r2) <? S (String.length r1))%nat eqn:L.
  - apply Nat.ltb_lt in L. cbn [String.length Nat.eqb].
    rewrite Nat.max_l by lia. reflexivity.
  - apply Nat.ltb_ge in L. cbn [String.length Nat.eqb].
    rewrite Nat.max_r by lia. reflexivity.
Qed.

Section Similarity.
Open Scope Q_scope.

Lemma complement_ratio (L d : nat) :
  (0 < L)%nat -> (d <= L)%nat ->
  0 <= (SmartMatcher.ofNat L - SmartMatcher.ofNat d) / SmartMatcher.ofNat L <= 1
  /\ ((SmartMatcher.ofNat L - SmartMatcher.ofNat d) / SmartMatcher.ofNat L == 1
      <-> d = 0%nat).
Proof.
  intros HL Hd.
  assert (E : SmartMatcher.ofNat L - SmartMatcher.ofNat d == SmartMatcher.ofNat (L - d)).
  { unfold SmartMatcher.ofNat. rewrite Nat2Z.inj_sub by lia.
    unfold Z.sub. rewrite inject_Z_plus, inject_Z_opp. reflexivity. }
  rewrite E. split; [split |].
  - apply ratio_nonneg.
  - apply ratio_le_1. lia.
  - rewrite (ratio_eq_1 _ _ HL). lia.
Qed.
End Similarity.

Lemma stringSimilarity_facts (s1 s2 : string) :
  (0 <= SmartMatcher.stringSimilarity s1 s2 <= 1)%Q
  /\ SmartMatcher.stringSimilarity s1 s2 = SmartMatcher.stringSimilarity s2 s1
  /\ ((SmartMatcher.stringSimilarity s1 s2 == 1)%Q <-> s1 = s2).
Proof.
  destruct (string_dec s1 s2) as [-> | Hne].
  { unfold SmartMatcher.stringSimilarity. rewrite String.eqb_refl.
    split; [split; discriminate |]. split; [reflexivity |].
    split; intros _; reflexivity. }
  destruct (string_dec s1 "") as [-> | H1].
  { assert (E : SmartMatcher.stringSimilarity "" s2 = 0%Q)
      by (unfold SmartMatcher.stringSimilarity;
          destruct (String.eqb_spec "" s2); [contradiction | reflexivity]).
    assert (E' : SmartMatcher.stringSimilarity s2 "" = 0%Q).
    { unfold SmartMatcher.stringSimilarity.
      destruct (String.eqb_spec s2 ""); [congruence |].
      now rewrite Bool.orb_true_r. }
    rewrite E, E'. split; [split; discriminate |]. split; [reflexivity |].
    split; [discriminate | contradiction]. }
  destruct (string_dec s2 "") as [-> | H2].
  { assert (E : SmartMatcher.stringSimilarity s1 "" = 0%Q).
    { unfold SmartMatcher.stringSimilarity.
      destruct (String.eqb_spec s1 ""); [contradiction |].
      now rewrite Bool.orb_true_r. }
    assert (E' : SmartMatcher.stringSimilarity "" s1 = 0%Q)
      by (unfold SmartMatcher.stringSimilarity;
          destruct (String.eqb_spec "" s1); [congruence | reflexivity]).
    rewrite E, E'. split; [split; discriminate |]. split; [reflexivity |].
    split; [discriminate | contradiction]. }
  rewrite (stringSimilarity_unfold s1 s2), (stringSimilarity_unfold s2 s1)
    by congruence.
  pose proof (levenshtein_sym s1 s2) as Hsym.
  pose proof (levenshtein_zero s1 s2) as Hz.
  destruct (levenshtein_bounds s1 s2) as (_ & _ & Hmax).
  assert (HL : (0 < Nat.max (String.length s1) (String.length s2))%nat).
  { destruct s1; [contradiction | cbn [String.length]; lia]. }
  destruct (complement_ratio _ _ HL Hmax) as [Hr H1'].
  split; [exact Hr |]. split.
  - now rewrite Hsym, Nat.max_comm.
  - rewrite H1', Hz. tauto.
Qed.

(** X5.  The string similarity lies between 0 and 1, does not depend on the
    order of its arguments, and is 1 exactly for equal strings. *)
Theorem stringSimilarity_range_sym (s1 s2 : string) :
  (0 <= SmartMatcher.stringSimilarity s1 s2 <= 1)%Q
  /\ SmartMatcher.stringSimilarity s1 s2 = SmartMatcher.stringSimilarity s2 s1
  /\ ((SmartMatcher.stringSimilarity s1 s2 == 1)%Q <-> s1 = s2).
Proof. apply stringSimilarity_facts. Qed.

(** ** The sub-scores of the weighted scorer *)

Section SubScores.
Import SmartMatcher.
Open Scope Q_scope.

Lemma stringSimilarity_le_1 (s1 s2 : string) : stringSimilarity s1 s2 <= 1.
Proof. apply stringSimilarity_facts. Qed.

Lemma scoreBrand_le (b1 b2 : string) : scoreBrand b1 b2 <= 25.
Proof.
  unfold scoreBrand.
  repeat match goal with |- context [if ?c then _ else _] => destruct c end;
    vm_compute; discriminate.
Qed.

Lemma scoreModel_le (m1 m2 : string) (t1 t2 : list string) :
  scoreModel m1 m2 t1 t2 <= 30.
Proof.
  unfold scoreModel, W_MODEL.
  destruct (_ || _)%bool.
  - pose proof (calculateTokenOverlap_le_1 t1 t2). lra.
  - destruct (_ =? _)%string; [apply Qle_refl |].
    destruct (_ || _)%bool; [vm_compute; discriminate |].
    destruct (Qltb _ _); [| discriminate].
    pose proof (stringSimilarity_le_1
                  (Regex.replaceAll nonAlnum "" (toLowerCase m1))
                  (Regex.replaceAll nonAlnum "" (toLowerCase m2))).
    lra.
Qed.

Lemma scoreSpecs_le (s c : Features) : scoreSpecs s c <= 20.
Proof.
  unfold scoreSpecs.
  repeat match goal with |- context [if ?c then _ else _] => destruct c end;
    vm_compute; discriminate.
Qed.

Lemma scoreTitleSimilarity_le (t1 t2 b1 b2 : list string) :
  scoreTitleSimilarity t1 t2 b1 b2 <= 15.
Proof.
  unfold scoreTitleSimilarity, W_TITLE.
  pose proof (calculateTokenOverlap_le_1 t1 t2).
  pose proof (calculateTokenOverlap_le_1 b1 b2). lra.
Qed.

Lemma scoreCategory_le (c1 c2 : string) : scoreCategory c1 c2 <= 10.
Proof.
  unfold scoreCategory.
  repeat match goal with |- context [if ?c then _ else _] => destruct c end;
    vm_compute; discriminate.
Qed.

Lemma total_le_100 (sf cf : Features) (sp cp : Product) :
  total (calculateScore sf cf sp cp) <= 100.
Proof. unfold calculateScore. cbn [total]. apply Math_min_le_l. Qed.
End SubScores.

(** X6.  In every breakdown that [calculateScore] computes, the brand score
    lies in [0, 25], the model score in [0, 30], the specs score in
    [0, 20], the title score in [0, 15], the category score in [0, 10] and
    the price score in [-2, 5]. *)
Theorem calculateScore_sub_score_ranges
        (source candidate : SmartMatcher.Features) (sp cp : Product) :
  (0 <= brandScore (SmartMatcher.calculateScore source candidate sp cp) <= 25)%Q
  /\ (0 <= modelScore (SmartMatcher.calculateScore source candidate sp cp) <= 30)%Q
  /\ (0 <= specsScore (SmartMatcher.calculateScore source candidate sp cp) <= 20)%Q
  /\ (0 <= titleScore (SmartMatcher.calculateScore source candidate sp cp) <= 15)%Q
  /\ (0 <= categoryScore (SmartMatcher.calculateScore source candidate sp cp) <= 10)%Q
  /\ (-2 <= priceScore (SmartMatcher.calculateScore source candidate sp cp) <= 5)%Q.
Proof.
  unfold SmartMatcher.calculateScore.
  cbn [brandScore modelScore specsScore titleScore categoryScore priceScore].
  split; [split; [apply scoreBrand_nonneg | apply scoreBrand_le] |].
  split; [split; [apply scoreModel_nonneg | apply scoreModel_le] |].
  split; [split; [apply scoreSpecs_nonneg | apply scoreSpecs_le] |].
  split; [split; [apply scoreTitleSimilarity_nonneg | apply scoreTitleSimilarity_le] |].
  split; [split; [apply scoreCategory_nonneg | apply scoreCategory_le] |].
  apply scorePriceProximity_range.
Qed.

(** ** N-grams *)

Lemma join_two (sep a b : string) : join sep [a; b] = (a ++ sep ++ b)%string.
Proof. reflexivity. Qed.

Lemma firstn_2_skipn (l : list string) (i : nat) :
  (S i < List.length l)%nat ->
  firstn 2 (skipn i l) = [nth i l ""; nth (S i) l ""].
Proof.
  revert i. induction l as [|x r IH]; intros i H; [simpl in H; lia |].
  destruct i as [|i].
  - destruct r as [|y r']; [simpl in H; lia | reflexivity].
  - cbn [skipn]. rewrite IH by (simpl in H; lia). reflexivity.
Qed.

(** X7.  The 1-grams of a token array are the tokens themselves; an array
    with fewer than [n] tokens has no n-gram; otherwise there are
    [length - n + 1] of them; and the bigram at position [i] is token [i], a
    space and token [i + 1]. *)
Theorem generateNGrams_shape (tokens : list string) :
  SmartMatcher.generateNGrams tokens 1 = tokens
  /\ (forall n, (List.length tokens < n)%nat ->
        SmartMatcher.generateNGrams tokens n = [])
  /\ (forall n, (n <= List.length tokens)%nat ->
        List.length (SmartMatcher.generateNGrams tokens n)
        = (List.length tokens - n + 1)%nat)
  /\ (forall i, (S i < List.length tokens)%nat ->
        nth i (SmartMatcher.generateNGrams tokens 2) ""
        = (nth i tokens "" ++ " " ++ nth (S i) tokens "")%string).
Proof.
  unfold SmartMatcher.generateNGrams. split; [| split; [| split]].
  - replace (S (List.length tokens) - 1)%nat with (List.length tokens) by lia.
    induction tokens as [|x r IH]; [reflexivity |].
    cbn [List.length seq map]. rewrite <- seq_shift, map_map.
    cbn [skipn firstn join]. f_equal. exact IH.
  - intros n H. replace (S (List.length tokens) - n)%nat with 0%nat by lia.
    reflexivity.
  - intros n H. rewrite length_map, length_seq. lia.
  - intros i H.
    rewrite (nth_indep _ "" (join " " (firstn 2 (skipn 0 tokens))))
      by (rewrite length_map, length_seq; lia).
    rewrite (map_nth (fun i => join " " (firstn 2 (skipn i tokens)))).
    rewrite seq_nth by lia. cbn [Nat.add].
    rewrite firstn_2_skipn by lia. apply join_two.
Qed.

(** ** What the weighted scorer returns *)

Lemma preprocessCandidates_In (cs : list Product) (c : Product) :
  In c (SmartMatcher.preprocessCandidates cs) ->
  In c cs /\ (5 <= String.length (title c))%nat /\ (10 <= numericPrice c)%Q.
Proof.
  unfold SmartMatcher.preprocessCandidates. intro H.
  apply filter_In in H. destruct H as [Hin H]. split; [exact Hin |].
  destruct (negb (truthy (title c)) || (String.length (title c) <? 5)%nat)%bool eqn:E;
    [discriminate |].
  apply Bool.orb_false_elim in E. destruct E as [_ E].
  apply Nat.ltb_ge in E. split; [exact E |].
  destruct (Qltb (numericPrice c) 10) eqn:P; [discriminate |].
  unfold Qltb in P. apply Bool.negb_false_iff in P.
  now apply Qle_bool_iff.
Qed.

Lemma Math_round_mono (a b : Q) : (a <= b)%Q -> (Math_round a <= Math_round b)%Z.
Proof.
  intro H. unfold Math_round. apply Qfloor_resp_le.
  apply Qplus_le_compat; [exact H | apply Qle_refl].
Qed.

Lemma getMatchLevel_cases (t : Q) :
  (70 <= t)%Q -> (t <= 100)%Q ->
  (SmartMatcher.getMatchLevel t = EXACT /\ (90 <= Math_round t <= 100)%Z)
  \/ (SmartMatcher.getMatchLevel t = HIGH /\ (80 <= Math_round t <= 90)%Z)
  \/ (SmartMatcher.getMatchLevel t = MEDIUM /\ (70 <= Math_round t <= 80)%Z).
Proof.
  intros Hlo Hhi. unfold SmartMatcher.getMatchLevel.
  destruct (Qleb 90 t) eqn:E90.
  { left. split; [reflexivity |]. apply Qleb_true in E90. split.
    - apply (Math_round_mono 90 t E90).
    - apply (Math_round_mono t 100 Hhi). }
  apply Qleb_false, Qlt_le_weak in E90.
  destruct (Qleb 80 t) eqn:E80.
  { right; left. split; [reflexivity |]. apply Qleb_true in E80. split.
    - apply (Math_round_mono 80 t E80).
    - apply (Math_round_mono t 90 E90). }
  apply Qleb_false, Qlt_le_weak in E80.
  right; right. apply Qleb_true in Hlo. rewrite Hlo. apply Qleb_true in Hlo.
  split; [reflexivity |]. split.
  - apply (Math_round_mono 70 t Hlo).
  - apply (Math_round_mono t 80 E80).
Qed.

Lemma pushIfConfident_shape (c : Product) (cf : SmartMatcher.Features)
      (b : ScoringBreakdown) (m : MatchResult) :
  In m (SmartMatcher.pushIfConfident c cf b) ->
  product m = c /\ confidence m = Math_round (total b)
  /\ matchLevel m = SmartMatcher.getMatchLevel (total b)
  /\ similarity m = None /\ (70 <= total b)%Q.
Proof.
  unfold SmartMatcher.pushIfConfident, SmartMatcher.MIN_CONFIDENCE.
  destruct (Qleb 70 (total b)) eqn:E; [| intros []].
  intros [<- | []]. apply Qleb_true in E.
  exact (conj eq_refl (conj eq_refl (conj eq_refl (conj eq_refl E)))).
Qed.

Lemma findMatches_shape (source : Product) (candidates : list Product)
      (m : MatchResult) :
  In m (SmartMatcher.findMatches source candidates) ->
  In (product m)
     (SmartMatcher.filterByCategory source (SmartMatcher.detectCategory source)
                       (SmartMatcher.preprocessCandidates candidates))
  /\ similarity m = None
  /\ exists t, (70 <= t)%Q /\ (t <= 100)%Q /\ confidence m = Math_round t
               /\ matchLevel m = SmartMatcher.getMatchLevel t.
Proof.
  unfold SmartMatcher.findMatches. cbv zeta.
  destruct (List.length _ =? 0)%nat; [intros [] |].
  intro H. apply firstn_incl, sort_In, in_flat_map in H.
  destruct H as (c & Hc & Hm).
  rewrite scoreCandidate_unfold in Hm. apply pushIfConfident_shape in Hm.
  destruct Hm as (Hp & Hconf & Hlev & Hsim & Ht).
  rewrite Hp. split; [exact Hc |]. split; [exact Hsim |].
  eexists. split; [exact Ht |]. split; [apply total_le_100 |].
  split; [exact Hconf | exact Hlev].
Qed.

(** X8.  Every result of the weighted scorer is one of the candidates, with
    a title of at least 5 characters and a price of at least 10; it carries
    no similarity field; its confidence lies between 70 and 100; and its
    level is EXACT with a confidence of at least 90, HIGH with a confidence
    from 80 to 90, or MEDIUM with a confidence from 70 to 80, never LOW. *)
Theorem smart_findMatches_results (source : Product) (candidates : list Product) :
  Forall (fun m =>
            In (product m) candidates
            /\ (5 <= String.length (title (product m)))%nat
            /\ (10 <= numericPrice (product m))%Q
            /\ similarity m = None
            /\ (70 <= confidence m <= 100)%Z
            /\ ((matchLevel m = EXACT /\ (90 <= confidence m)%Z)
                \/ (matchLevel m = HIGH /\ (80 <= confidence m <= 90)%Z)
                \/ (matchLevel m = MEDIUM /\ (confidence m <= 80)%Z)))
         (SmartMatcher.findMatches source candidates).
Proof.
  apply Forall_forall. intros m Hm. apply findMatches_shape in Hm.
  destruct Hm as (Hin & Hsim & t & Hlo & Hhi & Hc & Hl).
  apply filterByCategory_spec in Hin. destruct Hin as [Hin _].
  apply preprocessCandidates_In in Hin. destruct Hin as (Hin & Ht & Hp).
  rewrite Hc, Hl.
  destruct (getMatchLevel_cases t Hlo Hhi) as [[-> ?] | [[-> ?] | [-> ?]]];
    repeat (split; [first [assumption | lia] |]).
  - left. split; [reflexivity | lia].
  - right; left. split; [reflexivity | lia].
  - right; right. split; [reflexivity | lia].
Qed.

(** X9.  The categories of a result of the weighted scorer and of its source
    agree unless one of them is unknown, and a result is an accessory
    exactly when the source is one. *)
Theorem smart_findMatches_categories (source : Product) (candidates : list Product) :
  Forall (fun m =>
            (SmartMatcher.detectCategory source = "accessory"
             <-> SmartMatcher.detectCategory (product m) = "accessory")
            /\ (SmartMatcher.detectCategory source
                = SmartMatcher.detectCategory (product m)
                \/ SmartMatcher.detectCategory source = "unknown"
                \/ SmartMatcher.detectCategory (product m) = "unknown"))
         (SmartMatcher.findMatches source candidates).
Proof.
  apply Forall_forall. intros m Hm. apply findMatches_origin in Hm.
  destruct Hm as [Hm _]. apply filterByCategory_spec in Hm.
  destruct Hm as (_ & Hacc & Hother).
  destruct (string_dec (SmartMatcher.detectCategory source) "accessory") as [E | N].
  - specialize (Hacc E). split; [tauto |]. left. congruence.
  - destruct (Hother N) as [Hn Hc]. split; [tauto | tauto].
Qed.

(** ** Brand names *)

Section BrandMore.
Import Brand BrandTools.

Lemma upperChar_lowerChar (c : ascii) :
  isAscii c = true -> upperChar (lowerChar c) = upperChar c.
Proof.
  destruct c as [[] [] [] [] [] [] [] []]; intro H;
    try discriminate H; vm_compute; reflexivity.
Qed.

Lemma aliases_resolve_check :
  forallb (fun e => forallb (fun a => (normalizeBrand a =? fst e)
                                      && brandsMatch a (fst e)) (snd e))
          BRAND_ALIASES = true.
Proof. vm_compute. reflexivity. Qed.

Lemma canonicals_apart_check :
  forallb (fun e1 =>
             forallb (fun e2 => negb (toLowerCase (fst e1) =? toLowerCase (fst e2))
                                || (fst e1 =? fst e2))
                     BRAND_ALIASES)
          BRAND_ALIASES = true.
Proof. vm_compute. reflexivity. Qed.

Lemma aliases_resolve (canonical alias : string) (aliases : list string) :
  In (canonical, aliases) BRAND_ALIASES -> In alias aliases ->
  normalizeBrand alias = canonical /\ brandsMatch alias canonical = true.
Proof.
  intros He Ha. pose proof aliases_resolve_check as H.
  rewrite forallb_forall in H. specialize (H _ He).
  rewrite forallb_forall in H. specialize (H _ Ha).
  apply andb_prop in H. destruct H as [H1 H2].
  apply String.eqb_eq in H1. now split.
Qed.

Lemma brandsMatch_spec (a b : string) :
  brandsMatch a b = true
  <-> a <> "" /\ b <> ""
      /\ toLowerCase (normalizeBrand a) = toLowerCase (normalizeBrand b).
Proof.
  unfold brandsMatch. destruct a as [|ca ra]; [simpl; intuition congruence |].
  destruct b as [|cb rb]; [simpl; intuition congruence |].
  cbn [truthy negb orb]. rewrite String.eqb_eq.
  split; [intro H; repeat split; try discriminate; exact H | tauto].
Qed.
End BrandMore.

(** X10.  On 7-bit strings [normalizeBrand] does not see the case of the
    letters: two brands with the same lower-case form get the same
    canonical name. *)
Theorem normalizeBrand_case_insensitive (x y : string)
        (Hx : asciiOnly x = true) (Hy : asciiOnly y = true)
        (E : toLowerCase x = toLowerCase y) :
  Brand.normalizeBrand x = Brand.normalizeBrand y.
Proof.
  destruct x as [|c r], y as [|c' r']; try reflexivity; try discriminate E.
  cbn [toLowerCase] in E. injection E as Ec Er.
  cbn [asciiOnly] in Hx, Hy.
  apply andb_prop in Hx, Hy. destruct Hx as [Hc _], Hy as [Hc' _].
  unfold Brand.normalizeBrand. cbn [truthy negb toLowerCase]. rewrite Ec, Er.
  destruct (Brand.canonicalFor _); [reflexivity |].
  destruct (Brand.aliasFor _); [reflexivity |].
  cbn [charAt0 slice1 toUpperCase].
  rewrite <- (upperChar_lowerChar c Hc), <- (upperChar_lowerChar c' Hc'), Ec, Er.
  reflexivity.
Qed.

Lemma normalizeBrand_case_insensitive_witness :
  Brand.normalizeBrand "SAMSUNG" = Brand.normalizeBrand "samSung"
  /\ Brand.normalizeBrand "SkullCandy" = Brand.normalizeBrand "sKULLCANDY".
Proof.
  split.
  - apply (normalizeBrand_case_insensitive "SAMSUNG" "samSung"); reflexivity.
  - apply (normalizeBrand_case_insensitive "SkullCandy" "sKULLCANDY"); reflexivity.
Defined.

(** X11.  The alias table is consistent: every alias is normalised to the
    canonical name it is listed under and matches it, so no alias is
    shadowed by an earlier entry; and two distinct canonical names never
    match each other. *)
Theorem alias_table_consistent :
  Forall (fun e =>
            Forall (fun alias =>
                      Brand.normalizeBrand alias = fst e
                      /\ Brand.brandsMatch alias (fst e) = true)
                   (snd e)
            /\ Forall (fun e' =>
                         Brand.brandsMatch (fst e) (fst e') = true -> fst e = fst e')
                      Brand.BRAND_ALIASES)
         Brand.BRAND_ALIASES.
Proof.
  apply Forall_forall. intros [canonical aliases] He. split.
  - apply Forall_forall. intros alias Ha. now apply (aliases_resolve _ _ aliases).
  - apply Forall_forall. intros e' He' Hm.
    apply brandsMatch_spec in Hm. destruct Hm as (_ & _ & Hm).
    pose proof canonical_fixed as Hfix. rewrite Forall_forall in Hfix.
    rewrite (Hfix _ He), (Hfix _ He') in Hm.
    pose proof canonicals_apart_check as H.
    rewrite forallb_forall in H. specialize (H _ He).
    rewrite forallb_forall in H. specialize (H _ He').
    cbn [fst] in *. rewrite Hm, String.eqb_refl in H. now apply String.eqb_eq in H.
Qed.

(** [brandsMatch] is symmetric and transitive, and a brand matches itself
    exactly when it is not the empty string. *)
Lemma brandsMatch_equivalence (a b c : string) :
  Brand.brandsMatch a b = Brand.brandsMatch b a
  /\ (Brand.brandsMatch a b = true -> Brand.brandsMatch b c = true ->
      Brand.brandsMatch a c = true)
  /\ (Brand.brandsMatch a a = true <-> a <> "").
Proof.
  split; [| split].
  - apply Bool.eq_true_iff_eq. rewrite !brandsMatch_spec.
    split; intros (H1 & H2 & H3); auto.
  - rewrite !brandsMatch_spec. intros (H1 & H2 & H3) (H4 & H5 & H6).
    repeat split; try assumption. congruence.
  - rewrite brandsMatch_spec. tauto.
Qed.

(** X12.  For a 7-bit brand, every variation that [getBrandVariations]
    lists is normalised to the canonical name of the brand, and that
    canonical name is among the variations. *)
Theorem getBrandVariations_same_brand (brand : string)
        (Hb : asciiOnly brand = true) :
  Forall (fun v => Brand.normalizeBrand v = Brand.normalizeBrand brand)
         (BrandTools.getBrandVariations brand)
  /\ In (Brand.normalizeBrand brand) (BrandTools.getBrandVariations brand).
Proof.
  unfold BrandTools.getBrandVariations.
  destruct (find _ Brand.BRAND_ALIASES) as [[canonical aliases]|] eqn:F.
  - apply find_some in F. destruct F as [Hin E].
    apply String.eqb_eq in E. cbn [fst] in E. rewrite <- E. split.
    + constructor.
      * pose proof canonical_fixed as H. rewrite Forall_forall in H.
        exact (H _ Hin).
      * apply Forall_forall. intros alias Ha.
        now apply (aliases_resolve canonical alias aliases).
    + now left.
  - split; [| right; now left].
    constructor; [reflexivity |]. constructor; [| constructor].
    now apply normalizeBrand_idem_ascii.
Qed.

Lemma getBrandVariations_same_brand_witness :
  Forall (fun v => Brand.normalizeBrand v = Brand.normalizeBrand "Galaxy")
         (BrandTools.getBrandVariations "Galaxy")
  /\ In (Brand.normalizeBrand "Galaxy") (BrandTools.getBrandVariations "Galaxy").
Proof. apply (getBrandVariations_same_brand "Galaxy"). reflexivity. Defined.

Lemma allChars_letters_ascii (str : string) :
  allChars (fun c => isLowerAZ c || isUpperAZ c) str = true -> asciiOnly str = true.
Proof.
  induction str as [|c r IH]; [reflexivity |].
  cbn [allChars asciiOnly]. intro H. apply andb_prop in H. destruct H as [Hc Hr].
  rewrite (IH Hr), Bool.andb_true_r. clear - Hc.
  destruct c as [[] [] [] [] [] [] [] []]; try discriminate Hc; reflexivity.
Qed.

(** X13.  Whatever the title, the brand that [extractAndNormalizeBrand]
    returns is left unchanged by [normalizeBrand]; for the empty title it is
    the empty string. *)
Theorem extractAndNormalizeBrand_normalized (title : string) :
  Brand.normalizeBrand (BrandTools.extractAndNormalizeBrand title)
  = BrandTools.extractAndNormalizeBrand title
  /\ BrandTools.extractAndNormalizeBrand "" = "".
Proof.
  split; [| reflexivity].
  unfold BrandTools.extractAndNormalizeBrand.
  destruct (negb (truthy title)); [reflexivity |].
  cbv zeta.
  destruct (find _ Brand.BRAND_ALIASES) as [[canonical aliases]|] eqn:F.
  - apply find_some in F. destruct F as [Hin _].
    pose proof canonical_fixed as H. rewrite Forall_forall in H.
    exact (H _ Hin).
  - destruct (Regex.split _ title) as [|word0 rest]; [reflexivity |].
    destruct (2 <=? _)%nat; [| reflexivity].
    apply normalizeBrand_idem_ascii, allChars_letters_ascii.
    unfold BrandTools.nonLetter.
    rewrite replaceAll_Chr, substChars_empty.
    rewrite (keepChars_ext _ (fun c => isLowerAZ c || isUpperAZ c))
      by (intro c; apply Bool.negb_involutive).
    apply keepChars_all.
Qed.

(** ** Categories *)

Lemma scraped_detectCategory_range (title : string) :
  In (ProductText.detectCategory title)
     ["electronics-phone"; "electronics-laptop"; "electronics-gpu";
      "electronics-tablet"; "fashion"; "beauty"; "general"].
Proof.
  unfold ProductText.detectCategory. cbv zeta.
  repeat match goal with |- context [if ?c then _ else _] => destruct c end;
    simpl; tauto.
Qed.

Lemma smart_detectCategory_of_keywords (p : Product) :
  In (SmartMatcher.detectCategory p)
     ["laptop"; "phone"; "tablet"; "gpu"; "accessory"; "unknown"].
Proof.
  unfold SmartMatcher.detectCategory. cbv zeta.
  destruct (truthy (category p)).
  - destruct (includes (category p) "laptop"); [simpl; tauto |].
    destruct (includes (category p) "phone"); [simpl; tauto |].
    destruct (includes (category p) "tablet"); [simpl; tauto |].
    destruct (includes (category p) "gpu"); [simpl; tauto |].
    destruct (find _ SmartMatcher.CATEGORY_KEYWORDS) as [[c kws]|] eqn:F;
      [| simpl; tauto].
    apply find_some in F. destruct F as [F _].
    simpl in F. decompose [or] F; try contradiction;
      match goal with H : _ = (c, kws) |- _ => injection H as <- _ end;
      simpl; tauto.
  - destruct (find _ SmartMatcher.CATEGORY_KEYWORDS) as [[c kws]|] eqn:F;
      [| simpl; tauto].
    apply find_some in F. destruct F as [F _].
    simpl in F. decompose [or] F; try contradiction;
      match goal with H : _ = (c, kws) |- _ => injection H as <- _ end;
      simpl; tauto.
Qed.

Lemma smart_detectCategory_explicit (p : Product) :
  SmartMatcher.detectCategory p = "accessory" ->
  includes (category p) "laptop" = false /\ includes (category p) "phone" = false
  /\ includes (category p) "tablet" = false /\ includes (category p) "gpu" = false.
Proof.
  unfold SmartMatcher.detectCategory. cbv zeta.
  destruct (category p) as [|c r] eqn:E; [intros _; repeat split; reflexivity |].
  cbn [truthy].
  destruct (includes (String c r) "laptop"); [discriminate |].
  destruct (includes (String c r) "phone"); [discriminate |].
  destruct (includes (String c r) "tablet"); [discriminate |].
  destruct (includes (String c r) "gpu"); [discriminate |].
  intros _. repeat split; reflexivity.
Qed.

(** X14.  The category that the weighted scorer assigns is one of laptop,
    phone, tablet, gpu, accessory and unknown, and the category field of
    the product has precedence over its title: a product whose category
    field mentions laptop, phone, tablet or gpu is never an accessory. *)
Theorem smart_detectCategory_range (p : Product) :
  In (SmartMatcher.detectCategory p)
     ["laptop"; "phone"; "tablet"; "gpu"; "accessory"; "unknown"]
  /\ (includes (category p) "laptop" = true -> SmartMatcher.detectCategory p = "laptop")
  /\ (SmartMatcher.detectCategory p = "accessory" ->
      includes (category p) "laptop" = false /\ includes (category p) "phone" = false
      /\ includes (category p) "tablet" = false /\ includes (category p) "gpu" = false).
Proof.
  split; [apply smart_detectCategory_of_keywords |].
  split; [| apply smart_detectCategory_explicit].
  intro H. unfold SmartMatcher.detectCategory. cbv zeta.
  destruct (category p) as [|c r]; [discriminate H |].
  cbn [truthy]. now rewrite H.
Qed.

(** X15.  For a product whose category field is what the scraper computes
    from its title, the weighted scorer takes a product scraped as
    electronics-phone, -laptop, -tablet or -gpu for a phone, a laptop, a
    tablet or a gpu, whatever accessory words its title holds; only a
    product scraped as fashion, beauty or general can be an accessory. *)
Theorem scraped_category_decides (p : Product)
        (H : category p = ProductText.detectCategory (title p)) :
  (category p = "electronics-phone" -> SmartMatcher.detectCategory p = "phone")
  /\ (category p = "electronics-laptop" -> SmartMatcher.detectCategory p = "laptop")
  /\ (category p = "electronics-tablet" -> SmartMatcher.detectCategory p = "tablet")
  /\ (category p = "electronics-gpu" -> SmartMatcher.detectCategory p = "gpu")
  /\ (SmartMatcher.detectCategory p = "accessory" ->
      category p = "fashion" \/ category p = "beauty" \/ category p = "general").
Proof.
  repeat split;
    try (intro E; unfold SmartMatcher.detectCategory; rewrite E; reflexivity).
  intro Hacc. apply smart_detectCategory_explicit in Hacc.
  destruct Hacc as (H1 & H2 & H3 & H4).
  pose proof (scraped_detectCategory_range (title p)) as R. rewrite <- H in R.
  simpl in R. decompose [or] R; try contradiction;
    match goal with E : _ = category p |- _ => rewrite <- E in * end;
    try discriminate; tauto.
Qed.

(** A phone case whose title names the phone: scraped as a phone, and a
    phone for the weighted scorer. *)
Lemma scraped_category_decides_witness :
  ProductMatcher.isAccessory (title phoneCase) = true
  /\ SmartMatcher.detectCategory phoneCase = "phone".
Proof.
  split; [vm_compute; reflexivity |].
  apply (scraped_category_decides phoneCase).
  - vm_compute. reflexivity.
  - reflexivity.
Defined.

(** ** What the legacy matcher returns *)

Section LegacyResults.
Import ProductMatcher.

(** The candidates that reach the four levels. *)
Lemma legacy_filtered_In (source c : Product) (candidates : list Product) :
  In c (filterAccessories source (validForLegacy candidates)) ->
  In c candidates /\ (10 <= numericPrice c)%Q /\ (5 <= String.length (title c))%nat
  /\ (isAccessory (title source) = false -> isAccessory (title c) = true ->
      Regex.test deviceWords (toLowerCase (title c)) = true).
Proof.
  unfold filterAccessories. cbv zeta. intro H. apply filter_In in H.
  destruct H as [Hin H]. apply validForLegacy_In in Hin.
  destruct Hin as (Hin & Hp & Ht). repeat (split; [assumption |]).
  intros Hs Hc. rewrite Hs, Hc in H.
  now destruct (Regex.test deviceWords (toLowerCase (title c))).
Qed.

(** A property of every result of the four levels is a property of every
    result of [findMatches]. *)
Lemma legacy_findMatches_Forall (P : MatchResult -> Prop)
      (source : Product) (candidates : list Product) :
  (forall c, In c (filterAccessories source (validForLegacy candidates)) ->
     P (exactResult c)
     /\ Forall P (level2For (extractAttributes source) c)
     /\ Forall P (level3For source (extractAttributes source) c)
     /\ Forall P (level4For source (extractAttributes source) c)) ->
  Forall P (findMatches source candidates).
Proof.
  intro H. unfold findMatches. cbv zeta. fold (validForLegacy candidates).
  set (filtered := filterAccessories source (validForLegacy candidates)) in *.
  destruct (List.length filtered =? 0)%nat; [constructor |].
  assert (H1 : Forall P (findExactIdMatches source filtered)).
  { unfold findExactIdMatches. apply Forall_forall. intros m Hm.
    apply in_map_iff in Hm. destruct Hm as (c & <- & Hc).
    apply filter_In in Hc. now apply H. }
  assert (H2 : Forall P (findBrandModelStorageMatches source
                           (extractAttributes source) filtered)).
  { unfold findBrandModelStorageMatches. destruct (negb _); [constructor |].
    apply Forall_flat_map, Forall_forall. intros c Hc. now apply H. }
  assert (H3 : Forall P (findBrandModelMatches source
                           (extractAttributes source) filtered)).
  { unfold findBrandModelMatches. destruct (negb _); [constructor |].
    apply Forall_flat_map, Forall_forall. intros c Hc. now apply H. }
  assert (H4 : Forall P (findFuzzyMatches source (extractAttributes source) filtered)).
  { unfold findFuzzyMatches.
    apply Forall_flat_map, Forall_forall. intros c Hc. now apply H. }
  destruct (truthy (productId source) && _)%bool.
  { apply sortAndLimit_Forall. destruct (truthy (productId source));
      [exact H1 | constructor]. }
  cbn [app].
  destruct (5 <=? _)%nat; [now apply sortAndLimit_Forall |].
  destruct (_ <? 3)%nat; apply sortAndLimit_Forall;
    repeat (apply Forall_app; split); assumption.
Qed.

Lemma sortAndLimit_shape (l : list MatchResult) :
  (List.length (sortAndLimit l LIMIT) <= 20)%nat
  /\ StronglySorted (fun a b => (confidence b <= confidence a)%Z)
                    (sortAndLimit l LIMIT)
  /\ Forall (fun m => (25 <= confidence m)%Z) (sortAndLimit l LIMIT).
Proof.
  unfold sortAndLimit, slice0, LIMIT. split; [| split].
  - rewrite length_firstn. lia.
  - apply firstn_sorted, sort_sorted.
  - apply firstn_Forall, sort_Forall, Forall_forall. intros m Hm.
    apply filter_In in Hm. destruct Hm as [_ Hm].
    now apply Z.leb_le in Hm.
Qed.

Lemma legacy_findMatches_sorted (source : Product) (candidates : list Product) :
  (List.length (findMatches source candidates) <= 20)%nat
  /\ StronglySorted (fun a b => (confidence b <= confidence a)%Z)
                    (findMatches source candidates)
  /\ Forall (fun m => (25 <= confidence m)%Z) (findMatches source candidates).
Proof.
  unfold findMatches. cbv zeta.
  destruct (List.length _ =? 0)%nat;
    [split; [simpl; lia | split; constructor] |].
  destruct (truthy (productId source) && _)%bool; [apply sortAndLimit_shape |].
  destruct (5 <=? _)%nat; [apply sortAndLimit_shape |].
  destruct (_ <? 3)%nat; apply sortAndLimit_shape.
Qed.

(** What each level pushes for one candidate. *)
Lemma level2For_shape (sa : ProductAttributes) (c : Product) :
  Forall (fun m => product m = c /\ scoring m = None
                   /\ ((matchLevel m = EXACT /\ confidence m = 95%Z)
                       \/ (matchLevel m = HIGH
                           /\ (confidence m = 80%Z \/ confidence m = 85%Z))))
         (level2For sa c).
Proof.
  unfold level2For. cbv zeta.
  repeat match goal with |- context [if ?b then _ else _] => destruct b end;
    repeat constructor; cbn; tauto.
Qed.

Lemma level3For_shape (source : Product) (sa : ProductAttributes) (c : Product) :
  Forall (fun m => product m = c /\ scoring m = None
                   /\ matchLevel m = MEDIUM /\ (70 <= confidence m <= 94)%Z)
         (level3For source sa c).
Proof.
  unfold level3For. cbv zeta.
  destruct (_ || _)%bool; [| constructor].
  constructor; [| constructor]. cbn [product scoring matchLevel confidence].
  repeat (split; [reflexivity |]).
  destruct (ratioWithin _ _ _ _); lia.
Qed.

Lemma level4For_shape (source : Product) (sa : ProductAttributes) (c : Product) :
  Forall (fun m => product m = c /\ scoring m = None
                   /\ matchLevel m = LOW /\ (25 <= confidence m <= 80)%Z)
         (level4For source sa c).
Proof.
  unfold level4For, MIN_CONFIDENCE. cbv zeta.
  destruct (_ || _ || _)%bool; [| constructor].
  destruct (25 <=? _)%Z eqn:E; [| constructor].
  apply Z.leb_le in E.
  constructor; [| constructor]. cbn [product scoring matchLevel confidence].
  repeat (split; [reflexivity |]). split; [exact E |].
  destruct (ratioWithin _ _ _ _); lia.
Qed.
End LegacyResults.

(** X16.  The legacy matcher returns at most 20 results, in order of
    non-increasing confidence; each of them is one of the candidates, with a
    price of at least 10 and a title of at least 5 characters, and carries
    no score breakdown; and when the title of the source holds no accessory
    word, a result whose title holds one also holds a device word. *)
Theorem legacy_findMatches_results (source : Product) (candidates : list Product) :
  (List.length (ProductMatcher.findMatches source candidates) <= 20)%nat
  /\ StronglySorted (fun a b => (confidence b <= confidence a)%Z)
                    (ProductMatcher.findMatches source candidates)
  /\ Forall (fun m =>
               In (product m) candidates
               /\ (10 <= numericPrice (product m))%Q
               /\ (5 <= String.length (title (product m)))%nat
               /\ scoring m = None
               /\ (ProductMatcher.isAccessory (title source) = false ->
                   ProductMatcher.isAccessory (title (product m)) = true ->
                   Regex.test ProductMatcher.deviceWords
                              (toLowerCase (title (product m))) = true))
            (ProductMatcher.findMatches source candidates).
Proof.
  destruct (legacy_findMatches_sorted source candidates) as (Hlen & Hsort & _).
  split; [exact Hlen |]. split; [exact Hsort |].
  apply legacy_findMatches_Forall. intros c Hc.
  apply legacy_filtered_In in Hc. destruct Hc as (Hin & Hp & Ht & Hacc).
  split; [cbn; tauto |].
  split; [| split].
  - eapply Forall_impl; [| apply level2For_shape].
    cbn. intros m (-> & Hs & _). tauto.
  - eapply Forall_impl; [| apply level3For_shape].
    cbn. intros m (-> & Hs & _). tauto.
  - eapply Forall_impl; [| apply level4For_shape].
    cbn. intros m (-> & Hs & _). tauto.
Qed.

(** X17.  The level of a result of the legacy matcher fixes the range of its
    confidence: EXACT_ID has 100, EXACT has 95, HIGH has 80 or 85, MEDIUM
    has 70 to 94, LOW has 25 to 80; no result is labelled SIMILAR. *)
Theorem legacy_level_confidence_table (source : Product) (candidates : list Product) :
  Forall (fun m =>
            match matchLevel m with
            | EXACT_ID => confidence m = 100%Z
            | EXACT => confidence m = 95%Z
            | HIGH => confidence m = 80%Z \/ confidence m = 85%Z
            | MEDIUM => (70 <= confidence m <= 94)%Z
            | LOW => (25 <= confidence m <= 80)%Z
            | SIMILAR => False
            end)
         (ProductMatcher.findMatches source candidates).
Proof.
  apply legacy_findMatches_Forall. intros c _.
  split; [reflexivity |].
  split; [| split].
  - eapply Forall_impl; [| apply level2For_shape].
    cbn. intros m (_ & _ & [[-> H] | [-> H]]); exact H.
  - eapply Forall_impl; [| apply level3For_shape].
    cbn. intros m (_ & _ & -> & H). exact H.
  - eapply Forall_impl; [| apply level4For_shape].
    cbn. intros m (_ & _ & -> & H). exact H.
Qed.

(** X18.  When no model can be read off the title of the source, the
    legacy matcher skips its Levels 2 and 3: every result is an exact
    product ID match or a LOW fuzzy match. *)
Theorem legacy_without_model (source : Product) (candidates : list Product)
        (H : ProductUtils.extractModel (title source) = "") :
  Forall (fun m => matchLevel m = EXACT_ID \/ matchLevel m = LOW)
         (ProductMatcher.findMatches source candidates).
Proof.
  unfold ProductMatcher.findMatches. cbv zeta.
  destruct (List.length _ =? 0)%nat; [constructor |].
  unfold ProductMatcher.findBrandModelStorageMatches,
    ProductMatcher.findBrandModelMatches.
  assert (E : a_model (ProductMatcher.extractAttributes source) = "")
    by (unfold ProductMatcher.extractAttributes; cbn [a_model]; exact H).
  rewrite E. cbn [truthy negb app List.length Nat.leb Nat.ltb].
  destruct (truthy (productId source) && _)%bool.
  - apply sortAndLimit_Forall. destruct (truthy (productId source)); [| constructor].
    eapply Forall_impl; [| apply findExactIdMatches_all].
    cbn. intros m (Hm & _). now left.
  - apply sortAndLimit_Forall.
    unfold ProductMatcher.findFuzzyMatches.
    apply Forall_flat_map, Forall_forall. intros c _.
    eapply Forall_impl; [| apply level4For_shape].
    cbn. intros m (_ & _ & Hm & _). now right.
Qed.

(** A sandal, in whose title no model is found, against another sandal. *)
Lemma legacy_without_model_witness :
  map matchLevel (ProductMatcher.findMatches sandal [sandalMen; phone256]) = [LOW]
  /\ Forall (fun m => matchLevel m = EXACT_ID \/ matchLevel m = LOW)
            (ProductMatcher.findMatches sandal [sandalMen; phone256]).
Proof.
  split; [vm_compute; reflexivity |].
  apply (legacy_without_model sandal). vm_compute. reflexivity.
Defined.

(** ** The comparisons of the legacy matcher *)

Section LegacyComparisons.
Import ProductMatcher.

Lemma shareNumber_sym (n1 n2 : option (list string)) :
  shareNumber n1 n2 = shareNumber n2 n1.
Proof.
  destruct n1 as [l1|], n2 as [l2|]; try reflexivity. cbn [shareNumber].
  apply Bool.eq_true_iff_eq. rewrite !existsb_exists.
  split; intros (x & Hx & H); apply andb_prop in H; destruct H as [H1 H2];
    apply arrIncludes_In in H1; exists x; (split; [exact H1 |]);
    apply andb_true_intro; (split; [now apply arrIncludes_In | exact H2]).
Qed.

Lemma compareModels_sym (m1 m2 : string) : compareModels m1 m2 = compareModels m2 m1.
Proof.
  unfold compareModels. cbv zeta.
  rewrite (Bool.orb_comm (negb (truthy m1))).
  destruct (negb (truthy m2) || negb (truthy m1))%bool; [reflexivity |].
  rewrite (String.eqb_sym (Regex.replaceAll nonAlnum "" (toLowerCase m1))).
  destruct (_ =? _)%string; [reflexivity |].
  rewrite (Bool.orb_comm (includes (Regex.replaceAll nonAlnum "" (toLowerCase m1)) _)).
  destruct (_ || _)%bool; [reflexivity |].
  apply shareNumber_sym.
Qed.

Lemma brandsMatch_sym (a b : string) : Brand.brandsMatch a b = Brand.brandsMatch b a.
Proof.
  apply Bool.eq_true_iff_eq. rewrite !brandsMatch_spec.
  split; intros (H1 & H2 & H3); auto.
Qed.

Lemma existsb_ext {A : Type} (f g : A -> bool) (l : list A) :
  (forall x, f x = g x) -> existsb f l = existsb g l.
Proof.
  intro H. induction l as [|x r IH]; [reflexivity |].
  cbn [existsb]. now rewrite H, IH.
Qed.

Lemma compareBrands_sym (a1 a2 : ProductAttributes) :
  compareBrands a1 a2 = compareBrands a2 a1.
Proof.
  unfold compareBrands. cbv zeta.
  rewrite (Bool.andb_comm (truthy (orElse (a_brand a1) ""))).
  rewrite (brandsMatch_sym (orElse (a_brand a1) "")).
  destruct (_ && _ && _)%bool; [reflexivity |].
  rewrite (Bool.andb_comm (truthy (toLowerCase (orElse (a_model a1) "")))).
  rewrite (String.eqb_sym (toLowerCase (orElse (a_model a1) ""))).
  rewrite <- (Bool.orb_assoc (_ =? _)%string),
          (Bool.orb_comm (includes (toLowerCase (orElse (a_model a1) "")) _)),
          (Bool.orb_assoc (_ =? _)%string).
  destruct (_ && _ && _)%bool; [reflexivity |].
  rewrite (existsb_ext
             (fun brand => includes (toLowerCase (orElse (a_model a1) "")) brand
                           && includes (toLowerCase (orElse (a_model a2) "")) brand)
             (fun brand => includes (toLowerCase (orElse (a_model a2) "")) brand
                           && includes (toLowerCase (orElse (a_model a1) "")) brand))
    by (intro; apply Bool.andb_comm).
  destruct (existsb _ commonBrands); [reflexivity |].
  apply shareNumber_sym.
Qed.

Lemma calculateTextSimilarity_sizes (t1 t2 : string) :
  calculateTextSimilarity t1 t2
  = if (0 <? unionSize (tokenize t1) (tokenize t2))%nat
    then (SmartMatcher.ofNat (interSize (tokenize t1) (tokenize t2))
          / SmartMatcher.ofNat (unionSize (tokenize t1) (tokenize t2)))%Q
    else 0%Q.
Proof. reflexivity. Qed.
End LegacyComparisons.

(** X19.  The comparisons of the legacy matcher do not depend on the order
    of their arguments: the model comparison, the brand comparison and the
    text similarity are symmetric, and the text similarity lies between 0
    and 1. *)
Theorem legacy_comparisons_symmetric
        (m1 m2 : string) (a1 a2 : ProductAttributes) (t1 t2 : string) :
  ProductMatcher.compareModels m1 m2 = ProductMatcher.compareModels m2 m1
  /\ ProductMatcher.compareBrands a1 a2 = ProductMatcher.compareBrands a2 a1
  /\ ProductMatcher.calculateTextSimilarity t1 t2
     = ProductMatcher.calculateTextSimilarity t2 t1
  /\ (0 <= ProductMatcher.calculateTextSimilarity t1 t2 <= 1)%Q.
Proof.
  split; [apply compareModels_sym |].
  split; [apply compareBrands_sym |].
  rewrite !calculateTextSimilarity_sizes.
  rewrite (interSize_sym (ProductMatcher.tokenize t2)),
          (unionSize_sym (ProductMatcher.tokenize t2)).
  split; [reflexivity |].
  destruct (0 <? _)%nat; [| split; discriminate].
  split; [apply ratio_nonneg | apply ratio_le_1, interSize_le_unionSize].
Qed.

Lemma clean_model (re_class : ascii -> bool) (model : string) :
  (forall c, re_class c = negb (isLowerAlnum c)) ->
  Regex.replaceAll (Regex.Chr re_class) "" model = keepChars isLowerAlnum model.
Proof.
  intro H. rewrite replaceAll_Chr, substChars_empty.
  apply keepChars_ext. intro c. rewrite H. apply Bool.negb_involutive.
Qed.

(** X20.  Two models are the same for both matchers when they differ only
    in the case of their letters and in characters other than letters and
    digits: the model score of the weighted scorer is then the full 30, and
    the model comparison of the legacy matcher succeeds. *)
Theorem models_equal_up_to_formatting
        (m1 m2 : string) (t1 t2 : list string)
        (H1 : m1 <> "") (H2 : m2 <> "")
        (E : keepChars isLowerAlnum (toLowerCase m1)
             = keepChars isLowerAlnum (toLowerCase m2)) :
  SmartMatcher.scoreModel m1 m2 t1 t2 = 30%Q
  /\ ProductMatcher.compareModels m1 m2 = true.
Proof.
  unfold SmartMatcher.scoreModel, ProductMatcher.compareModels. cbv zeta.
  rewrite (truthy_nonempty _ H1), (truthy_nonempty _ H2). cbn [negb orb].
  unfold SmartMatcher.nonAlnum, ProductMatcher.nonAlnum.
  rewrite !(clean_model _ _ (fun c => eq_refl)), E, String.eqb_refl.
  split; reflexivity.
Qed.

Lemma models_equal_up_to_formatting_witness :
  SmartMatcher.scoreModel "iPhone 15 Pro" "IPHONE-15pro" [] [] = 30%Q
  /\ ProductMatcher.compareModels "iPhone 15 Pro" "IPHONE-15pro" = true.
Proof.
  apply (models_equal_up_to_formatting "iPhone 15 Pro" "IPHONE-15pro" [] []).
  - discriminate.
  - discriminate.
  - vm_compute. reflexivity.
Defined.

(** ** Similar products *)

Section Similar.
Import SimilarProducts.

Lemma orElse_empty (a : string) : orElse a "" = a.
Proof. destruct a; reflexivity. Qed.

Lemma similarFor_shape (sb sc st scol ssh : string) (c : Product) :
  Forall (fun m =>
            product m = c /\ matchLevel m = SIMILAR
            /\ (35 <= confidence m <= 90)%Z
            /\ similarity m = None /\ scoring m = None
            /\ sb <> "" /\ brand c <> ""
            /\ includes (toLowerCase (brand c)) (beforeSpace sb) = true
            /\ sc <> "" /\ sc = toLowerCase (category c))
         (similarFor sb sc st scol ssh c).
Proof.
  unfold similarFor. cbv zeta. rewrite !orElse_empty.
  destruct (negb (truthy (toLowerCase (brand c))) || negb (truthy sb)
            || negb (includes (toLowerCase (brand c)) (beforeSpace sb)))%bool eqn:G;
    [constructor |].
  apply Bool.orb_false_elim in G. destruct G as [G G3].
  apply Bool.orb_false_elim in G. destruct G as [G1 G2].
  apply Bool.negb_false_iff in G1, G2, G3.
  assert (Hsb : sb <> "") by (intros ->; discriminate).
  assert (Hcb : brand c <> "") by (intro E; rewrite E in G1; discriminate).
  destruct (truthy sc && truthy (toLowerCase (category c))
            && (sc =? toLowerCase (category c)))%bool eqn:C.
  - apply andb_prop in C. destruct C as [C C3].
    apply andb_prop in C. destruct C as [C1 C2].
    apply String.eqb_eq in C3.
    assert (Hsc : sc <> "") by (intros ->; discriminate).
    repeat match goal with
           | |- context [if ?b then _ else _] => destruct b
           end;
      cbv beta iota zeta;
      repeat constructor; cbn [product matchLevel confidence similarity scoring];
      try reflexivity; try assumption; try lia.
  - cbv beta iota zeta. cbn [Z.leb Z.compare Pos.compare Pos.compare_cont].
    constructor.
Qed.

Lemma findSimilarProducts_Forall (P : MatchResult -> Prop)
      (source : Product) (candidates : list Product) :
  (forall c, In c candidates ->
     Forall P (similarFor (toLowerCase (orElse (brand source) ""))
                          (orElse (toLowerCase (category source)) "")
                          (toLowerCase (title source))
                          (firstMatchLower colorRe (toLowerCase (title source)))
                          (firstMatchLower shadeRe (toLowerCase (title source))) c)) ->
  Forall P (findSimilarProducts source candidates).
Proof.
  intro H. unfold findSimilarProducts, slice0. cbv zeta.
  apply firstn_Forall, sort_Forall, Forall_flat_map, Forall_forall.
  exact H.
Qed.
End Similar.

(** X21.  [findSimilarProducts] returns at most 15 results, in order of
    non-increasing confidence, all labelled SIMILAR with a confidence from
    35 to 90.  Every result is a candidate with a non-empty brand that
    holds the first word of the brand of the source, and with the same
    non-empty category as the source, up to the case of the letters: a
    candidate that shares the brand alone is never returned. *)
Theorem findSimilarProducts_results (source : Product) (candidates : list Product) :
  (List.length (SimilarProducts.findSimilarProducts source candidates) <= 15)%nat
  /\ StronglySorted (fun a b => (confidence b <= confidence a)%Z)
                    (SimilarProducts.findSimilarProducts source candidates)
  /\ Forall (fun m =>
               In (product m) candidates
               /\ matchLevel m = SIMILAR
               /\ (35 <= confidence m <= 90)%Z
               /\ brand source <> "" /\ brand (product m) <> ""
               /\ includes (toLowerCase (brand (product m)))
                           (SimilarProducts.beforeSpace (toLowerCase (brand source)))
                  = true
               /\ category source <> ""
               /\ toLowerCase (category (product m)) = toLowerCase (category source))
            (SimilarProducts.findSimilarProducts source candidates).
Proof.
  split; [| split].
  - unfold SimilarProducts.findSimilarProducts, slice0. cbv zeta.
    rewrite length_firstn. lia.
  - unfold SimilarProducts.findSimilarProducts, slice0. cbv zeta.
    apply firstn_sorted, sort_sorted.
  - apply findSimilarProducts_Forall. intros c Hc.
    eapply Forall_impl; [| apply similarFor_shape].
    cbn beta. rewrite !orElse_empty.
    intros m (-> & Hl & Hconf & _ & _ & Hsb & Hcb & Hinc & Hsc & Ecat).
    repeat (split; [first [assumption | reflexivity] |]).
    split; [intro E; rewrite E in Hsb; now apply Hsb |].
    split; [assumption |]. split; [assumption |].
    split; [intro E; rewrite E in Hsc; now apply Hsc |].
    now symmetry.
Qed.

(** ** What the de-duplicators keep *)

Section KeepOne.
Context {A : Type}.
Variable key : A -> string.
Variable keep : list A -> list A.
Hypothesis keep_one : forall vs, vs <> [] -> exists e, keep vs = [e] /\ In e vs.

(** Every element kept is what [keep] makes of the group of its key. *)
Lemma dedupWith_elem (l : list A) (e : A) :
  In e (dedupWith key keep l) ->
  In e l /\ keep (filter (fun x => (key x =? key e)%string) l) = [e].
Proof.
  unfold dedupWith. intro H. apply in_flat_map in H.
  destruct H as ([k vs] & Hg & He). cbn [snd] in He.
  apply groupBy_In in Hg. destruct Hg as [Hne ->].
  destruct (keep_one _ Hne) as (e' & K & Hin).
  rewrite K in He. destruct He as [<- | []].
  apply filter_In in Hin. destruct Hin as [Hin Hk].
  apply String.eqb_eq in Hk. rewrite Hk. tauto.
Qed.

Lemma dedupWith_keys (l : list A) :
  map key (dedupWith key keep l) = map fst (groupBy key l).
Proof.
  unfold dedupWith.
  assert (H : forall k vs, In (k, vs) (groupBy key l) ->
            exists e, keep vs = [e] /\ key e = k).
  { intros k vs Hg. apply groupBy_In in Hg. destruct Hg as [Hne ->].
    destruct (keep_one _ Hne) as (e & K & Hin). exists e. split; [exact K |].
    apply filter_In in Hin. destruct Hin as [_ Hk]. now apply String.eqb_eq in Hk. }
  induction (groupBy key l) as [|[k vs] g IH]; [reflexivity |].
  cbn [flat_map map fst snd]. rewrite map_app, IH by (intros; apply H; now right).
  destruct (H k vs (or_introl eq_refl)) as (e & -> & <-). reflexivity.
Qed.

Lemma dedupWith_keys_NoDup (l : list A) : NoDup (map key (dedupWith key keep l)).
Proof. rewrite dedupWith_keys. apply groupBy_keys_NoDup. Qed.

Lemma dedupWith_covers (l : list A) (x : A) :
  In x l -> exists e, In e (dedupWith key keep l) /\ key e = key x.
Proof.
  intro Hx. pose proof (groupBy_covers key l x Hx) as Hk.
  rewrite <- dedupWith_keys in Hk. apply in_map_iff in Hk.
  destruct Hk as (e & Ek & He). now exists e.
Qed.
End KeepOne.

Lemma keepCheapestMatch_one (vs : list MatchResult) :
  vs <> [] -> exists e, Dedup.keepCheapestMatch vs = [e] /\ In e vs.
Proof.
  destruct vs as [|first rest]; [congruence |]. intros _.
  rewrite keepCheapestMatch_eq. eexists. split; [reflexivity |].
  apply fold_choose_In, cheaperMatch_choice.
Qed.

Lemma keepCheapestProduct_one (vs : list Product) :
  vs <> [] -> exists e, Dedup.keepCheapestProduct vs = [e] /\ In e vs.
Proof.
  destruct vs as [|first rest]; [congruence |]. intros _.
  rewrite keepCheapestProduct_eq. eexists. split; [reflexivity |].
  apply fold_choose_In, cheaperProduct_choice.
Qed.

Lemma deduplicateColorVariants_facts (matches : list MatchResult) :
  (forall e, In e (Dedup.deduplicateColorVariants matches) ->
     In e matches
     /\ forall x, In x matches ->
          Dedup.variantKey (product x) = Dedup.variantKey (product e) ->
          (numericPrice (product e) <= numericPrice (product x))%Q)
  /\ NoDup (map (fun m => Dedup.variantKey (product m))
                (Dedup.deduplicateColorVariants matches))
  /\ (forall x, In x matches ->
        exists e, In e (Dedup.deduplicateColorVariants matches)
                  /\ Dedup.variantKey (product e) = Dedup.variantKey (product x)).
Proof.
  rewrite deduplicateColorVariants_dedupWith.
  split; [| split].
  - intros e He.
    apply (dedupWith_elem _ _ keepCheapestMatch_one) in He.
    destruct He as [Hin K]. split; [exact Hin |]. intros x Hx Hk.
    destruct (filter _ matches) as [|first rest] eqn:F; [discriminate K |].
    rewrite keepCheapestMatch_eq in K. injection K as <-.
    apply fold_cheaperMatch_min. rewrite <- F. apply filter_In.
    split; [exact Hx |]. now apply String.eqb_eq.
  - apply (dedupWith_keys_NoDup _ _ keepCheapestMatch_one).
  - intros x Hx.
    apply (dedupWith_covers (fun m => Dedup.variantKey (product m)) _
                            keepCheapestMatch_one _ _ Hx).
Qed.

(** X22.  [deduplicateColorVariants] keeps exactly one result for every
    key made of the site, the brand and the title without its colour
    words: the results kept are results given, no two of them have the same
    key, every result given has its key represented, and no result given
    with the key of a result kept has a lower numeric price. *)
Theorem color_variants_cheapest_per_key (matches : list MatchResult) :
  (forall e, In e (Dedup.deduplicateColorVariants matches) ->
     In e matches
     /\ forall x, In x matches ->
          Dedup.variantKey (product x) = Dedup.variantKey (product e) ->
          (numericPrice (product e) <= numericPrice (product x))%Q)
  /\ NoDup (map (fun m => Dedup.variantKey (product m))
                (Dedup.deduplicateColorVariants matches))
  /\ (forall x, In x matches ->
        exists e, In e (Dedup.deduplicateColorVariants matches)
                  /\ Dedup.variantKey (product e) = Dedup.variantKey (product x)).
Proof. apply deduplicateColorVariants_facts. Qed.

Lemma NoDup_map_pair {A B C : Type} (f : A -> B) (g : A -> C) (l : list A) :
  NoDup (map g l) -> NoDup (map (fun x => (f x, g x)) l).
Proof.
  induction l as [|x r IH]; intro H; [constructor |].
  cbn [map] in *. inversion H as [|? ? Hx Hr]; subst.
  constructor; [| now apply IH].
  intro Hin. apply Hx. apply in_map_iff in Hin.
  destruct Hin as (y & E & Hy). injection E as _ E.
  apply in_map_iff. now exists y.
Qed.

Lemma deduplicateSiteProducts_In (vs : list Product) (e : Product) :
  In e (Dedup.deduplicateSiteProducts vs) -> In e vs.
Proof.
  rewrite deduplicateSiteProducts_dedupWith. intro H.
  now apply (dedupWith_elem _ _ keepCheapestProduct_one) in H.
Qed.

Lemma deduplicateProducts_facts (products : list Product) :
  incl (Dedup.deduplicateProducts products) products
  /\ NoDup (map (fun p => (site p, Dedup.normalizeProductKey p))
                (Dedup.deduplicateProducts products))
  /\ (forall x, In x products ->
        exists e, In e (Dedup.deduplicateProducts products)
                  /\ site e = site x
                  /\ Dedup.normalizeProductKey e = Dedup.normalizeProductKey x).
Proof.
  rewrite deduplicateProducts_dedupWith. unfold dedupWith.
  assert (Hgrp : forall k vs, In (k, vs) (groupBy site products) ->
            forall e, In e (Dedup.deduplicateSiteProducts vs) ->
                      In e products /\ site e = k).
  { intros k vs Hg e He. apply deduplicateSiteProducts_In in He.
    apply groupBy_In in Hg. destruct Hg as [_ ->].
    apply filter_In in He. destruct He as [Hin Hk].
    now apply String.eqb_eq in Hk. }
  split; [| split].
  - intros e He. apply in_flat_map in He. destruct He as ([k vs] & Hg & He).
    exact (proj1 (Hgrp _ _ Hg _ He)).
  - pose proof (groupBy_keys_NoDup site products) as Hnd.
    induction (groupBy site products) as [|[k vs] g IH]; [constructor |].
    cbn [flat_map map fst snd] in *. rewrite map_app.
    inversion Hnd as [|? ? Hk Hg]; subst.
    apply NoDup_app.
    + apply NoDup_map_pair. rewrite deduplicateSiteProducts_dedupWith.
      apply (dedupWith_keys_NoDup _ _ keepCheapestProduct_one).
    + apply IH; [| exact Hg]. intros k' vs' Hin. apply Hgrp. now right.
    + intros a Ha Ha'. apply in_map_iff in Ha. destruct Ha as (e & <- & He).
      apply (Hgrp k vs (or_introl eq_refl)) in He. destruct He as [_ Hs].
      apply in_map_iff in Ha'. destruct Ha' as (e' & E & He').
      apply in_flat_map in He'. destruct He' as ([k' vs'] & Hg' & He').
      cbn [snd] in He'. apply (Hgrp k' vs' (or_intror Hg')) in He'.
      destruct He' as [_ Hs']. injection E as E _.
      apply Hk. apply in_map_iff. exists (k', vs'). split; [| exact Hg'].
      cbn [fst]. congruence.
  - intros x Hx. pose proof (groupBy_covers site products x Hx) as Hc.
    apply in_map_iff in Hc. destruct Hc as ([k vs] & Ek & Hg). cbn [fst] in Ek.
    pose proof (groupBy_In _ _ _ _ Hg) as [_ Hvs].
    assert (Hxv : In x vs).
    { rewrite Hvs. apply filter_In. split; [exact Hx |]. now apply String.eqb_eq. }
    destruct (dedupWith_covers Dedup.normalizeProductKey _
                keepCheapestProduct_one vs x Hxv) as (e & He & Hk).
    rewrite <- deduplicateSiteProducts_dedupWith in He.
    exists e. split.
    + apply in_flat_map. exists (k, vs). split; [exact Hg | exact He].
    + split; [| exact Hk].
      destruct (Hgrp _ _ Hg _ He) as [_ Hs]. congruence.
Qed.

(** X23.  [deduplicateProducts] keeps exactly one product for every pair of
    a site and a normalised product key: the products kept are products
    given, no two of them have the same site and key, and every product
    given has its site and key represented. *)
Theorem deduplicateProducts_one_per_site_and_key (products : list Product) :
  incl (Dedup.deduplicateProducts products) products
  /\ NoDup (map (fun p => (site p, Dedup.normalizeProductKey p))
                (Dedup.deduplicateProducts products))
  /\ (forall x, In x products ->
        exists e, In e (Dedup.deduplicateProducts products)
                  /\ site e = site x
                  /\ Dedup.normalizeProductKey e = Dedup.normalizeProductKey x).
Proof. apply deduplicateProducts_facts. Qed.

(** ** The comparison as a whole *)

Section Stages.
Import Comparison.

Lemma smart_stage (source : Product) (candidates : list Product) :
  Forall (fun m => In (product m) candidates /\ scoring m <> None)
         (SmartMatcher.findMatches source candidates).
Proof.
  apply Forall_forall. intros m Hm. apply findMatches_origin in Hm.
  destruct Hm as [Hin (b & Hb & _)]. split; [| congruence].
  apply filterByCategory_spec in Hin. destruct Hin as [Hin _].
  now apply preprocessCandidates_In in Hin.
Qed.

Lemma smart_findMatches_length (source : Product) (candidates : list Product) :
  (List.length (SmartMatcher.findMatches source candidates) <= 8)%nat.
Proof.
  unfold SmartMatcher.findMatches. cbv zeta.
  destruct (List.length _ =? 0)%nat; [simpl; lia |].
  unfold slice0, SmartMatcher.MAX_RESULTS. rewrite length_firstn. lia.
Qed.

Lemma legacy_stage (source : Product) (candidates : list Product) :
  Forall (fun m => In (product m) candidates
                   /\ scoring m = None /\ matchLevel m <> SIMILAR)
         (ProductMatcher.findMatches source candidates).
Proof.
  apply legacy_findMatches_Forall. intros c Hc.
  apply legacy_filtered_In in Hc. destruct Hc as (Hin & _).
  split; [cbn; split; [exact Hin | split; [reflexivity | discriminate]] |].
  split; [| split].
  - eapply Forall_impl; [| apply level2For_shape].
    cbn. intros m (-> & Hs & [[E _] | [E _]]); rewrite E;
      repeat split; try assumption; discriminate.
  - eapply Forall_impl; [| apply level3For_shape].
    cbn. intros m (-> & Hs & E & _); rewrite E;
      repeat split; try assumption; discriminate.
  - eapply Forall_impl; [| apply level4For_shape].
    cbn. intros m (-> & Hs & E & _); rewrite E;
      repeat split; try assumption; discriminate.
Qed.

Lemma similar_stage (source : Product) (candidates : list Product) :
  Forall (fun m => In (product m) candidates
                   /\ scoring m = None /\ matchLevel m = SIMILAR)
         (SimilarProducts.findSimilarProducts source candidates).
Proof.
  apply findSimilarProducts_Forall. intros c Hc.
  eapply Forall_impl; [| apply similarFor_shape].
  cbn beta. intros m (-> & Hl & _ & _ & Hs & _). tauto.
Qed.

Lemma deduplicateColorVariants_Forall (P : MatchResult -> Prop)
      (matches : list MatchResult) :
  Forall P matches -> Forall P (Dedup.deduplicateColorVariants matches).
Proof.
  rewrite !Forall_forall. intros H e He.
  apply H. exact (proj1 (proj1 (deduplicateColorVariants_facts matches) e He)).
Qed.

Lemma deduplicateColorVariants_length (matches : list MatchResult) :
  (List.length (Dedup.deduplicateColorVariants matches) <= List.length matches)%nat.
Proof.
  destruct (deduplicateColorVariants_facts matches) as (Hin & Hnd & _).
  rewrite <- (length_map (fun m => Dedup.variantKey (product m))
                         (Dedup.deduplicateColorVariants matches)).
  rewrite <- (length_map (fun m => Dedup.variantKey (product m)) matches).
  apply NoDup_incl_length; [exact Hnd |].
  intros k Hk. apply in_map_iff in Hk. destruct Hk as (e & <- & He).
  apply (in_map (fun m => Dedup.variantKey (product m))). now apply Hin.
Qed.

Lemma length_zero_nil {A : Type} (l : list A) :
  (List.length l =? 0)%nat = true -> l = [].
Proof. destruct l; [reflexivity | discriminate]. Qed.
End Stages.

(** X24.  The matches that the comparison displays come from one stage
    only: either all of them carry the score breakdown of the weighted
    scorer, or the weighted scorer found nothing and all of them are results
    of the legacy matcher, or both found nothing and all of them are
    labelled SIMILAR.  In each case there are at most 20 of them, each is
    one of the scraped products, and no two of them have the same site,
    brand and title without colour words. *)
Theorem startComparison_results (product0 : Product) (allProducts : list Product) :
  (Forall (fun m => scoring m <> None)
          (Comparison.startComparison product0 allProducts)
   \/ (SmartMatcher.findMatches product0 (Dedup.deduplicateProducts allProducts) = []
       /\ Forall (fun m => scoring m = None /\ matchLevel m <> SIMILAR)
                 (Comparison.startComparison product0 allProducts))
   \/ (SmartMatcher.findMatches product0 (Dedup.deduplicateProducts allProducts) = []
       /\ ProductMatcher.findMatches product0 (Dedup.deduplicateProducts allProducts)
          = []
       /\ Forall (fun m => matchLevel m = SIMILAR)
                 (Comparison.startComparison product0 allProducts)))
  /\ (List.length (Comparison.startComparison product0 allProducts) <= 20)%nat
  /\ Forall (fun m => In (product m) allProducts)
            (Comparison.startComparison product0 allProducts)
  /\ NoDup (map (fun m => Dedup.variantKey (product m))
                (Comparison.startComparison product0 allProducts)).
Proof.
  unfold Comparison.startComparison. cbv zeta. cbn [app].
  set (dd := Dedup.deduplicateProducts allProducts).
  assert (Hdd : forall p, In p dd -> In p allProducts)
    by (apply deduplicateProducts_facts).
  destruct (0 <? List.length dd)%nat;
    [| split; [left; constructor | split; [simpl; lia | split; constructor]]].
  pose proof (smart_stage product0 dd) as H1.
  pose proof (legacy_stage product0 dd) as H2.
  pose proof (similar_stage product0 dd) as H3.
  destruct (List.length (SmartMatcher.findMatches product0 dd) =? 0)%nat eqn:E1.
  - apply length_zero_nil in E1. rewrite E1. cbn [app].
    destruct (List.length (ProductMatcher.findMatches product0 dd) =? 0)%nat eqn:E2.
    + apply length_zero_nil in E2. rewrite E2. cbn [app].
      split; [right; right; repeat split |].
      * apply deduplicateColorVariants_Forall.
        eapply Forall_impl; [| exact H3]. cbn. tauto.
      * split; [| split].
        -- etransitivity; [apply deduplicateColorVariants_length |].
           unfold SimilarProducts.findSimilarProducts, slice0. cbv zeta.
           rewrite length_firstn. lia.
        -- apply deduplicateColorVariants_Forall.
           eapply Forall_impl; [| exact H3]. cbn. intros m (Hm & _). now apply Hdd.
        -- apply deduplicateColorVariants_facts.
    + split; [right; left; split; [reflexivity |] |].
      * apply deduplicateColorVariants_Forall.
        eapply Forall_impl; [| exact H2]. cbn. tauto.
      * split; [| split].
        -- etransitivity; [apply deduplicateColorVariants_length |].
           apply legacy_findMatches_sorted.
        -- apply deduplicateColorVariants_Forall.
           eapply Forall_impl; [| exact H2]. cbn. intros m (Hm & _). now apply Hdd.
        -- apply deduplicateColorVariants_facts.
  - split; [left |].
    + apply deduplicateColorVariants_Forall.
      eapply Forall_impl; [| exact H1]. cbn. tauto.
    + split; [| split].
      * etransitivity; [apply deduplicateColorVariants_length |].
        pose proof (smart_findMatches_length product0 dd). lia.
      * apply deduplicateColorVariants_Forall.
        eapply Forall_impl; [| exact H1]. cbn. intros m (Hm & _). now apply Hdd.
      * apply deduplicateColorVariants_facts.
Qed.

(** ** Price validation *)

Section Prices.
Import PriceValidation.
Open Scope Q_scope.

Lemma Qltb_false (a b : Q) : Qltb a b = false -> b <= a.
Proof.
  unfold Qltb. intro H. apply Bool.negb_false_iff in H. now apply Qle_bool_iff.
Qed.

Lemma Math_max_cases (a b : Q) :
  (a <= b /\ Math_max a b = b) \/ (b < a /\ Math_max a b = a).
Proof.
  unfold Math_max. destruct (Qleb a b) eqn:E.
  - left. split; [now apply Qleb_true | reflexivity].
  - right. split; [now apply Qleb_false | reflexivity].
Qed.

Lemma within_range_confidence (ratio : Q) :
  1 # 2 <= Math_max (5 # 10) (1 - Qabs (ratio - 1)) <= 1.
Proof.
  pose proof (Qabs_nonneg (ratio - 1)) as Hd.
  destruct (Math_max_cases (5 # 10) (1 - Qabs (ratio - 1))) as [[H ->] | [H ->]];
    split; lra.
Qed.

Local Ltac price_cases originalPrice comparedPrice tolerance :=
  unfold validatePrice; cbv zeta;
  destruct (Qleb comparedPrice 0) eqn:E0;
  [ apply Qleb_true in E0
  | apply Qleb_false in E0;
    destruct (Qleb originalPrice 0);
    [ | destruct (Qltb (comparedPrice / originalPrice) (low tolerance));
        [ | destruct (Qltb (high tolerance) (comparedPrice / originalPrice));
            [ | pose proof (within_range_confidence (comparedPrice / originalPrice))
                  as [Hlo Hhi] ] ] ] ];
  cbn [v_confidence isValid isSuspicious reason].

Local Ltac settle :=
  first [ reflexivity | discriminate | assumption | lra | congruence
        | exfalso; lra | exfalso; congruence ].

(** X25.  The confidence that [validatePrice] reports lies between 0 and 1.
    A compared price is invalid exactly when it is zero or negative; a
    result is not suspicious exactly when its confidence is at least 0.5;
    and a reason is given exactly for the suspicious results. *)
Theorem validatePrice_confidence
        (originalPrice comparedPrice : Q) (tolerance : PriceValidation.Tolerance) :
  (0 <= PriceValidation.v_confidence
          (PriceValidation.validatePrice originalPrice comparedPrice tolerance) <= 1)%Q
  /\ (PriceValidation.isValid
        (PriceValidation.validatePrice originalPrice comparedPrice tolerance) = false
      <-> (comparedPrice <= 0)%Q)
  /\ (PriceValidation.isSuspicious
        (PriceValidation.validatePrice originalPrice comparedPrice tolerance) = false
      <-> (1 # 2 <= PriceValidation.v_confidence
             (PriceValidation.validatePrice originalPrice comparedPrice tolerance))%Q)
  /\ (PriceValidation.isSuspicious
        (PriceValidation.validatePrice originalPrice comparedPrice tolerance) = true
      <-> PriceValidation.reason
            (PriceValidation.validatePrice originalPrice comparedPrice tolerance)
          <> None).
Proof.
  split; [| split; [| split]].
  - price_cases originalPrice comparedPrice tolerance; split; settle.
  - price_cases originalPrice comparedPrice tolerance; split; intro H; settle.
  - price_cases originalPrice comparedPrice tolerance; split; intro H; settle.
  - price_cases originalPrice comparedPrice tolerance; split; intro H; settle.
Qed.
End Prices.


Section PriceConfidence.
Import PriceValidation.
Open Scope Q_scope.

Lemma Qltb_iff_false (a b : Q) : Qltb a b = false <-> b <= a.
Proof.
  unfold Qltb. rewrite Bool.negb_false_iff. apply Qle_bool_iff.
Qed.

Lemma quotient_nonpos (c o : Q) : c <= 0 -> 0 < o -> c / o <= 0.
Proof.
  intros Hc Ho. unfold Qdiv.
  setoid_replace 0 with (0 * / o) by ring.
  apply Qmult_le_compat_r; [exact Hc |].
  apply Qlt_le_weak, Qinv_lt_0_compat, Ho.
Qed.

Lemma calculatePriceConfidence_range (o c : Q) :
  0 <= calculatePriceConfidence o c <= 1
  /\ (calculatePriceConfidence o c == 0 <-> c <= 0).
Proof.
  unfold calculatePriceConfidence, validatePrice, defaultTolerance. cbv zeta.
  cbn [low high].
  destruct (Qleb c 0) eqn:E0.
  { apply Qleb_true in E0. cbn. split; [lra | split; [intros _; exact E0 | reflexivity]]. }
  apply Qleb_false in E0.
  assert (Hmin : forall x, 1 # 2 <= x -> 1 # 2 <= Math_min 1 (x + (2 # 10)) <= 1).
  { intros x Hx. unfold Math_min. destruct (Qleb 1 (x + (2 # 10))) eqn:M.
    - lra.
    - apply Qleb_false in M. lra. }
  destruct (Qleb o 0).
  { cbn [isValid isSuspicious v_confidence negb].
    destruct (_ && _)%bool.
    - destruct (Hmin (5 # 10)) as [H1 H2]; [lra |].
      split; [lra | split; intro H; [exfalso; rewrite H in H1; lra | lra]].
    - split; [lra | split; intro H; [exfalso; lra | lra]]. }
  destruct (Qltb (c / o) (3 # 10)).
  { cbn. split; [lra | split; intro H; [exfalso; lra | lra]]. }
  destruct (Qltb 2 (c / o)).
  { cbn. split; [lra | split; intro H; [exfalso; lra | lra]]. }
  cbn [isValid isSuspicious v_confidence negb].
  pose proof (within_range_confidence (c / o)) as [Hlo Hhi].
  destruct (_ && _)%bool.
  - destruct (Hmin _ Hlo) as [H1 H2].
    split; [lra | split; intro H; [exfalso; rewrite H in H1; lra | lra]].
  - split; [lra | split; intro H; [exfalso; rewrite H in Hlo; lra | lra]].
Qed.

Lemma calculatePriceConfidence_close (o c : Q) :
  0 < o -> 9 # 10 <= c / o <= 11 # 10 -> calculatePriceConfidence o c = 1.
Proof.
  intros Ho [Hlo Hhi].
  assert (Hc : 0 < c).
  { apply Qnot_le_lt. intro Hc. pose proof (quotient_nonpos c o Hc Ho). lra. }
  unfold calculatePriceConfidence, validatePrice, defaultTolerance. cbv zeta.
  cbn [low high].
  replace (Qleb c 0) with false
    by (symmetry; apply Bool.not_true_is_false; rewrite Qleb_true; lra).
  replace (Qleb o 0) with false
    by (symmetry; apply Bool.not_true_is_false; rewrite Qleb_true; lra).
  replace (Qltb (c / o) (3 # 10)) with false
    by (symmetry; apply Qltb_iff_false; lra).
  replace (Qltb 2 (c / o)) with false
    by (symmetry; apply Qltb_iff_false; lra).
  cbn [isValid isSuspicious v_confidence negb].
  replace (Qleb (9 # 10) (c / o)) with true by (symmetry; now apply Qleb_true).
  replace (Qleb (c / o) (11 # 10)) with true by (symmetry; now apply Qleb_true).
  cbn [andb]. unfold Math_min.
  replace (Qleb 1 (Math_max (5 # 10) (1 - Qabs (c / o - 1)) + (2 # 10))) with true;
    [reflexivity |].
  symmetry. apply Qleb_true.
  assert (Hd : Qabs (c / o - 1) <= 1 # 10) by (apply Qabs_Qle_condition; split; lra).
  destruct (Math_max_cases (5 # 10) (1 - Qabs (c / o - 1))) as [[H ->] | [H ->]]; lra.
Qed.
End PriceConfidence.

(** X26.  The price confidence lies between 0 and 1; it is 0 exactly when
    the compared price is zero or negative; and it is 1 whenever the
    original price is positive and the compared price is within ten per
    cent of it. *)
Theorem calculatePriceConfidence_facts (originalPrice comparedPrice : Q) :
  (0 <= PriceValidation.calculatePriceConfidence originalPrice comparedPrice <= 1)%Q
  /\ ((PriceValidation.calculatePriceConfidence originalPrice comparedPrice == 0)%Q
      <-> (comparedPrice <= 0)%Q)
  /\ ((0 < originalPrice)%Q ->
      (9 # 10 <= comparedPrice / originalPrice <= 11 # 10)%Q ->
      PriceValidation.calculatePriceConfidence originalPrice comparedPrice = 1%Q).
Proof.
  destruct (calculatePriceConfidence_range originalPrice comparedPrice) as [H1 H2].
  split; [exact H1 |]. split; [exact H2 |].
  apply calculatePriceConfidence_close.
Qed.

(** ** The in-memory cache *)

Section CacheFacts.
Import LruCache.
Context {T : Type}.

Lemma mapDelete_keys (m : Dedup.JsMap (CacheEntry T)) (key : string) :
  map fst (mapDelete m key) = filter (fun k => negb (k =? key)%string) (map fst m).
Proof.
  unfold mapDelete. induction m as [|[a e] r IH]; [reflexivity |].
  cbn [filter map fst]. destruct (a =? key)%string; cbn [negb map fst]; now rewrite IH.
Qed.

Lemma mapDelete_absent (m : Dedup.JsMap (CacheEntry T)) (key : string) :
  ~ In key (map fst (mapDelete m key)).
Proof.
  rewrite mapDelete_keys. intro H. apply filter_In in H. destruct H as [_ H].
  now rewrite String.eqb_refl in H.
Qed.

Lemma mapDelete_length (m : Dedup.JsMap (CacheEntry T)) (key : string) :
  (List.length (mapDelete m key) <= List.length m)%nat.
Proof. unfold mapDelete. apply filter_length_le. Qed.

Lemma mapDelete_first (k : string) (e : CacheEntry T) (r : Dedup.JsMap (CacheEntry T)) :
  (List.length (mapDelete ((k, e) :: r) k) <= List.length r)%nat.
Proof.
  unfold mapDelete. cbn [filter fst]. rewrite String.eqb_refl. cbn [negb].
  apply filter_length_le.
Qed.

Lemma mapSet_length (m : Dedup.JsMap (CacheEntry T)) (key : string) (e : CacheEntry T) :
  (List.length (Dedup.mapSet m key e) <= S (List.length m))%nat.
Proof.
  rewrite <- (length_map fst (Dedup.mapSet m key e)), mapSet_keys.
  destruct (Dedup.mapHas m key); [| rewrite length_app]; rewrite length_map;
    simpl; lia.
Qed.

Lemma mapSet_keys_NoDup (m : Dedup.JsMap (CacheEntry T)) (key : string)
      (e : CacheEntry T) :
  NoDup (map fst m) -> NoDup (map fst (Dedup.mapSet m key e)).
Proof.
  intro H. rewrite mapSet_keys. destruct (Dedup.mapHas m key) eqn:E; [exact H |].
  apply NoDup_app; [exact H | repeat constructor; intros [] |].
  intros k Hk [<- | []]. apply mapHas_keys in Hk. congruence.
Qed.

Lemma mapDelete_keys_NoDup (m : Dedup.JsMap (CacheEntry T)) (key : string) :
  NoDup (map fst m) -> NoDup (map fst (mapDelete m key)).
Proof. intro H. rewrite mapDelete_keys. now apply NoDup_filter. Qed.

Lemma mapGet_mapDelete (m : Dedup.JsMap (CacheEntry T)) (key : string) :
  Dedup.mapGet (mapDelete m key) key = None.
Proof.
  apply mapGet_None. apply Bool.not_true_is_false. rewrite mapHas_keys.
  apply mapDelete_absent.
Qed.

(** What [get] answers right after a [set] of the same key. *)
Lemma get_after_set (now now' : Z) (c : Cache T) (key : string) (d : T)
      (t : option Z) :
  fst (get now' (set now c key d t) key)
  = if (ttlOr t (defaultTTL c) <? now' - now)%Z then None else Some d.
Proof.
  unfold get, set, withMap. cbn [cache maxSize defaultTTL].
  rewrite mapGet_mapSet, String.eqb_refl. cbn [ttl timestamp data].
  destruct (_ <? _)%Z; reflexivity.
Qed.

Lemma get_expired_removes (now now' : Z) (c : Cache T) (key : string) (d : T)
      (t : option Z) :
  (ttlOr t (defaultTTL c) < now' - now)%Z ->
  Dedup.mapHas (cache (snd (get now' (set now c key d t) key))) key = false.
Proof.
  intro H. unfold get, set, withMap. cbn [cache maxSize defaultTTL].
  rewrite mapGet_mapSet, String.eqb_refl. cbn [ttl timestamp data].
  apply Z.ltb_lt in H. rewrite H. cbn [snd cache].
  apply Bool.not_true_is_false. rewrite mapHas_keys. apply mapDelete_absent.
Qed.
End CacheFacts.

(** X27.  A value stored with [set] is what [get] returns for its key for
    as long as the time elapsed does not exceed the time to live, a time to
    live of 0 or an omitted one being the default of the cache; once it is
    exceeded, [get] returns null and removes the entry.  A key that was
    never stored, or that was deleted, gives null. *)
Theorem cache_get_after_set (T : Type) (now now' : Z) (c : LruCache.Cache T)
        (key : string) (d : T) (t : option Z) :
  ((now' - now <= LruCache.ttlOr t (LruCache.defaultTTL c))%Z ->
   fst (LruCache.get now' (LruCache.set now c key d t) key) = Some d)
  /\ ((LruCache.ttlOr t (LruCache.defaultTTL c) < now' - now)%Z ->
      fst (LruCache.get now' (LruCache.set now c key d t) key) = None
      /\ Dedup.mapHas
           (LruCache.cache (snd (LruCache.get now' (LruCache.set now c key d t) key)))
           key = false)
  /\ LruCache.set now c key d (Some 0%Z) = LruCache.set now c key d None
  /\ (Dedup.mapHas (LruCache.cache c) key = false ->
      LruCache.get now c key = (None, c))
  /\ fst (LruCache.get now' (snd (LruCache.delete (LruCache.set now c key d t) key))
                       key) = None.
Proof.
  split; [| split; [| split; [| split]]].
  - intro H. rewrite get_after_set.
    destruct (_ <? _)%Z eqn:E; [apply Z.ltb_lt in E; lia | reflexivity].
  - intro H. split; [| now apply get_expired_removes].
    rewrite get_after_set. apply Z.ltb_lt in H. now rewrite H.
  - reflexivity.
  - intro H. unfold LruCache.get. now rewrite (mapGet_None _ _ H).
  - unfold LruCache.get, LruCache.delete, LruCache.withMap.
    cbn [snd LruCache.cache]. now rewrite mapGet_mapDelete.
Qed.

(** X28.  The keys of the cache stay distinct, and a cache within its
    capacity stays within it: if the capacity is at least 1, the cache holds
    no more entries than its capacity and its oldest key is not the empty
    string, then after [set] it still holds no more entries than its
    capacity.  The empty string as oldest key is never evicted, so that the
    cache then grows beyond its capacity. *)
Theorem cache_capacity (T : Type) (now : Z) (c : LruCache.Cache T)
        (key : string) (d : T) (t : option Z) :
  (NoDup (map fst (LruCache.cache c)) ->
   NoDup (map fst (LruCache.cache (LruCache.set now c key d t)))
   /\ NoDup (map fst (LruCache.cache (snd (LruCache.get now c key)))))
  /\ ((1 <= LruCache.maxSize c)%Z ->
      (Z.of_nat (LruCache.size c) <= LruCache.maxSize c)%Z ->
      hd "" (map fst (LruCache.cache c)) <> "" \/ LruCache.cache c = [] ->
      (Z.of_nat (LruCache.size (LruCache.set now c key d t)) <= LruCache.maxSize c)%Z)
  /\ LruCache.size
       (LruCache.set now (LruCache.set now (LruCache.newCache T 1 60000) "" d None)
                     "a" d None) = 2%nat.
Proof.
  split; [| split; [| reflexivity]].
  - intro Hnd. split.
    + unfold LruCache.set, LruCache.withMap. cbn [LruCache.cache].
      apply mapSet_keys_NoDup.
      destruct (_ <=? _)%Z; [| exact Hnd].
      destruct (LruCache.cache c) as [|[k e] r]; [exact Hnd |].
      destruct (truthy k); [| exact Hnd].
      now apply mapDelete_keys_NoDup.
    + unfold LruCache.get.
      destruct (Dedup.mapGet _ _); [| exact Hnd].
      destruct (_ <? _)%Z; cbn [snd LruCache.withMap LruCache.cache].
      * now apply mapDelete_keys_NoDup.
      * now apply mapSet_keys_NoDup, mapDelete_keys_NoDup.
  - intros Hmax Hsize Hfirst.
    unfold LruCache.set, LruCache.size, LruCache.withMap in *.
    cbn [LruCache.cache LruCache.maxSize] in *.
    destruct (LruCache.maxSize c <=? _)%Z eqn:E.
    + apply Z.leb_le in E.
      destruct (LruCache.cache c) as [|[k e] r] eqn:C.
      * pose proof (mapSet_length [] key
                      (LruCache.mkEntry d now (LruCache.ttlOr t (LruCache.defaultTTL c)))).
        simpl in *. lia.
      * destruct Hfirst as [Hfirst | Hfirst]; [| discriminate Hfirst].
        cbn [map fst hd] in Hfirst. rewrite (truthy_nonempty _ Hfirst).
        pose proof (mapDelete_first k e r) as H1.
        pose proof (mapSet_length (LruCache.mapDelete ((k, e) :: r) k) key
                      (LruCache.mkEntry d now (LruCache.ttlOr t (LruCache.defaultTTL c))))
          as H2.
        cbn [List.length] in *. lia.
    + apply Z.leb_gt in E.
      pose proof (mapSet_length (LruCache.cache c) key
                    (LruCache.mkEntry d now (LruCache.ttlOr t (LruCache.defaultTTL c)))).
      lia.
Qed.

(** A cache of capacity 2 holding two keys. *)
Lemma cache_capacity_witness :
  (Z.of_nat (LruCache.size
     (LruCache.set 3 (LruCache.set 2 (LruCache.set 1 (LruCache.newCache nat 2 60000)
                                                   "a" 1%nat None)
                                   "b" 2%nat None)
                   "c" 3%nat None)) <= 2)%Z.
Proof.
  apply (proj1 (proj2 (cache_capacity nat 3
           (LruCache.set 2 (LruCache.set 1 (LruCache.newCache nat 2 60000)
                                         "a" 1%nat None)
                         "b" 2%nat None)
           "c" 3%nat None))).
  - vm_compute. discriminate.
  - vm_compute. discriminate.
  - left. vm_compute. discriminate.
Defined.

(** X29.  The cache evicts in order of least recent use: a successful
    [get] moves its key behind all others, and a [set] of a new key into a
    full cache removes the key in front, unless that is the empty string,
    and puts the new key behind all others. *)
Theorem cache_lru_order (T : Type) (now : Z) (c : LruCache.Cache T)
        (key : string) (d : T) (t : option Z) :
  (fst (LruCache.get now c key) <> None ->
   map fst (LruCache.cache (snd (LruCache.get now c key)))
   = filter (fun k => negb (k =? key)%string) (map fst (LruCache.cache c)) ++ [key])
  /\ (forall first rest,
        map fst (LruCache.cache c) = first :: rest ->
        first <> "" -> ~ In key (first :: rest) ->
        (LruCache.maxSize c <= Z.of_nat (LruCache.size c))%Z ->
        map fst (LruCache.cache (LruCache.set now c key d t))
        = filter (fun k => negb (k =? first)%string) rest ++ [key]).
Proof.
  split.
  - unfold LruCache.get.
    destruct (Dedup.mapGet _ _) as [e|]; [| intro H; now destruct H].
    destruct (_ <? _)%Z; [intro H; now destruct H | intros _].
    cbn [snd LruCache.withMap LruCache.cache].
    rewrite mapSet_new by apply mapDelete_absent.
    rewrite map_app, mapDelete_keys. reflexivity.
  - intros first rest Hkeys Hfirst Hnew Hfull.
    unfold LruCache.set, LruCache.size, LruCache.withMap in *.
    cbn [LruCache.cache] in *.
    apply Z.leb_le in Hfull. rewrite Hfull.
    destruct (LruCache.cache c) as [|[k e] r] eqn:C; [discriminate Hkeys |].
    cbn [map fst] in Hkeys. injection Hkeys as -> <-.
    rewrite (truthy_nonempty _ Hfirst).
    assert (Hd : map fst (LruCache.mapDelete ((first, e) :: r) first)
                 = filter (fun k => negb (k =? first)%string) (map fst r)).
    { rewrite mapDelete_keys. cbn [map fst filter].
      now rewrite String.eqb_refl. }
    rewrite mapSet_new.
    + now rewrite map_app, Hd.
    + rewrite Hd. intro H. apply filter_In in H. destruct H as [H _].
      apply Hnew. now right.
Qed.

(** ** Parsing a price *)

Section PriceText.
Import ProductText.

Lemma cleaned_price (priceText : string) :
  Regex.replaceAll notDigitOrDot "" priceText = keepChars digitOrDot priceText.
Proof.
  unfold notDigitOrDot. rewrite replaceAll_Chr, substChars_empty.
  apply keepChars_ext. intro c. apply Bool.negb_involutive.
Qed.

Lemma digitVal_range (c : ascii) : isDigit c = true -> (0 <= digitVal c <= 9)%Z.
Proof.
  destruct c as [[] [] [] [] [] [] [] []]; intro H;
    try discriminate H; vm_compute; split; discriminate.
Qed.

Lemma pow10_succ (n : nat) : (10 ^ Z.of_nat (S n) = 10 * 10 ^ Z.of_nat n)%Z.
Proof. rewrite Nat2Z.inj_succ. apply Z.pow_succ_r. lia. Qed.

Lemma valueFrom_acc (ds : string) (a : Z) :
  (valueFrom a ds = a * 10 ^ Z.of_nat (String.length ds) + valueFrom 0 ds)%Z.
Proof.
  revert a. induction ds as [|c r IH]; intro a.
  - cbn [valueFrom String.length]. change (10 ^ Z.of_nat 0)%Z with 1%Z. lia.
  - cbn [valueFrom String.length].
    rewrite (IH (10 * a + digitVal c)%Z), (IH (10 * 0 + digitVal c)%Z), pow10_succ.
    ring.
Qed.

Lemma digitsValue_bounds (ds : string) :
  allChars isDigit ds = true ->
  (0 <= digitsValue ds < 10 ^ Z.of_nat (String.length ds))%Z.
Proof.
  unfold digitsValue. induction ds as [|c r IH]; intro H.
  - cbn. lia.
  - cbn [allChars] in H. apply andb_prop in H. destruct H as [Hc Hr].
    cbn [valueFrom String.length]. rewrite valueFrom_acc, pow10_succ.
    pose proof (digitVal_range c Hc). specialize (IH Hr). nia.
Qed.

Lemma leadingDigits_digits (str : string) :
  allChars isDigit (fst (leadingDigits str)) = true.
Proof.
  induction str as [|c r IH]; [reflexivity |].
  cbn [leadingDigits]. destruct (isDigit c) eqn:E; [| reflexivity].
  destruct (leadingDigits r) as [ds rest]. cbn [fst allChars] in *.
  now rewrite E, IH.
Qed.

Lemma leadingDigits_all (ds : string) :
  allChars isDigit ds = true -> leadingDigits ds = (ds, "").
Proof.
  induction ds as [|c r IH]; intro H; [reflexivity |].
  cbn [allChars] in H. apply andb_prop in H. destruct H as [Hc Hr].
  cbn [leadingDigits]. now rewrite Hc, (IH Hr).
Qed.

Lemma leadingDigits_dots (t : string) :
  allChars isDot t = true -> leadingDigits t = ("", t).
Proof.
  destruct t as [|c r]; [reflexivity |].
  cbn [allChars]. intro H. apply andb_prop in H. destruct H as [Hc _].
  apply Ascii.eqb_eq in Hc. subst c. reflexivity.
Qed.

Lemma parseFloat_dots (t : string) : allChars isDot t = true -> parseFloat t = None.
Proof.
  intro H. unfold parseFloat. rewrite (leadingDigits_dots t H).
  destruct t as [|c r]; [reflexivity |].
  cbn [allChars] in H. apply andb_prop in H. destruct H as [Hc Hr].
  apply Ascii.eqb_eq in Hc. subst c.
  now rewrite (leadingDigits_dots r Hr).
Qed.

Lemma parseFloat_digits (ds : string) :
  allChars isDigit ds = true -> ds <> "" ->
  parseFloat ds = Some (inject_Z (digitsValue ds) + inject_Z 0 / inject_Z 1)%Q.
Proof.
  intros H Hne. unfold parseFloat. rewrite (leadingDigits_all ds H).
  destruct ds as [|c r]; [contradiction | reflexivity].
Qed.

Section Rounding.
Open Scope Q_scope.

Lemma inject_Z_nonneg (z : Z) : (0 <= z)%Z -> 0 <= inject_Z z.
Proof. intro H. unfold Qle. simpl. lia. Qed.

Lemma fraction_below_1 (v n : Z) : (0 <= v < n)%Z -> 0 <= inject_Z v / inject_Z n <= 1.
Proof.
  intros [Hv Hn].
  assert (Hp : 0 < inject_Z n) by (unfold Qlt; simpl; lia).
  split.
  - apply Qle_shift_div_l; [exact Hp |]. rewrite Qmult_0_l. now apply inject_Z_nonneg.
  - apply Qle_shift_div_r; [exact Hp |]. rewrite Qmult_1_l.
    rewrite <- Zle_Qle. lia.
Qed.

Lemma parseFloat_range (t : string) (q : Q) :
  parseFloat t = Some q ->
  0 <= q /\ (fst (leadingDigits t) = "" -> q <= 1).
Proof.
  unfold parseFloat. destruct (leadingDigits t) as [ip rest] eqn:L.
  pose proof (leadingDigits_digits t) as Hip. rewrite L in Hip. cbn [fst] in *.
  set (fp := match rest with
             | String "." r => fst (leadingDigits r)
             | _ => ""
             end).
  assert (Hfp : allChars isDigit fp = true).
  { unfold fp. destruct rest as [|c r]; [reflexivity |].
    destruct c as [[] [] [] [] [] [] [] []]; try reflexivity.
    apply leadingDigits_digits. }
  destruct (_ && _)%bool; [discriminate |]. intros [= <-].
  pose proof (digitsValue_bounds ip Hip) as [Hi _].
  pose proof (fraction_below_1 _ _ (digitsValue_bounds fp Hfp)) as [Hf0 Hf1].
  pose proof (inject_Z_nonneg _ Hi) as Hi'.
  split; [lra |]. intros ->.
  change (inject_Z (digitsValue "")) with 0. lra.
Qed.

Lemma Math_round_integer (v : Z) : Math_round (inject_Z v + inject_Z 0 / inject_Z 1) = v.
Proof.
  unfold Math_round.
  assert (E : inject_Z v + inject_Z 0 / inject_Z 1 + (1 # 2) == inject_Z v + (1 # 2))
    by (change (inject_Z 0 / inject_Z 1) with (0 * / 1); ring).
  rewrite E.
  pose proof (Qfloor_le (inject_Z v + (1 # 2))) as Hlo.
  pose proof (Qlt_floor (inject_Z v + (1 # 2))) as Hhi.
  set (f := Qfloor (inject_Z v + (1 # 2))) in *.
  assert (H1 : inject_Z f < inject_Z (v + 1)).
  { rewrite inject_Z_plus. change (inject_Z 1) with 1. lra. }
  assert (H2 : inject_Z v < inject_Z (f + 1)) by lra.
  rewrite <- Zlt_Qlt in H1, H2. lia.
Qed.
End Rounding.

Lemma Math_round_nonneg (q : Q) : (0 <= q)%Q -> (0 <= Math_round q)%Z.
Proof. intro H. apply (Math_round_mono 0 q H). Qed.

Lemma Math_round_le_1 (q : Q) : (q <= 1)%Q -> (Math_round q <= 1)%Z.
Proof. intro H. apply (Math_round_mono q 1 H). Qed.

Lemma no_digit_only_dots (str : string) :
  keepChars isDigit str = "" -> allChars isDot (keepChars digitOrDot str) = true.
Proof.
  induction str as [|c r IH]; [reflexivity |].
  cbn [keepChars]. unfold digitOrDot at 1.
  destruct (isDigit c); [discriminate |]. cbn [orb]. intro H.
  destruct (Ascii.eqb c ".") eqn:E; [| now apply IH].
  cbn [allChars]. unfold isDot at 1. now rewrite E, IH.
Qed.

Lemma no_dot_only_digits (str : string) :
  allChars (fun c => negb (isDot c)) str = true ->
  keepChars digitOrDot str = keepChars isDigit str.
Proof.
  induction str as [|c r IH]; [reflexivity |].
  cbn [allChars keepChars]. intro H. apply andb_prop in H. destruct H as [Hc Hr].
  unfold digitOrDot at 1. unfold isDot in Hc.
  apply Bool.negb_true_iff in Hc. rewrite Hc, Bool.orb_false_r, (IH Hr).
  reflexivity.
Qed.

Lemma parsePrice_unfold (priceText : string) :
  parsePrice priceText
  = match parseFloat (keepChars digitOrDot priceText) with
    | None => 0%Z
    | Some parsed => Math_round parsed
    end.
Proof.
  unfold parsePrice. rewrite cleaned_price.
  destruct priceText; reflexivity.
Qed.
End PriceText.

(** X30.  [parsePrice] never returns a negative number, and returns 0 for
    a text without a digit.  For a text without a dot and with at most 15
    digits it returns the number that the digits of the text spell, whatever
    stands between them.  When a dot comes before the first digit, as in
    [Rs. 499], the digits are read as a fraction and the result is 0 or 1. *)
Theorem parsePrice_facts (priceText : string) :
  (0 <= ProductText.parsePrice priceText)%Z
  /\ (keepChars isDigit priceText = "" -> ProductText.parsePrice priceText = 0%Z)
  /\ (allChars (fun c => negb (isDot c)) priceText = true ->
      (String.length (keepChars isDigit priceText) <= 15)%nat ->
      ProductText.parsePrice priceText
      = ProductText.digitsValue (keepChars isDigit priceText))
  /\ (forall rest, keepChars digitOrDot priceText = String "." rest ->
        (0 <= ProductText.parsePrice priceText <= 1)%Z).
Proof.
  rewrite parsePrice_unfold.
  assert (Hnn : (0 <= match ProductText.parseFloat (keepChars digitOrDot priceText) with
                      | Some parsed => Math_round parsed
                      | None => 0
                      end)%Z).
  { destruct (ProductText.parseFloat _) as [q|] eqn:P; [| lia].
    apply Math_round_nonneg. now apply parseFloat_range in P. }
  split; [exact Hnn |]. split; [| split].
  - intro H. now rewrite (parseFloat_dots _ (no_digit_only_dots _ H)).
  - intros Hdot _. rewrite (no_dot_only_digits _ Hdot).
    destruct (keepChars isDigit priceText) as [|c r] eqn:K; [reflexivity |].
    rewrite parseFloat_digits.
    + apply Math_round_integer.
    + rewrite <- K. apply keepChars_all.
    + discriminate.
  - intros rest E. split; [exact Hnn |]. rewrite E in *.
    destruct (ProductText.parseFloat _) as [q|] eqn:P; [| lia].
    apply Math_round_le_1. apply parseFloat_range in P. now apply P.
Qed.

(** A price with its currency sign and separators, and one written with an
    abbreviation that ends in a dot. *)
Lemma parsePrice_facts_witness :
  ProductText.parsePrice "INR 1,39,900" = 139900%Z
  /\ (0 <= ProductText.parsePrice "Rs. 499" <= 1)%Z.
Proof.
  split.
  - apply (proj1 (proj2 (proj2 (parsePrice_facts "INR 1,39,900")))).
    + vm_compute. reflexivity.
    + vm_compute. lia.
  - apply (proj2 (proj2 (proj2 (parsePrice_facts "Rs. 499"))) "499").
    vm_compute. reflexivity.
Defined.
